(** * Prisma Studio: the JSON repair engine, the keyframe table and the
      package normalizer of [services/geminiService.ts]

    The repository carries two generations of the service file:
    - [src/services/geminiService.ts]  (module [GeminiService] below), and
    - [src/unnamed/part_008], headed PRODUCTION LOCK v3.1
      (module [GeminiServiceV31] below).
    Both are embedded, function by function, over a common model of the
    JavaScript primitives they call (strings of UTF-16 code units, the
    regular-expression replacements, [JSON.parse]). *)

From Stdlib Require Import List ZArith NArith Bool String Ascii Lia.
Import ListNotations.

Set Implicit Arguments.
Set Warnings "-register-all".

(* ================================================================== *)
(** ** JavaScript strings *)
(* ================================================================== *)

Module JS.

Local Open Scope N_scope.

(** A JavaScript string is a sequence of UTF-16 code units. *)
Definition char := N.
Definition jsstring := list char.

(** [str] embeds an ASCII literal, byte for byte. *)
Definition str (s : string) : jsstring :=
  map N_of_ascii (list_ascii_of_string s).

(** [js] embeds an ASCII literal in which the apostrophe stands for the
    double quote (code unit 34): [js "{'a':1}"] is the text [{"a":1}]. *)
Definition js (s : string) : jsstring :=
  map (fun c => if c =? 39 then 34 else c) (str s).

Definition c_quote : char := 34.      (* double quote *)
Definition c_comma : char := 44.      (* , *)
Definition c_colon : char := 58.      (* : *)
Definition c_lbracket : char := 91.   (* [ *)
Definition c_backslash : char := 92.  (* \ *)
Definition c_rbracket : char := 93.   (* ] *)
Definition c_backtick : char := 96.   (* ` *)
Definition c_lbrace : char := 123.    (* { *)
Definition c_rbrace : char := 125.    (* } *)
Definition c_space : char := 32.
Definition c_lf : char := 10.
Definition c_cr : char := 13.
Definition c_underscore : char := 95.

Fixpoint eqs (a b : jsstring) : bool :=
  match a, b with
  | [], [] => true
  | x :: a', y :: b' => (x =? y) && eqs a' b'
  | _, _ => false
  end.

(** [WhiteSpace] and [LineTerminator] of ECMAScript: what [\s] matches and
    what [String.prototype.trim] removes. *)
Definition isWhiteSpace (c : char) : bool :=
  (c =? 9) || (c =? 10) || (c =? 11) || (c =? 12) || (c =? 13) || (c =? 32)
  || (c =? 160) || (c =? 5760) || ((8192 <=? c) && (c <=? 8202))
  || (c =? 8232) || (c =? 8233) || (c =? 8239) || (c =? 8287)
  || (c =? 12288) || (c =? 65279).

Fixpoint trimStart (s : jsstring) : jsstring :=
  match s with
  | c :: r => if isWhiteSpace c then trimStart r else s
  | [] => []
  end.

Definition trimEnd (s : jsstring) : jsstring := rev (trimStart (rev s)).

Definition trim (s : jsstring) : jsstring := trimEnd (trimStart s).

Fixpoint startsWith (s p : jsstring) : bool :=
  match p, s with
  | [], _ => true
  | x :: p', y :: s' => (x =? y) && startsWith s' p'
  | _ :: _, [] => false
  end.

Definition endsWith (s p : jsstring) : bool := startsWith (rev s) (rev p).

(** [s.indexOf(c)] for a one-character needle: the first index, or -1. *)
Fixpoint indexOf_from (c : char) (s : jsstring) (i : Z) : Z :=
  match s with
  | [] => (-1)%Z
  | x :: r => if x =? c then i else indexOf_from c r (i + 1)%Z
  end.

Definition indexOf (s : jsstring) (c : char) : Z := indexOf_from c s 0%Z.

(** [s.includes(p)]. *)
Fixpoint includes (s p : jsstring) : bool :=
  startsWith s p ||
  match s with
  | [] => false
  | _ :: r => includes r p
  end.

(** [s.substring(a)] and [s.substring(0, b)]; negative arguments count as 0
    and arguments past the end as the length. *)
Definition substring_from (s : jsstring) (a : Z) : jsstring :=
  skipn (Z.to_nat a) s.

Definition substring_to (s : jsstring) (b : Z) : jsstring :=
  firstn (Z.to_nat b) s.

(** ASCII case folding.  [toLowerCase] is applied by the code only before
    comparisons against ASCII literals.  Of the characters outside ASCII,
    only the Kelvin sign (U+212A) lowers to an ASCII letter; every other one
    lowers to text that still holds a code unit outside ASCII, so it can
    neither create nor destroy a match with an ASCII literal and is left
    as it is here. *)
Definition lower (c : char) : char :=
  if (65 <=? c) && (c <=? 90) then c + 32
  else if c =? 8490 then 107
  else c.

Definition toLowerCase (s : jsstring) : jsstring := map lower s.

(** *** Regular-expression replacement

    [replace_all m] is [String.prototype.replace] with a global pattern
    none of whose matches is empty: the text is read left to right; where
    the pattern matches, [m] gives the length of the match and its
    replacement, and reading resumes after the match. *)
Fixpoint replace_all (m : jsstring -> option (nat * jsstring))
         (skip : nat) (s : jsstring) : jsstring :=
  match s with
  | [] => []
  | c :: r =>
      match skip with
      | S k => replace_all m k r
      | O =>
          match m s with
          | Some (len, repl) => (repl ++ replace_all m (pred len) r)%list
          | None => c :: replace_all m 0 r
          end
      end
  end.

(** The greedy run [\s*] at the head of a text: its length. *)
Fixpoint ws_run (s : jsstring) : nat :=
  match s with
  | c :: r => if isWhiteSpace c then S (ws_run r) else O
  | [] => O
  end.

(** [/\n/g] and [/\r/g] with replacement [' ']. *)
Definition m_char (x : char) (repl : jsstring) (s : jsstring)
  : option (nat * jsstring) :=
  match s with
  | c :: _ => if c =? x then Some (1%nat, repl) else None
  | [] => None
  end.

(** [/,\s*([\]}])/g] with replacement ['$1']: a comma, white space, and a
    closing bracket or brace, which is kept. *)
Definition m_comma_closer (s : jsstring) : option (nat * jsstring) :=
  match s with
  | c :: r =>
      if c =? c_comma then
        let n := ws_run r in
        match skipn n r with
        | d :: _ =>
            if (d =? c_rbracket) || (d =? c_rbrace)
            then Some (S (S n), [d]) else None
        | [] => None
        end
      else None
  | [] => None
  end.

(** The pattern of a double quote, white space, a colon, white space and a
    double quote, global, replaced by quote-colon-quote. *)
Definition m_quote_colon_quote (s : jsstring) : option (nat * jsstring) :=
  match s with
  | c :: r =>
      if c =? c_quote then
        let n := ws_run r in
        match skipn n r with
        | d :: r' =>
            if d =? c_colon then
              let k := ws_run r' in
              match skipn k r' with
              | e :: _ =>
                  if e =? c_quote
                  then Some (S (n + S (k + 1)), [c_quote; c_colon; c_quote])
                  else None
              | [] => None
              end
            else None
        | [] => None
        end
      else None
  | [] => None
  end.

(** [/\s+/g] with replacement ['_']. *)
Definition m_ws_plus (s : jsstring) : option (nat * jsstring) :=
  match ws_run s with
  | O => None
  | n => Some (n, [c_underscore])
  end.

(** Canonicalisation of the [i] flag (without [u]): upper-casing, except
    that a character outside ASCII never folds onto an ASCII one.  For the
    patterns of this file only the ASCII letters matter. *)
Definition canonicalize (c : char) : char :=
  if (97 <=? c) && (c <=? 122) then c - 32 else c.

Fixpoint startsWith_ci (s p : jsstring) : bool :=
  match p, s with
  | [], _ => true
  | x :: p', y :: s' =>
      (canonicalize x =? canonicalize y) && startsWith_ci s' p'
  | _ :: _, [] => false
  end.

(** [s.replace(/^```json\s*/i, '')]: the pattern is anchored at the start,
    so it matches at most once. *)
Definition strip_fence_open (s : jsstring) : jsstring :=
  if startsWith_ci s (str "```json") then trimStart (skipn 7 s) else s.

(** [s.replace(/```$/i, '')]: the pattern is anchored at the end, so its
    only possible match is the last three code units. *)
Definition strip_fence_close (s : jsstring) : jsstring :=
  if endsWith s (str "```") then firstn (List.length s - 3) s else s.

(** [s.replace(/,$/, '')]. *)
Definition strip_last_comma (s : jsstring) : jsstring :=
  if endsWith s [c_comma] then removelast s else s.

End JS.

(* ================================================================== *)
(** ** [JSON.parse] *)
(* ================================================================== *)

(** The parser of the platform (ECMA-404 / ECMA-262, JSON.parse without a
    reviver), which the service calls on the repaired text: a lexer and a
    recursive-descent parser over its tokens.  [None] is the [SyntaxError]
    that [JSON.parse] throws. *)

Module JSON.

Import JS.
Local Open Scope N_scope.

(** A number is kept as its literal denotes it, [(-1)^neg * mant * 10^expo],
    so that no rounding enters the model; two literals with equal fields
    denote the same double. *)
Record number := mkNumber { neg : bool; mant : N; expo : Z }.

Inductive value :=
| JNull
| JBool (b : bool)
| JNum (n : number)
| JStr (s : jsstring)
| JArr (l : list value)
| JObj (l : list (jsstring * value)).

Inductive token :=
| TLBrace | TRBrace | TLBracket | TRBracket | TComma | TColon
| TStr (s : jsstring) | TNum (n : number) | TTrue | TFalse | TNull.

(** JSON white space: space, tab, line feed, carriage return. *)
Definition is_json_ws (c : char) : bool :=
  (c =? 32) || (c =? 9) || (c =? 10) || (c =? 13).

Definition is_digit (c : char) : bool := (48 <=? c) && (c <=? 57).

Definition hex_val (c : char) : option N :=
  if is_digit c then Some (c - 48)
  else if (97 <=? c) && (c <=? 102) then Some (c - 87)
  else if (65 <=? c) && (c <=? 70) then Some (c - 55)
  else None.

(** The escape after a backslash, other than [u]. *)
Definition simple_escape (e : char) : option char :=
  if e =? 34 then Some 34          (* quote *)
  else if e =? 92 then Some 92     (* backslash *)
  else if e =? 47 then Some 47     (* slash *)
  else if e =? 98 then Some 8      (* b *)
  else if e =? 102 then Some 12    (* f *)
  else if e =? 110 then Some 10    (* n *)
  else if e =? 114 then Some 13    (* r *)
  else if e =? 116 then Some 9     (* t *)
  else None.

Definition cons_fst {A B : Type} (a : A) (r : option (list A * B))
  : option (list A * B) :=
  match r with
  | Some (l, b) => Some (a :: l, b)
  | None => None
  end.

(** The text after an opening quote: the decoded string and what follows
    the closing quote. *)
Fixpoint lex_string (s : jsstring) : option (jsstring * jsstring) :=
  match s with
  | [] => None
  | c :: r =>
      if c =? c_quote then Some ([], r)
      else if c =? c_backslash then
        match r with
        | [] => None
        | e :: r1 =>
            match simple_escape e with
            | Some d => cons_fst d (lex_string r1)
            | None =>
                if e =? 117 then
                  match r1 with
                  | h1 :: h2 :: h3 :: h4 :: r2 =>
                      match hex_val h1, hex_val h2, hex_val h3, hex_val h4 with
                      | Some a, Some b, Some c', Some d =>
                          cons_fst (((a * 16 + b) * 16 + c') * 16 + d)
                                   (lex_string r2)
                      | _, _, _, _ => None
                      end
                  | _ => None
                  end
                else None
            end
        end
      else if c <? 32 then None
      else cons_fst c (lex_string r)
  end.

(** A run of digits: the accumulated value, the number of digits read and
    the rest. *)
Fixpoint read_digits (s : jsstring) (acc : N) : N * nat * jsstring :=
  match s with
  | c :: r =>
      if is_digit c then
        let '(v, k, rest) := read_digits r (acc * 10 + (c - 48)) in
        (v, S k, rest)
      else (acc, O, s)
  | [] => (acc, O, s)
  end.

Definition lex_int (s : jsstring) : option (N * jsstring) :=
  match s with
  | c :: r =>
      if c =? 48 then Some (0, r)
      else if is_digit c then
        let '(v, _, rest) := read_digits s 0 in Some (v, rest)
      else None
  | [] => None
  end.

Definition lex_frac (m : N) (s : jsstring) : option (N * nat * jsstring) :=
  match s with
  | c :: r =>
      if c =? 46 then
        let '(v, k, rest) := read_digits r m in
        match k with O => None | _ => Some (v, k, rest) end
      else Some (m, O, s)
  | [] => Some (m, O, s)
  end.

Definition lex_exp (s : jsstring) : option (Z * jsstring) :=
  match s with
  | c :: r =>
      if (c =? 101) || (c =? 69) then
        let '(sg, r1) :=
          match r with
          | d :: r0 =>
              if d =? 45 then (true, r0)
              else if d =? 43 then (false, r0)
              else (false, r)
          | [] => (false, r)
          end in
        let '(v, k, rest) := read_digits r1 0 in
        match k with
        | O => None
        | _ => Some (if sg then (- Z.of_N v)%Z else Z.of_N v, rest)
        end
      else Some (0%Z, s)
  | [] => Some (0%Z, s)
  end.

Definition lex_number (s : jsstring) : option (number * jsstring) :=
  let '(ng, s1) :=
    match s with
    | c :: r => if c =? 45 then (true, r) else (false, s)
    | [] => (false, s)
    end in
  match lex_int s1 with
  | None => None
  | Some (m, s2) =>
      match lex_frac m s2 with
      | None => None
      | Some (m', k, s3) =>
          match lex_exp s3 with
          | None => None
          | Some (e, s4) =>
              Some (mkNumber ng m' (e - Z.of_nat k), s4)
          end
      end
  end.

Definition cons_opt {A : Type} (a : A) (r : option (list A))
  : option (list A) :=
  match r with
  | Some l => Some (a :: l)
  | None => None
  end.

Fixpoint tokenize_fuel (fuel : nat) (s : jsstring) : option (list token) :=
  match fuel with
  | O => None
  | S f =>
      match s with
      | [] => Some []
      | c :: r =>
          if is_json_ws c then tokenize_fuel f r
          else if c =? c_lbrace then cons_opt TLBrace (tokenize_fuel f r)
          else if c =? c_rbrace then cons_opt TRBrace (tokenize_fuel f r)
          else if c =? c_lbracket then cons_opt TLBracket (tokenize_fuel f r)
          else if c =? c_rbracket then cons_opt TRBracket (tokenize_fuel f r)
          else if c =? c_comma then cons_opt TComma (tokenize_fuel f r)
          else if c =? c_colon then cons_opt TColon (tokenize_fuel f r)
          else if c =? c_quote then
            match lex_string r with
            | Some (x, r') => cons_opt (TStr x) (tokenize_fuel f r')
            | None => None
            end
          else if (c =? 45) || is_digit c then
            match lex_number s with
            | Some (n, r') => cons_opt (TNum n) (tokenize_fuel f r')
            | None => None
            end
          else if startsWith s (str "true") then
            cons_opt TTrue (tokenize_fuel f (skipn 4 s))
          else if startsWith s (str "false") then
            cons_opt TFalse (tokenize_fuel f (skipn 5 s))
          else if startsWith s (str "null") then
            cons_opt TNull (tokenize_fuel f (skipn 4 s))
          else None
      end
  end.

(** Every step of the lexer consumes a code unit, so the length of the text
    (plus one) is fuel enough. *)
Definition tokenize (s : jsstring) : option (list token) :=
  tokenize_fuel (S (List.length s)) s.

Fixpoint parse_value (fuel : nat) (ts : list token)
  : option (value * list token) :=
  match fuel with
  | O => None
  | S f =>
      match ts with
      | TNull :: r => Some (JNull, r)
      | TTrue :: r => Some (JBool true, r)
      | TFalse :: r => Some (JBool false, r)
      | TNum n :: r => Some (JNum n, r)
      | TStr s :: r => Some (JStr s, r)
      | TLBracket :: TRBracket :: r => Some (JArr [], r)
      | TLBracket :: r =>
          match parse_elements f r with
          | Some (vs, r') => Some (JArr vs, r')
          | None => None
          end
      | TLBrace :: TRBrace :: r => Some (JObj [], r)
      | TLBrace :: r =>
          match parse_members f r with
          | Some (ms, r') => Some (JObj ms, r')
          | None => None
          end
      | _ => None
      end
  end
with parse_elements (fuel : nat) (ts : list token)
  : option (list value * list token) :=
  match fuel with
  | O => None
  | S f =>
      match parse_value f ts with
      | Some (v, TComma :: r) => cons_fst v (parse_elements f r)
      | Some (v, TRBracket :: r) => Some ([v], r)
      | _ => None
      end
  end
with parse_members (fuel : nat) (ts : list token)
  : option (list (jsstring * value) * list token) :=
  match fuel with
  | O => None
  | S f =>
      match ts with
      | TStr k :: TColon :: r =>
          match parse_value f r with
          | Some (v, TComma :: r') => cons_fst (k, v) (parse_members f r')
          | Some (v, TRBrace :: r') => Some ([(k, v)], r')
          | _ => None
          end
      | _ => None
      end
  end.

(** [JSON.parse(text)]: one value and nothing after it. *)
Definition parse (s : jsstring) : option value :=
  match tokenize s with
  | None => None
  | Some ts =>
      match parse_value (S (List.length ts)) ts with
      | Some (v, []) => Some v
      | _ => None
      end
  end.

(** Property lookup [o.k] on a parsed value, for a name [k] that no
    prototype defines: the own property of an object (of two members with
    one key the later one wins), and [undefined] ([None]) on anything
    else that is not [null]. *)
Fixpoint assoc_last (k : jsstring) (l : list (jsstring * value))
  : option value :=
  match l with
  | [] => None
  | (k', v) :: r =>
      match assoc_last k r with
      | Some w => Some w
      | None => if eqs k k' then Some v else None
      end
  end.

End JSON.

(* ================================================================== *)
(** ** The repair engine: what the two [cleanJsonString] share *)
(* ================================================================== *)

(** The two files have the same scanning loop, the same truncation block and
    the same chain of replacements; part_008 adds to the loop the test for
    the end of the root structure (its lines 96-101).  The loop is written
    once here, with [track_end] telling whether that test is present. *)

Module Repair.

Import JS.
Local Open Scope Z_scope.

(** The variables of the loop; [cleaned] is among them because the loop of
    part_008 assigns it. *)
Record scan_state := mkScan {
  braceCount : Z;
  bracketCount : Z;
  inString : bool;
  escaped : bool;
  lastSafePoint : Z;
  finished : bool;
  cleaned : jsstring
}.

Definition scan_init (text : jsstring) : scan_state :=
  mkScan 0 0 false false (-1) false text.

(** [if (char === '{') braceCount++; else if (char === '}') braceCount--;
     else if (char === '[') bracketCount++;
     else if (char === ']') bracketCount--;] *)
Definition count (char : char) (bc : Z * Z) : Z * Z :=
  let '(b, k) := bc in
  if (char =? c_lbrace)%N then (b + 1, k)
  else if (char =? c_rbrace)%N then (b - 1, k)
  else if (char =? c_lbracket)%N then (b, k + 1)
  else if (char =? c_rbracket)%N then (b, k - 1)
  else (b, k).

Definition is_safe_char (char : char) : bool :=
  ((char =? c_rbrace) || (char =? c_rbracket) || (char =? c_comma))%N.

(** [for (let i = 0; i < cleaned.length; i++) {...}], from index [i] on;
    [rest] is the text from [cleaned[i]].  A [break] ends the recursion. *)
Fixpoint scan (track_end : bool) (rest : jsstring) (i : Z) (st : scan_state)
  : scan_state :=
  match rest with
  | [] => st
  | char :: rest' =>
      let inString1 :=
        if (char =? c_quote)%N && negb (escaped st)
        then negb (inString st) else inString st in
      let escaped1 := (char =? c_backslash)%N && negb (escaped st) in
      if negb inString1 then
        let '(b1, k1) := count char (braceCount st, bracketCount st) in
        let lsp1 :=
          if (b1 >=? 0) && (k1 >=? 0) && is_safe_char char
          then i else lastSafePoint st in
        if track_end && (b1 =? 0) && (k1 =? 0) && (i >? 0) then
          (* cleaned = cleaned.substring(0, i + 1); finished = true; break *)
          mkScan b1 k1 inString1 (escaped st) lsp1 true
                 (substring_to (cleaned st) (i + 1))
        else
          let st1 := mkScan b1 k1 inString1 escaped1 lsp1 (finished st)
                            (cleaned st) in
          if (b1 <? 0) || (k1 <? 0) then st1 else scan track_end rest' (i + 1) st1
      else
        let st1 := mkScan (braceCount st) (bracketCount st) inString1 escaped1
                          (lastSafePoint st) (finished st) (cleaned st) in
        if (braceCount st <? 0) || (bracketCount st <? 0) then st1
        else scan track_end rest' (i + 1) st1
  end.

(** The second loop, [for (const c of cleaned)], which counts without
    regard to strings.  It runs over code points; none of the four
    characters it tests is a surrogate, so the count over code units is the
    same. *)
Fixpoint rescan (s : jsstring) (sBrace sBracket : Z) : Z * Z :=
  match s with
  | [] => (sBrace, sBracket)
  | c :: r =>
      let sBrace1 :=
        if (c =? c_lbrace)%N then sBrace + 1
        else if (c =? c_rbrace)%N then sBrace - 1 else sBrace in
      let sBracket1 :=
        if (c =? c_lbracket)%N then sBracket + 1
        else if (c =? c_rbracket)%N then sBracket - 1 else sBracket in
      rescan r sBrace1 sBracket1
  end.

(** The block under [if (lastSafePoint !== -1)]: cut, strip the comma,
    count again, close brackets and then braces. *)
Definition cut_and_close (text : jsstring) (lsp : Z) : jsstring :=
  let c1 := substring_to text (lsp + 1) in
  let c2 := strip_last_comma (trim c1) in
  let '(sBrace, sBracket) := rescan c2 0 0 in
  (c2 ++ repeat c_rbracket (Z.to_nat sBracket)
      ++ repeat c_rbrace (Z.to_nat sBrace))%list.

(** The truncation block, entered when the structure is left open. *)
Definition repair (st : scan_state) : jsstring :=
  if negb (finished st)
     && ((braceCount st >? 0) || (bracketCount st >? 0) || inString st)
  then
    if negb (lastSafePoint st =? -1) then
      cut_and_close (cleaned st) (lastSafePoint st)
    else if negb (endsWith (cleaned st) [c_rbrace])
         then (cleaned st ++ [c_rbrace])%list
         else cleaned st
  else cleaned st.

(** The four replacements of the [return]. *)
Definition postprocess (s : jsstring) : jsstring :=
  replace_all m_quote_colon_quote 0
    (replace_all m_comma_closer 0
       (replace_all (m_char c_cr [c_space]) 0
          (replace_all (m_char c_lf [c_space]) 0 s))).

(** [text.trim()], the two fence replacements, [.trim()]. *)
Definition unwrap (text : jsstring) : jsstring :=
  trim (strip_fence_close (strip_fence_open (trim text))).

Definition empty_object : jsstring := [c_lbrace; c_rbrace].

End Repair.

(* ================================================================== *)
(** ** Values, exceptions and the records of [types.ts] *)
(* ================================================================== *)

Module Runtime.

Import JS JSON.
Local Open Scope Z_scope.

(** A computation that returns or throws an [Error] with a message. *)
Inductive result (A : Type) :=
| Ok (a : A)
| Throw (message : jsstring).
Arguments Ok {A} a.
Arguments Throw {A} message.

Definition bind {A B : Type} (r : result A) (k : A -> result B) : result B :=
  match r with
  | Ok a => k a
  | Throw m => Throw m
  end.

Notation "x <- c1 ;; c2" := (bind c1 (fun x => c2))
  (at level 61, c1 at next level, right associativity).

(** [ToBoolean] on a number: a double is falsy when it is zero, and a
    literal denotes the double zero when its digits are all zero or when
    its magnitude is at most [2^-1075], half the least subnormal, which
    rounds to zero. *)
Definition is_zero (n : number) : bool :=
  (mant n =? 0)%N
  || ((expo n <? 0) && (Z.of_N (mant n) * 2 ^ 1075 <=? 10 ^ (- expo n))).

(** [ToBoolean] on a parsed value. *)
Definition truthy (v : value) : bool :=
  match v with
  | JNull => false
  | JBool b => b
  | JNum n => negb (is_zero n)
  | JStr s => match s with [] => false | _ => true end
  | JArr _ => true
  | JObj _ => true
  end.

(** [undefined] is [None]. *)
Definition jsval := option value.

Definition truthy_val (v : jsval) : bool :=
  match v with
  | Some x => truthy x
  | None => false
  end.

(** The message of the [TypeError] for a property read on [null] or
    [undefined] (the wording of V8). *)
Definition type_error (k : string) : jsstring :=
  (str "Cannot read properties of null (reading '" ++ str k ++ str "')")%list.

(** [o.k], for the property names this code reads (metadata, topic, mood,
    seo, story, keyframe_plan_titles, visualPrompts, label, prompt, error,
    message), which no prototype defines: the own property of an object,
    [undefined] on an array or a primitive, a [TypeError] on [null] and
    [undefined]. *)
Definition get (o : jsval) (k : string) : result jsval :=
  match o with
  | None => Throw (type_error k)
  | Some JNull => Throw (type_error k)
  | Some (JObj l) => Ok (assoc_last (str k) l)
  | Some _ => Ok None
  end.

(** [o?.k]. *)
Definition get_opt (o : jsval) (k : string) : jsval :=
  match o with
  | Some (JObj l) => assoc_last (str k) l
  | _ => None
  end.

(** [a || b] where [b] is a value. *)
Definition or_else (a : jsval) (b : value) : value :=
  match a with
  | Some x => if truthy x then x else b
  | None => b
  end.

(** [UserInput] of types.ts. *)
Record UserInput := mkUserInput {
  script : jsstring;
  visualStyle : jsstring;
  sceneDensity : jsstring;
  aspectRatio : jsstring;
  characterDescription : jsstring;
  videoDuration : jsstring;
  modelEngine : jsstring
}.

(** [ProductionPackage] of types.ts, with each field at the type of the
    values the code can put there: what comes from the parsed completion is
    a [value] whatever the interface declares. *)
Record Metadata := mkMetadata {
  topic : value;
  mood : value;
  md_visualStyle : jsstring;
  md_aspectRatio : jsstring;
  duration : jsstring
}.

Record ProductionPackage := mkPackage {
  metadata : Metadata;
  seo : value;
  story : value;
  (** either [data.keyframe_plan_titles] or the mapped labels, in which
      [None] is [undefined] *)
  titles : value + list jsval;
  visualPrompts : list value;
  audioMap : list jsstring;
  cst : jsstring;
  bst : jsstring;
  gst : jsstring;
  vst : jsstring
}.

(** A style preset. *)
Record StylePreset := mkPreset {
  image_style : jsstring;
  video_style : jsstring;
  recommended_vst : jsstring
}.

(** What [ai.models.generateContent] does: it resolves with a response
    whose [text] may be [undefined], or rejects with an error. *)
Inductive response :=
| Text (text : option jsstring)
| Rejected (message : jsstring).

(** The surroundings of a call: the key in [process.env] and the answers of
    the generation service, the [n]-th being the one to the call made with
    [retryCount = n] (src/services/geminiService.ts makes one call only). *)
Record world := mkWorld {
  API_KEY : option jsstring;
  generateContent : nat -> response
}.

(** [getAiClient]: it throws when the key is absent or empty. *)
Definition has_key (w : world) : bool :=
  match API_KEY w with
  | Some (_ :: _) => true
  | _ => false
  end.

(** The names under which an object literal finds a property that is not
    its own: those of [Object.prototype] (ECMAScript, with the additions
    of its Annex B that browsers carry). *)
Definition Object_prototype : list jsstring :=
  [ str "constructor"; str "__defineGetter__"; str "__defineSetter__";
    str "hasOwnProperty"; str "__lookupGetter__"; str "__lookupSetter__";
    str "isPrototypeOf"; str "propertyIsEnumerable"; str "toString";
    str "valueOf"; str "__proto__"; str "toLocaleString" ].

Definition inherited (k : jsstring) : bool :=
  existsb (eqs k) Object_prototype.

(** [t[k]] on an object literal used as a table: the own property, or
    [undefined].  This is what the code reads under every name that is not
    [inherited].  Under an inherited name that is no key of the table the
    code finds a built-in function or object, which is not modelled:
    [getRequiredKeyframeCount] and [resolveStyle] below are the code under
    the names that are not inherited. *)
Fixpoint lookup {A : Type} (k : jsstring) (t : list (jsstring * A))
  : option A :=
  match t with
  | [] => None
  | (k', a) :: r => if eqs k k' then Some a else lookup k r
  end.

(** The default [seo] object of [generateMoviePackage]. *)
Definition default_seo : value :=
  JObj [ (str "bestTitle", JStr (str "Untitled"));
         (str "altTitles", JArr []);
         (str "videoDescription", JStr []);
         (str "tags", JStr []);
         (str "hashtags", JStr []);
         (str "thumbnailPrompt", JStr []);
         (str "sunoPrompt", JStr []) ].

(** The em dash of the preset names (U+2014). *)
Definition dash : jsstring := [8212%N].

Definition P (i v r : string) : StylePreset :=
  mkPreset (str i) (str v) (str r).

Definition VISUAL_STYLE_PRESETS : list (jsstring * StylePreset) :=
  [ ((str "Stickman " ++ dash ++ str " 2D Classic")%list,
     P "2D classic stickman animation, clean vector linework, flat shapes"
       "2D classic stickman motion, smooth tweened animation, stable linework"
       "VST_01 Clean Digital Cinema");
    ((str "Stickman " ++ dash ++ str " Blueprint")%list,
     P "blueprint schematic style, cyan grid, white technical line drawings"
       "blueprint line-reveal animation, technical callout pop-ins"
       "VST_14 Matte Minimalist");
    ((str "Stickman " ++ dash ++ str " Chalkboard")%list,
     P "chalkboard sketch style, rough chalk strokes, dusty smudges"
       "chalk-writing reveal animation, smudge transitions, chalk dust"
       "VST_05 Overcast Documentary");
    ((str "Stickman " ++ dash ++ str " 3D Render")%list,
     P "simple 3D stick-figure render, smooth plastic, soft studio light"
       "simple 3D character animation, smooth keyframed motion"
       "VST_09 High-Key Commercial");
    (str "Clay Animation",
     P "clay animation style, handcrafted clay textures, fingerprints"
       "claymation motion, stop-motion jitter, tactile deformations"
       "VST_02 Warm Indie Drama");
    (str "Studio Ghibli",
     P "Studio Ghibli aesthetic, hand-painted watercolor anime, soft edges"
       "painterly animation feel, gentle parallax pans, soft light transitions"
       "VST_08 Soft Pastel Dream");
    (str "Retro Anime",
     P "retro 90s anime cel style, ink lines, limited shading, halation"
       "retro cel animation, limited-frame cadence, classic anime holds"
       "VST_06 Retro 35mm Film");
    (str "Pixar Style",
     P "stylized 3D family animation look, expressive faces, global illumination"
       "stylized 3D animation, smooth character arcs, cinematic DOF"
       "VST_09 High-Key Commercial");
    (str "Stop-motion Animation",
     P "miniature practical set, handmade props, tactile textures"
       "stop-motion feel, frame jitter, miniature parallax"
       "VST_07 Vintage 16mm Home-Movie");
    (str "Cutout Animation",
     P "2D cutout puppet look, layered paper shapes, crisp silhouettes"
       "cutout puppet motion, hinge-like limb movement, layered parallax"
       "VST_14 Matte Minimalist");
    (str "3D CGI Animation",
     P "high quality 3D CGI frame, detailed materials, cinematic lighting"
       "3D CGI cinematic, smooth camera moves, realistic motion blur"
       "VST_11 Anamorphic Cinematic");
    (str "Cinematic 8K",
     P "ultra-detailed cinematic realism, crisp textures, shallow DOF"
       "cinematic realism, slow dolly tracking, realistic motion blur"
       "VST_11 Anamorphic Cinematic");
    (str "Documentary",
     P "documentary realism, natural lighting, candid framing"
       "documentary camera language, handheld shake, natural ambience"
       "VST_05 Overcast Documentary");
    (str "Cyberpunk",
     P "cyberpunk neon city, wet reflective streets, magenta/cyan practicals"
       "neon noir cinematic, slow tracking, volumetric haze motion"
       "VST_12 Neon Night City");
    (str "Film Noir",
     P "film noir, classic monochrome, hard shadows, dramatic contrast"
       "noir pacing, slow push-in, chiaroscuro lighting, smoke drift"
       "VST_13 Black & White Classic");
    (str "Low-Key Thriller",
     P "low-key thriller lighting, deep shadows, tight contrast"
       "suspense pacing, slow dolly in, handheld tension"
       "VST_10 Low-Key Thriller") ].

(** [VISUAL_STYLE_PRESETS[name] || VISUAL_STYLE_PRESETS["Studio Ghibli"]]. *)
Definition resolveStyle (name : jsstring) : StylePreset :=
  match lookup name VISUAL_STYLE_PRESETS with
  | Some p => p
  | None =>
      match lookup (str "Studio Ghibli") VISUAL_STYLE_PRESETS with
      | Some p => p
      | None => mkPreset [] [] []
      end
  end.

End Runtime.

(* ================================================================== *)
(** ** src/services/geminiService.ts *)
(* ================================================================== *)

Module GeminiService.

Import JS JSON Repair Runtime.
Local Open Scope Z_scope.

(** [cleanJsonString] (lines 46-104).  [None] is [undefined]. *)
Definition cleanJsonString (text : option jsstring) : jsstring :=
  match text with
  | None => empty_object
  | Some [] => empty_object
  | Some text =>
      let cleaned := unwrap text in
      let start := indexOf cleaned c_lbrace in
      if start =? -1 then empty_object
      else
        let cleaned := substring_from cleaned start in
        postprocess (repair (scan false cleaned 0 (scan_init cleaned)))
  end.

(** [getRequiredKeyframeCount] (lines 106-116): the labels are looked up
    as they come. *)
Definition table : list (jsstring * list (jsstring * Z)) :=
  let row (a b c : Z) :=
    [ (str "Concise", a); (str "Standard", b); (str "Detailed", c) ] in
  [ (str "30 Seconds", row 4 5 6);
    (str "1 Minute", row 6 8 10);
    (str "3 Minutes", row 10 14 18);
    (str "5 Minutes", row 14 20 26);
    (str "8 Minutes", row 18 26 34);
    (str "10 Minutes", row 20 30 40) ].

(** [table[duration]?.[density] || 8]. *)
Definition getRequiredKeyframeCount (duration density : jsstring) : Z :=
  match lookup duration table with
  | Some row =>
      match lookup density row with
      | Some n => if n =? 0 then 8 else n
      | None => 8
      end
  | None => 8
  end.

(** The message that [handleApiError] classifies (lines 19-29), for an
    error whose [message] is the string [m]: the [error.message] of a JSON
    body when there is one, else [m], in lower case.  A [message] member
    that is truthy and not a string makes [toLowerCase] throw, and the
    [catch] falls back on [m]. *)
Definition error_msg (m : jsstring) : jsstring :=
  if startsWith m [c_lbrace] then
    match JSON.parse m with
    | Some parsed =>
        match get_opt (get_opt (Some parsed) "error") "message" with
        | Some x =>
            if truthy x then
              match x with
              | JStr t => toLowerCase t
              | _ => toLowerCase m
              end
            else toLowerCase m
        | None => toLowerCase m
        end
    | None => toLowerCase m
    end
  else toLowerCase m.

Definition any_includes (msg : jsstring) (ps : list string) : bool :=
  existsb (fun p => includes msg (str p)) ps.

Definition failure_message (task : string) (msg : jsstring) : jsstring :=
  (str "Engine Failure [" ++ str task ++ str "]: "
     ++ match msg with [] => str "Unknown failure" | _ => msg end)%list.

(** [handleApiError] (lines 16-41) never returns: the events it dispatches
    on [window] and the message of the error it throws. *)
Definition handleApiError (m : jsstring) (task : string)
  : list jsstring * jsstring :=
  let msg := error_msg m in
  if any_includes msg ["401"; "403"; "api key not valid"; "invalid api key"]%string
  then ([str "PRISMA_API_KEY_INVALID"],
        str "API Key not valid. Please check your Engine Settings.")
  else if any_includes msg ["429"; "quota"; "limit"; "resource_exhausted"]%string
  then ([], str "QUOTA EXHAUSTED: Your API key has reached its limit. Wait 60s or switch to a paid key.")
  else ([], failure_message task msg).

Definition structural_failure : jsstring :=
  str "JSON_STRUCTURAL_FAILURE: Response was truncated or malformed. Reduce 'Asset Density'.".

(** Lines 245-255: parse, on failure parse once more with a closing brace
    appended, on failure again throw. *)
Definition parse_with_retry (rawJson : jsstring) : result value :=
  match JSON.parse rawJson with
  | Some data => Ok data
  | None =>
      match JSON.parse (rawJson ++ [c_rbrace]) with
      | Some data => Ok data
      | None => Throw structural_failure
      end
  end.

(** [p && (p.prompt || p.label)], as a condition. *)
Definition valid_prompt (p : value) : bool :=
  truthy p
  && (truthy_val (get_opt (Some p) "prompt")
      || truthy_val (get_opt (Some p) "label")).

(** Lines 257-274: the package built from the parsed completion. *)
Definition normalize (data : value) (input : UserInput)
           (styleData : StylePreset) : result ProductionPackage :=
  vp <- get (Some data) "visualPrompts" ;;
  let rawPrompts := match vp with Some (JArr l) => l | _ => [] end in
  let validPrompts := filter valid_prompt rawPrompts in
  md1 <- get (Some data) "metadata" ;;
  md2 <- get (Some data) "metadata" ;;
  seo_ <- get (Some data) "seo" ;;
  story_ <- get (Some data) "story" ;;
  kpt <- get (Some data) "keyframe_plan_titles" ;;
  Ok (mkPackage
        (mkMetadata
           (or_else (get_opt md1 "topic") (JStr (firstn 30 (script input))))
           (or_else (get_opt md2 "mood") (JStr (str "Cinematic")))
           (visualStyle input) (aspectRatio input) (videoDuration input))
        (or_else seo_ default_seo)
        (or_else story_ (JStr (script input)))
        (if truthy_val kpt then inl (or_else kpt JNull)
         else inr (map (fun p => get_opt (Some p) "label") validPrompts))
        validPrompts
        []
        [] [] [] (recommended_vst styleData)).

Definition no_key : jsstring :=
  str "API Key not found. Please ensure the Engine is locked with a valid Gemini API Key.".

(** [generateMoviePackage] (lines 204-278): the events dispatched and the
    package returned or the error thrown.  The prompt text only travels to
    the generation service and is left out. *)
Definition generateMoviePackage (w : world) (input : UserInput)
  : list jsstring * result ProductionPackage :=
  if negb (has_key w) then ([], Throw no_key)
  else
    let styleData := resolveStyle (visualStyle input) in
    let body :=
      match generateContent w 0 with
      | Rejected m => Throw m
      | Text text =>
          let rawJson := cleanJsonString text in
          data <- parse_with_retry rawJson ;;
          normalize data input styleData
      end in
    match body with
    | Ok pkg => ([], Ok pkg)
    | Throw m =>
        let '(ev, e) := handleApiError m "GENERATE_PACKAGE" in (ev, Throw e)
    end.

End GeminiService.

(* ================================================================== *)
(** ** src/unnamed/part_008 (PRODUCTION LOCK v3.1) *)
(* ================================================================== *)

Module GeminiServiceV31.

Import JS JSON Repair Runtime.
Local Open Scope Z_scope.

(** The root search of lines 63-67. *)
Definition find_start (cleaned : jsstring) : Z :=
  let startObj := indexOf cleaned c_lbrace in
  let startArr := indexOf cleaned c_lbracket in
  if negb (startObj =? -1) && ((startArr =? -1) || (startObj <? startArr))
  then startObj
  else if negb (startArr =? -1) then startArr
  else -1.

(** [cleanJsonString] (lines 55-130). *)
Definition cleanJsonString (text : option jsstring) : jsstring :=
  match text with
  | None => empty_object
  | Some [] => empty_object
  | Some text =>
      let cleaned := unwrap text in
      let start := find_start cleaned in
      if start =? -1 then empty_object
      else
        let cleaned := substring_from cleaned start in
        postprocess (repair (scan true cleaned 0 (scan_init cleaned)))
  end.

(** [getRequiredKeyframeCount] (lines 132-144). *)
Definition table : list (jsstring * list (jsstring * Z)) :=
  let row (a b c : Z) :=
    [ (str "concise", a); (str "standard", b); (str "detailed", c) ] in
  [ (str "30_seconds", row 4 5 6);
    (str "1_minute", row 6 8 10);
    (str "3_minutes", row 10 14 18);
    (str "5_minutes", row 14 20 26);
    (str "8_minutes", row 18 26 34);
    (str "10_minutes", row 20 30 40) ].

Definition getRequiredKeyframeCount (duration density : jsstring) : Z :=
  let dKey := replace_all m_ws_plus 0 (toLowerCase duration) in
  let denKey := toLowerCase density in
  match lookup dKey table with
  | Some row =>
      match lookup denKey row with
      | Some n => if n =? 0 then 8 else n
      | None => 8
      end
  | None => 8
  end.

(** The message that [handleApiError] classifies (lines 29-39); as in the
    other file. *)
Definition error_msg (m : jsstring) : jsstring :=
  if startsWith m [c_lbrace] then
    match JSON.parse m with
    | Some parsed =>
        match get_opt (get_opt (Some parsed) "error") "message" with
        | Some x =>
            if truthy x then
              match x with
              | JStr t => toLowerCase t
              | _ => toLowerCase m
              end
            else toLowerCase m
        | None => toLowerCase m
        end
    | None => toLowerCase m
    end
  else toLowerCase m.

Definition any_includes (msg : jsstring) (ps : list string) : bool :=
  existsb (fun p => includes msg (str p)) ps.

Definition failure_message (task : string) (msg : jsstring) : jsstring :=
  (str "Engine Failure [" ++ str task ++ str "]: "
     ++ match msg with [] => str "Unknown failure" | _ => msg end)%list.

(** [handleApiError] (lines 26-50): the message of the error it throws. *)
Definition handleApiError (m : jsstring) (task : string) : jsstring :=
  let msg := error_msg m in
  if any_includes msg ["429"; "quota"; "limit"; "resource_exhausted"]%string
  then str "QUOTA EXHAUSTED: Your API key has reached its limit. Wait 60s or switch to a paid key."
  else if any_includes msg
            ["401"; "403"; "api key not valid"; "invalid api key"]%string
  then str "API Key not valid. Please check your configuration."
  else failure_message task msg.

Definition structural_failure : jsstring :=
  str "JSON_STRUCTURAL_FAILURE: Response was truncated or invalid. Please shorten script or reduce density.".

(** [xs.map(f)] for an [f] that may throw. *)
Fixpoint mapM {A B : Type} (f : A -> result B) (l : list A)
  : result (list B) :=
  match l with
  | [] => Ok []
  | a :: r => b <- f a ;; bs <- mapM f r ;; Ok (b :: bs)
  end.

(** [(p: any) => p.label || "Scene"]. *)
Definition label_title (p : value) : result jsval :=
  l <- get (Some p) "label" ;; Ok (Some (or_else l (JStr (str "Scene")))).

(** Lines 304-320: the package built from the parsed completion.
    [slice(0, keyframeTotal)] keeps the first [keyframeTotal] entries. *)
Definition normalize (data : value) (input : UserInput)
           (keyframeTotal : Z) (stylePreset : StylePreset)
  : result ProductionPackage :=
  vp <- get (Some data) "visualPrompts" ;;
  let validPrompts :=
    firstn (Z.to_nat keyframeTotal)
           (match vp with Some (JArr l) => l | _ => [] end) in
  md1 <- get (Some data) "metadata" ;;
  md2 <- get (Some data) "metadata" ;;
  seo_ <- get (Some data) "seo" ;;
  story_ <- get (Some data) "story" ;;
  kpt <- get (Some data) "keyframe_plan_titles" ;;
  titles_ <-
    (if truthy_val kpt then Ok (inl (or_else kpt JNull))
     else
       labels <- mapM label_title validPrompts ;;
       Ok (inr labels)) ;;
  Ok (mkPackage
        (mkMetadata
           (or_else (get_opt md1 "topic") (JStr (firstn 30 (script input))))
           (or_else (get_opt md2 "mood") (JStr (str "Cinematic")))
           (visualStyle input) (aspectRatio input) (videoDuration input))
        (or_else seo_ default_seo)
        (or_else story_ (JStr (script input)))
        titles_
        validPrompts
        []
        [] [] [] (recommended_vst stylePreset)).

Definition no_key : jsstring :=
  str "API Key not found. Ensure environment is configured with a valid Gemini API Key.".

Definition is_quota (m : jsstring) : bool :=
  any_includes m ["429"; "QUOTA"; "RESOURCE_EXHAUSTED"]%string.

(** [generateMoviePackage(input, retryCount)] (lines 231-328).  The
    function calls itself, with [retryCount + 1], after a parse failure
    when [retryCount < 1] and after a quota error when [retryCount < 5]
    (the wait of [delayWithJitter] is left out); [fuel] bounds these calls
    and [None] is its exhaustion.  A promise returned from inside [try]
    without [await] is not under the [catch], so what a nested call throws
    is thrown as it is. *)
Fixpoint generateMoviePackage_fuel (fuel : nat) (w : world)
         (input : UserInput) (retryCount : nat)
  : option (result ProductionPackage) :=
  match fuel with
  | O => None
  | S f =>
      if negb (has_key w) then Some (Throw no_key)
      else
        let keyframeTotal :=
          getRequiredKeyframeCount (videoDuration input) (sceneDensity input) in
        let stylePreset := resolveStyle (visualStyle input) in
        let catch (m : jsstring) :=
          if is_quota m && (retryCount <? 5)%nat
          then generateMoviePackage_fuel f w input (S retryCount)
          else Some (Throw (handleApiError m "GENERATE_PACKAGE")) in
        match generateContent w retryCount with
        | Rejected m => catch m
        | Text text =>
            let rawJson := cleanJsonString text in
            match JSON.parse rawJson with
            | None =>
                if (retryCount <? 1)%nat
                then generateMoviePackage_fuel f w input (S retryCount)
                else catch structural_failure
            | Some data =>
                match normalize data input keyframeTotal stylePreset with
                | Ok pkg => Some (Ok pkg)
                | Throw m => catch m
                end
            end
        end
  end.

(** No call is made with [retryCount] above 5 once one is made at or below
    it, so [6 - retryCount] calls are enough. *)
Definition generateMoviePackage (w : world) (input : UserInput)
           (retryCount : nat) : option (result ProductionPackage) :=
  generateMoviePackage_fuel (S (5 - retryCount)) w input retryCount.

End GeminiServiceV31.


(* ================================================================== *)
(** ** The specification's wording and auxiliary definitions *)
(* ================================================================== *)

Module Spec.

Import JS JSON Repair Runtime.
Local Open Scope Z_scope.

(** The lookup as the specification words it: both labels are put in
    lower case and have their white space replaced by underscores, then the
    table of part_008 is consulted, with 8 for whatever it does not hold. *)
Definition spec_normalize (label : jsstring) : jsstring :=
  replace_all m_ws_plus 0 (toLowerCase label).

Definition spec_requiredKeyframeCount (durationLabel densityLabel : jsstring)
  : Z :=
  match lookup (spec_normalize durationLabel) GeminiServiceV31.table with
  | Some row =>
      match lookup (spec_normalize densityLabel) row with
      | Some n => n
      | None => 8
      end
  | None => 8
  end.

Definition has_ws (s : jsstring) : bool := existsb isWhiteSpace s.


(** A key is plain when it holds neither white space nor an underscore. *)
Definition plain (k : jsstring) : bool :=
  negb (has_ws k) && negb (existsb (N.eqb c_underscore) k).

(** [Array.isArray(data.visualPrompts) ? data.visualPrompts : []]. *)
Definition prompts_of (data : value) : list value :=
  match get_opt (Some data) "visualPrompts" with
  | Some (JArr l) => l
  | _ => []
  end.

Definition is_null (v : value) : bool :=
  match v with JNull => true | _ => false end.

(** The titles that part_008 derives from the prompts. *)
Definition label_or_scene (p : value) : jsval :=
  Some (or_else (get_opt (Some p) "label") (JStr (str "Scene"))).

(** The package of src/services/geminiService.ts, for an object. *)
Definition gs_package (l : list (jsstring * value)) (input : UserInput)
           (styleData : StylePreset) : ProductionPackage :=
  let data := JObj l in
  let validPrompts := filter GeminiService.valid_prompt (prompts_of data) in
  let md := get_opt (Some data) "metadata" in
  mkPackage
    (mkMetadata
       (or_else (get_opt md "topic") (JStr (firstn 30 (script input))))
       (or_else (get_opt md "mood") (JStr (str "Cinematic")))
       (visualStyle input) (aspectRatio input) (videoDuration input))
    (or_else (get_opt (Some data) "seo") default_seo)
    (or_else (get_opt (Some data) "story") (JStr (script input)))
    (if truthy_val (get_opt (Some data) "keyframe_plan_titles")
     then inl (or_else (get_opt (Some data) "keyframe_plan_titles") JNull)
     else inr (map (fun p => get_opt (Some p) "label") validPrompts))
    validPrompts [] [] [] [] (recommended_vst styleData).

(** The package of part_008, for an object, when it is returned. *)
Definition v31_package (l : list (jsstring * value)) (input : UserInput)
           (keyframeTotal : Z) (stylePreset : StylePreset)
  : ProductionPackage :=
  let data := JObj l in
  let validPrompts := firstn (Z.to_nat keyframeTotal) (prompts_of data) in
  let md := get_opt (Some data) "metadata" in
  mkPackage
    (mkMetadata
       (or_else (get_opt md "topic") (JStr (firstn 30 (script input))))
       (or_else (get_opt md "mood") (JStr (str "Cinematic")))
       (visualStyle input) (aspectRatio input) (videoDuration input))
    (or_else (get_opt (Some data) "seo") default_seo)
    (or_else (get_opt (Some data) "story") (JStr (script input)))
    (if truthy_val (get_opt (Some data) "keyframe_plan_titles")
     then inl (or_else (get_opt (Some data) "keyframe_plan_titles") JNull)
     else inr (map label_or_scene validPrompts))
    validPrompts [] [] [] [] (recommended_vst stylePreset).

(** part_008 throws exactly when no titles came and one of the prompts it
    keeps is [null]. *)
Definition v31_throws (l : list (jsstring * value)) (keyframeTotal : Z)
  : bool :=
  negb (truthy_val (get_opt (Some (JObj l)) "keyframe_plan_titles"))
  && existsb is_null (firstn (Z.to_nat keyframeTotal) (prompts_of (JObj l))).

(** Twelve prompts, labelled A to L. *)
Definition twelve_prompts : list value :=
  map (fun n => JObj [(str "label", JStr [N.of_nat (65 + n)])]) (seq 0 12).

Definition sample_input : UserInput :=
  mkUserInput (str "A lighthouse keeper finds a map in a bottle.")
              (str "Cyberpunk") (str "Standard") (str "16:9") []
              (str "1 Minute") [].

(** The fields of a package that repeat the request. *)
Definition request_fields (input : UserInput) (pkg : ProductionPackage)
  : Prop :=
  md_visualStyle (metadata pkg) = visualStyle input
  /\ md_aspectRatio (metadata pkg) = aspectRatio input
  /\ duration (metadata pkg) = videoDuration input
  /\ cst pkg = [] /\ bst pkg = [] /\ gst pkg = []
  /\ vst pkg = recommended_vst (resolveStyle (visualStyle input)).

(** A service, with a key, that gives one answer to every call. *)
Definition constant_world (text : jsstring) : world :=
  mkWorld (Some (str "key")) (fun _ => Text (Some text)).

(** What src/services/geminiService.ts does with the outcome of the body
    of its [try]. *)
Definition gs_finish (r : result ProductionPackage)
  : list jsstring * result ProductionPackage :=
  match r with
  | Ok pkg => ([], Ok pkg)
  | Throw m =>
      let '(ev, e) := GeminiService.handleApiError m "GENERATE_PACKAGE" in
      (ev, Throw e)
  end.

(** A package that a run returns, in either file. *)
Definition returned (w : world) (input : UserInput) (pkg : ProductionPackage)
  : Prop :=
  (exists ev, GeminiService.generateMoviePackage w input = (ev, Ok pkg))
  \/ (exists rc,
         GeminiServiceV31.generateMoviePackage w input rc = Some (Ok pkg)).

End Spec.

(* ================================================================== *)
(** ** The tokens of a well-formed text *)
(* ================================================================== *)

(** The vocabulary in which the behaviour of [cleanJsonString] on texts
    that [JSON.parse] accepts is stated and proved: which values the
    replacements cannot touch, the lexer as a relation, and what the
    replacements and the number lexer look at. *)

Module Tokens.

Import JS JSON Repair Runtime.
Local Open Scope N_scope.

(** Whether a matcher finds nothing. *)
Definition is_none {A : Type} (o : option A) : bool :=
  match o with None => true | Some _ => false end.

(** [P] holds at every index of [s], that is, of every non-empty suffix. *)
Fixpoint all_suffixes (P : jsstring -> bool) (s : jsstring) : bool :=
  match s with
  | [] => true
  | _ :: r => P s && all_suffixes P r
  end.

(** A string whose literal, quotes included, gives the last two replacements
    of [cleanJsonString] nothing to match: no comma followed by white space
    and a closing bracket or brace, and no quote, colon, quote. *)
Definition untouched (x : jsstring) : bool :=
  all_suffixes (fun s => is_none (m_comma_closer s)
                         && is_none (m_quote_colon_quote s))
               (c_quote :: x ++ [c_quote]).

(** A value all of whose strings, keys included, are [untouched]. *)
Fixpoint inert (v : value) : bool :=
  match v with
  | JStr s => untouched s
  | JArr l => forallb inert l
  | JObj l =>
      (fix members (l : list (jsstring * value)) : bool :=
         match l with
         | [] => true
         | (k, x) :: r => untouched k && inert x && members r
         end) l
  | _ => true
  end.

(** The value is an object; an object or an array. *)
Definition is_object (v : value) : bool :=
  match v with JObj _ => true | _ => false end.

Definition is_container (v : value) : bool :=
  match v with JObj _ | JArr _ => true | _ => false end.

(** *** The lexer as a relation

    The six structural characters and the three literal names, as
    [tokenize_fuel] reads them. *)
Definition punct (c : char) : option token :=
  if c =? c_lbrace then Some TLBrace
  else if c =? c_rbrace then Some TRBrace
  else if c =? c_lbracket then Some TLBracket
  else if c =? c_rbracket then Some TRBracket
  else if c =? c_comma then Some TComma
  else if c =? c_colon then Some TColon
  else None.

Definition keyword (s : jsstring) : option (token * jsstring) :=
  if startsWith s (str "true") then Some (TTrue, skipn 4 s)
  else if startsWith s (str "false") then Some (TFalse, skipn 5 s)
  else if startsWith s (str "null") then Some (TNull, skipn 4 s)
  else None.

(** [Lex s ts]: the text [s] lexes to the tokens [ts]. *)
Inductive Lex : jsstring -> list token -> Prop :=
| Lex_nil : Lex [] []
| Lex_ws c r ts : is_json_ws c = true -> Lex r ts -> Lex (c :: r) ts
| Lex_punct c r t ts :
    punct c = Some t -> Lex r ts -> Lex (c :: r) (t :: ts)
| Lex_str r x r' ts :
    lex_string r = Some (x, r') -> Lex r' ts ->
    Lex (c_quote :: r) (TStr x :: ts)
| Lex_num c r n r' ts :
    (c =? 45) || is_digit c = true ->
    lex_number (c :: r) = Some (n, r') -> Lex r' ts ->
    Lex (c :: r) (TNum n :: ts)
| Lex_kw c r t r' ts :
    is_json_ws c = false -> punct c = None -> c <> c_quote ->
    (c =? 45) || is_digit c = false ->
    keyword (c :: r) = Some (t, r') -> Lex r' ts ->
    Lex (c :: r) (t :: ts).

(** The text between the quotes of a string literal, and what it decodes
    to. *)
Inductive Raw : jsstring -> jsstring -> Prop :=
| Raw_nil : Raw [] []
| Raw_lit c raw x :
    c <> c_quote -> c <> c_backslash -> (c <? 32) = false ->
    Raw raw x -> Raw (c :: raw) (c :: x)
| Raw_esc e d raw x :
    simple_escape e = Some d ->
    Raw raw x -> Raw (c_backslash :: e :: raw) (d :: x)
| Raw_uni h1 h2 h3 h4 a b c d raw x :
    hex_val h1 = Some a -> hex_val h2 = Some b ->
    hex_val h3 = Some c -> hex_val h4 = Some d ->
    Raw raw x ->
    Raw (c_backslash :: 117 :: h1 :: h2 :: h3 :: h4 :: raw)
        ((((a * 16 + b) * 16 + c) * 16 + d) :: x).

(** A character at which the number lexer stops whatever it has read. *)
Definition num_stop (s : jsstring) : bool :=
  match s with
  | [] => true
  | c :: _ => negb (is_digit c || (c =? 46) || (c =? 101) || (c =? 69))
  end.

(** Two continuations that a number lexer cannot tell apart. *)
Definition agree (r2 r : jsstring) : Prop :=
  hd_error r2 = hd_error r \/ num_stop r2 = true.

(** The characters a number literal is made of. *)
Definition word_char (c : char) : bool :=
  is_digit c || (c =? 45) || (c =? 43) || (c =? 46) || (c =? 101)
  || (c =? 69).

(** A text that does not begin with a digit. *)
Definition no_digit_head (s : jsstring) : Prop :=
  match s with [] => True | c :: _ => is_digit c = false end.

(** Characters that mean nothing to the scan and to the replacements. *)
Definition plain_char (c : char) : bool :=
  negb (isWhiteSpace c || (c =? c_quote) || (c =? c_backslash)
        || (c =? c_lbrace) || (c =? c_rbrace) || (c =? c_lbracket)
        || (c =? c_rbracket) || (c =? c_comma) || (c =? c_colon)).

(** The head of a token's text. *)
Definition tok_head (t : token) (c : char) : bool :=
  match t with
  | TLBrace => c =? c_lbrace
  | TRBrace => c =? c_rbrace
  | TLBracket => c =? c_lbracket
  | TRBracket => c =? c_rbracket
  | TComma => c =? c_comma
  | TColon => c =? c_colon
  | TStr _ => c =? c_quote
  | TNum _ => (c =? 45) || is_digit c
  | TTrue => c =? 116
  | TFalse => c =? 102
  | TNull => c =? 110
  end.

(** A matcher that can only match at the character [x]. *)
Definition triggered (m : jsstring -> option (nat * jsstring)) (x : char)
  : Prop :=
  forall c r, c <> x -> m (c :: r) = None.

(** The passes that turn line feeds and carriage returns into spaces. *)
Definition R_char (x : char) : jsstring -> jsstring :=
  replace_all (m_char x [c_space]) 0.

(** A closing bracket or brace. *)
Definition is_closer (t : token) : bool :=
  match t with TRBrace | TRBracket => true | _ => false end.

(** No comma stands right before a closing token. *)
Fixpoint cc_ok (ts : list token) : bool :=
  match ts with
  | [] => true
  | t :: r =>
      match t, r with
      | TComma, t' :: _ => negb (is_closer t')
      | _, _ => true
      end && cc_ok r
  end.

(** Every string among the tokens is [untouched]. *)
Definition strs_ok (ts : list token) : bool :=
  forallb (fun t => match t with TStr x => untouched x | _ => true end) ts.

(** The two conditions of [untouched], one by one. *)
Definition Pcc (s : jsstring) : bool := is_none (m_comma_closer s).
Definition Pq (s : jsstring) : bool := is_none (m_quote_colon_quote s).

(** The pass that tightens quote, colon, quote. *)
Definition Rq : jsstring -> jsstring := replace_all m_quote_colon_quote 0.

End Tokens.

(** The counters of the scanning loop read off the tokens, and the shape of
    the tokens of a value. *)

Module Shape.

Import JS JSON Repair Runtime Tokens.
Local Open Scope Z_scope.

(** The counters of the scan, token by token. *)
Definition tstep (t : token) (bk : Z * Z) : Z * Z :=
  let '(b, k) := bk in
  match t with
  | TLBrace => (b + 1, k)
  | TRBrace => (b - 1, k)
  | TLBracket => (b, k + 1)
  | TRBracket => (b, k - 1)
  | _ => (b, k)
  end.

(** The counters after a run of tokens. *)
Fixpoint run (ts : list token) (bk : Z * Z) : Z * Z :=
  match ts with
  | [] => bk
  | t :: r => run r (tstep t bk)
  end.

(** After each token the counters are not negative and not both zero. *)
Fixpoint inside (ts : list token) (bk : Z * Z) : bool :=
  match ts with
  | [] => true
  | t :: r =>
      let '(b, k) := tstep t bk in
      (0 <=? b) && (0 <=? k) && (1 <=? b + k) && inside r (b, k)
  end.

(** A balanced stretch of tokens: wherever it starts inside a structure, it
    stays inside and ends where it started. *)
Definition Body (p : list token) : Prop :=
  forall b k, 0 <= b -> 0 <= k -> 1 <= b + k ->
              inside p (b, k) = true /\ run p (b, k) = (b, k).

(** A token that is a value by itself. *)
Definition scalar (t : token) : bool :=
  match t with
  | TNull | TTrue | TFalse | TNum _ | TStr _ => true
  | _ => false
  end.

(** A run of tokens that does not begin with a closer. *)
Definition hd_ok (p : list token) : Prop :=
  match p with t :: _ => is_closer t = false | [] => False end.

(** The tokens of one value. *)
Definition Good (pre : list token) (v : value) : Prop :=
  ((is_container v = false /\ exists t, pre = [t] /\ scalar t = true)
   \/ (exists mid, Body mid
         /\ ((pre = TLBrace :: mid ++ [TRBrace] /\ is_object v = true)
             \/ (pre = TLBracket :: mid ++ [TRBracket]
                 /\ is_object v = false /\ is_container v = true))))
  /\ (forall a, cc_ok (pre ++ [a]) = true)
  /\ (inert v = true -> strs_ok pre = true).

(** What [parse_value], [parse_elements] and [parse_members] promise of the
    tokens they consume, for a given fuel. *)
Definition PV (n : nat) : Prop :=
  forall ts v rest, parse_value n ts = Some (v, rest) ->
    exists pre, ts = (pre ++ rest)%list /\ Good pre v.

Definition PE (n : nat) : Prop :=
  forall ts vs rest, parse_elements n ts = Some (vs, rest) ->
    exists body, ts = (body ++ TRBracket :: rest)%list /\ Body body
      /\ hd_ok body /\ cc_ok (body ++ [TRBracket]) = true
      /\ (forallb inert vs = true -> strs_ok body = true).

Definition PM (n : nat) : Prop :=
  forall ts ms rest, parse_members n ts = Some (ms, rest) ->
    exists body, ts = (body ++ TRBrace :: rest)%list /\ Body body
      /\ hd_ok body /\ cc_ok (body ++ [TRBrace]) = true
      /\ (inert (JObj ms) = true -> strs_ok body = true).

(** The state of the loop outside a string. *)
Definition out_state (b k lsp : Z) (f : bool) (C : jsstring) : scan_state :=
  mkScan b k false false lsp f C.

(** Counters inside the root: none negative, not both zero. *)
Definition is_inside (b k : Z) : Prop := 0 <= b /\ 0 <= k /\ 1 <= b + k.

(** A character that moves no counter, ends no string and marks no safe
    point. *)
Definition idle_char (c : char) : bool :=
  negb ((c =? c_quote) || (c =? c_backslash) || (c =? c_lbrace)
        || (c =? c_rbrace) || (c =? c_lbracket) || (c =? c_rbracket)
        || (c =? c_comma))%N.

(** The two kinds of root: the opener, the closer and their characters. *)
Definition root_kind (c0 c2 : char) (topen tclose : token) : Prop :=
  (c0 = c_lbrace /\ c2 = c_rbrace /\ topen = TLBrace /\ tclose = TRBrace)
  \/ (c0 = c_lbracket /\ c2 = c_rbracket
      /\ topen = TLBracket /\ tclose = TRBracket).

End Shape.

(* ================================================================== *)
(** ** The report of a quota error *)
(* ================================================================== *)

Module Reports.

Import JS.

(** The message that [handleApiError] throws for a quota error, the same in
    both files (line 37 of src/services/geminiService.ts, line 42 of
    part_008). *)
Definition quota_message : jsstring :=
  str "QUOTA EXHAUSTED: Your API key has reached its limit. Wait 60s or switch to a paid key.".

End Reports.

(* ================================================================== *)
(** ** The options of the input form (src/components/InputForm.tsx) *)
(* ================================================================== *)

Module InputForm.

Import JS Runtime.

(** [visualStyles] (lines 26-49), category by category. *)
Definition visualStyles : list (jsstring * list jsstring) :=
  [ (str "STICKMAN SERIES",
     [ (str "Stickman " ++ dash ++ str " 2D Classic")%list;
       (str "Stickman " ++ dash ++ str " Blueprint")%list;
       (str "Stickman " ++ dash ++ str " Chalkboard")%list;
       (str "Stickman " ++ dash ++ str " 3D Render")%list ]);
    (str "ANIMATION STYLE",
     [ str "Clay Animation"; str "Studio Ghibli"; str "Retro Anime";
       str "Pixar Style"; str "Stop-motion Animation";
       str "Cutout Animation"; str "3D CGI Animation" ]);
    (str "REALISTIC & CINEMATIC",
     [ str "Cinematic 8K"; str "Documentary"; str "Cyberpunk";
       str "Film Noir"; str "Low-Key Thriller" ]) ].

(** The options of the style menu (line 163): every style of every
    category. *)
Definition styleOptions : list jsstring :=
  List.concat (map snd visualStyles).

(** [durations] (lines 51-58). *)
Definition durations : list jsstring :=
  [ str "30 Seconds"; str "1 Minute"; str "3 Minutes"; str "5 Minutes";
    str "8 Minutes"; str "10 Minutes" ].

(** The densities of line 177. *)
Definition densities : list jsstring :=
  [ str "Concise"; str "Standard"; str "Detailed" ].

End InputForm.

(* ================================================================== *)
(** ** The other calls of the two service files *)
(* ================================================================== *)

(** What the calls share.  Each makes one request; [generateContent w 0] is
    the answer to it.  What is sent (the prompt, the model) only travels to
    the service and is left out, and so are the arguments that only go into
    it. *)

Module Calls.

Import JS JSON Repair Runtime.
Local Open Scope N_scope.

(** [response.text?.trim() || fallback]. *)
Definition trimmed_or (text : option jsstring) (fallback : jsstring)
  : jsstring :=
  match text with
  | Some t =>
      match trim t with
      | [] => fallback
      | c :: r => c :: r
      end
  | None => fallback
  end.

(** The message of the [SyntaxError] that [JSON.parse] throws differs from
    one engine to the next: [syntaxError s] is the message for the text
    [s]. *)
Definition engine := jsstring -> jsstring.

(** [Array.isArray]. *)
Definition is_array (v : value) : bool :=
  match v with JArr _ => true | _ => false end.

(** *** [Object.values] on a parsed object

    [JSON.parse] defines the members in the order of the text, a repeated
    key keeping its first place and taking the last value; the values then
    come with the array indices first, in ascending order, and the other
    keys after them in the order of their creation. *)

(** The number a key denotes when it is an array index: a canonical decimal
    numeral below [2^32 - 1]. *)
Fixpoint digits_value (s : jsstring) (acc : N) : option N :=
  match s with
  | [] => Some acc
  | c :: r =>
      if (48 <=? c) && (c <=? 57) then digits_value r (acc * 10 + (c - 48))
      else None
  end.

Definition array_index (k : jsstring) : option N :=
  match k with
  | [] => None
  | [48] => Some 0
  | 48 :: _ => None
  | _ =>
      match digits_value k 0 with
      | Some n => if n <? 4294967295 then Some n else None
      | None => None
      end
  end.

(** [CreateDataProperty], member after member. *)
Fixpoint define (k : jsstring) (v : value) (o : list (jsstring * value))
  : list (jsstring * value) :=
  match o with
  | [] => [(k, v)]
  | (k', v') :: r => if eqs k k' then (k', v) :: r else (k', v') :: define k v r
  end.

Definition own_properties (l : list (jsstring * value))
  : list (jsstring * value) :=
  fold_left (fun o kv => define (fst kv) (snd kv) o) l [].

Fixpoint insert_index (n : N) (v : value) (l : list (N * value))
  : list (N * value) :=
  match l with
  | [] => [(n, v)]
  | (m, w) :: r => if n <? m then (n, v) :: (m, w) :: r
                   else (m, w) :: insert_index n v r
  end.

Definition Object_values (l : list (jsstring * value)) : list value :=
  let props := own_properties l in
  let indexed :=
    fold_right (fun kv acc =>
                  match array_index (fst kv) with
                  | Some n => insert_index n (snd kv) acc
                  | None => acc
                  end) [] props in
  let named :=
    filter (fun kv => match array_index (fst kv) with
                      | Some _ => false
                      | None => true
                      end) props in
  (map snd indexed ++ map snd named)%list.

End Calls.

Module GeminiServiceCalls.

Import JS JSON Repair Runtime Calls.

(** [enhanceVisualPrompt] (lines 343-358) and [enhanceVideoPrompt] (lines
    360-375): the client is made outside the [try]; inside it every error
    gives the prompt back. *)
Definition enhanceVisualPrompt (w : world) (prompt stylePreset aspectRatio : jsstring)
  : result jsstring :=
  if negb (has_key w) then Throw GeminiService.no_key
  else
    match generateContent w 0 with
    | Text text => Ok (trimmed_or text prompt)
    | Rejected _ => Ok prompt
    end.

Definition enhanceVideoPrompt (w : world)
           (videoPrompt visualPrompt stylePreset aspectRatio : jsstring)
  : result jsstring :=
  if negb (has_key w) then Throw GeminiService.no_key
  else
    match generateContent w 0 with
    | Text text => Ok (trimmed_or text videoPrompt)
    | Rejected _ => Ok videoPrompt
    end.

Definition default_cues : value :=
  JObj [ (str "primary", JStr (str "Cinematic ambience"));
         (str "secondary", JStr (str "Atmospheric")) ].

(** [generateSfxCues] (lines 377-389). *)
Definition generateSfxCues (w : world) (mood title : jsstring) : result value :=
  if negb (has_key w) then Throw GeminiService.no_key
  else
    match generateContent w 0 with
    | Text text =>
        match JSON.parse (GeminiService.cleanJsonString text) with
        | Some v => Ok v
        | None => Ok default_cues
        end
    | Rejected _ => Ok default_cues
    end.

(** [return JSON.parse(cleanJsonString(response.text))] under a [catch]
    that hands the error to [handleApiError]: the body of
    [extractContinuityTokensFromImage] (lines 303-327),
    [refinePackagePrompts] (lines 329-341) and [generateViralScript] (lines
    412-425). *)
Definition json_call (syntaxError : engine) (w : world) (task : string)
  : list jsstring * result value :=
  if negb (has_key w) then ([], Throw GeminiService.no_key)
  else
    let body :=
      match generateContent w 0 with
      | Rejected m => Throw m
      | Text text =>
          let rawJson := GeminiService.cleanJsonString text in
          match JSON.parse rawJson with
          | Some v => Ok v
          | None => Throw (syntaxError rawJson)
          end
      end in
    match body with
    | Ok v => ([], Ok v)
    | Throw m =>
        let '(ev, e) := GeminiService.handleApiError m task in (ev, Throw e)
    end.

Definition extractContinuityTokensFromImage (syntaxError : engine) (w : world)
           (base64Data mimeType prompt : jsstring) :=
  json_call syntaxError w "EXTRACT_TOKENS".

Definition refinePackagePrompts (syntaxError : engine) (w : world)
           (pkg : ProductionPackage) (tokens : jsstring * jsstring * jsstring * jsstring) :=
  json_call syntaxError w "REFINE_PROMPTS".

Definition generateViralScript (syntaxError : engine) (w : world) :=
  json_call syntaxError w "GENERATE_VIRAL_SCRIPT".

End GeminiServiceCalls.

Module GeminiServiceV31Calls.

Import JS JSON Repair Runtime Calls.

(** [enhanceVisualPrompt] (lines 451-459) and [enhanceVideoPrompt] (lines
    461-478). *)
Definition enhanceVisualPrompt (w : world) (prompt stylePreset aspectRatio : jsstring)
  : result jsstring :=
  if negb (has_key w) then Throw GeminiServiceV31.no_key
  else
    match generateContent w 0 with
    | Text text => Ok (trimmed_or text prompt)
    | Rejected _ => Ok prompt
    end.

Definition enhanceVideoPrompt (w : world)
           (videoPrompt visualPrompt stylePreset aspectRatio : jsstring)
  : result jsstring :=
  if negb (has_key w) then Throw GeminiServiceV31.no_key
  else
    match generateContent w 0 with
    | Text text => Ok (trimmed_or text videoPrompt)
    | Rejected _ => Ok videoPrompt
    end.


Definition default_cues : value :=
  JObj [ (str "primary", JStr (str "Ambient soundscape"));
         (str "secondary", JStr (str "Atmospheric")) ].

(** [generateSfxCues] (lines 480-492). *)
Definition generateSfxCues (w : world) (mood title : jsstring) : result value :=
  if negb (has_key w) then Throw GeminiServiceV31.no_key
  else
    match generateContent w 0 with
    | Text text =>
        match JSON.parse (GeminiServiceV31.cleanJsonString text) with
        | Some v => Ok v
        | None => Ok default_cues
        end
    | Rejected _ => Ok default_cues
    end.

(** The shared body of [extractContinuityTokensFromImage] (lines 400-429)
    and [generateViralScript] (lines 520-533). *)
Definition json_call (syntaxError : engine) (w : world) (task : string)
  : result value :=
  if negb (has_key w) then Throw GeminiServiceV31.no_key
  else
    let body :=
      match generateContent w 0 with
      | Rejected m => Throw m
      | Text text =>
          let rawJson := GeminiServiceV31.cleanJsonString text in
          match JSON.parse rawJson with
          | Some v => Ok v
          | None => Throw (syntaxError rawJson)
          end
      end in
    match body with
    | Ok v => Ok v
    | Throw m => Throw (GeminiServiceV31.handleApiError m task)
    end.

Definition extractContinuityTokensFromImage (syntaxError : engine) (w : world)
           (base64Data mimeType prompt : jsstring) :=
  json_call syntaxError w "EXTRACT_TOKENS".

Definition generateViralScript (syntaxError : engine) (w : world) :=
  json_call syntaxError w "GENERATE_VIRAL_SCRIPT".

(** Lines 443-445: an array as it is, else its [visualPrompts] or the empty
    array; what is then no array and has [typeof] ['object'] gives way to
    its values, and [Object.values(null)] throws. *)
Definition results_of (raw : value) : result value :=
  results <-
    (if is_array raw then Ok raw
     else
       vp <- get (Some raw) "visualPrompts" ;;
       Ok (or_else vp (JArr []))) ;;
  match results with
  | JObj l => Ok (JArr (Object_values l))
  | JNull => Throw (str "Cannot convert undefined or null to object")
  | _ => Ok results
  end.

(** [refinePackagePrompts] (lines 431-449). *)
Definition refinePackagePrompts (syntaxError : engine) (w : world)
           (pkg : ProductionPackage) (tokens : jsstring * jsstring * jsstring * jsstring)
  : result value :=
  if negb (has_key w) then Throw GeminiServiceV31.no_key
  else
    let body :=
      match generateContent w 0 with
      | Rejected m => Throw m
      | Text text =>
          let rawJson := GeminiServiceV31.cleanJsonString text in
          match JSON.parse rawJson with
          | Some raw => results_of raw
          | None => Throw (syntaxError rawJson)
          end
      end in
    match body with
    | Ok v => Ok v
    | Throw m => Throw (GeminiServiceV31.handleApiError m "REFINE_PROMPTS")
    end.

End GeminiServiceV31Calls.

(* ================================================================== *)
(** ** [generateImage] and the data URLs it makes and reads *)
(* ================================================================== *)

Module Image.

Import JS JSON Repair Runtime.
Local Open Scope N_scope.

Definition c_semicolon : char := 59.

(** The text before the first [c], and the text after it when there is
    one. *)
Fixpoint before (c : char) (s : jsstring) : jsstring :=
  match s with
  | [] => []
  | x :: r => if x =? c then [] else x :: before c r
  end.

Fixpoint after (c : char) (s : jsstring) : option jsstring :=
  match s with
  | [] => None
  | x :: r => if x =? c then Some r else after c r
  end.

(** [const [header, data] = s.split(',')]: the first two pieces; [data] is
    [undefined] when [s] holds no comma. *)
Definition split_header_data (s : jsstring) : jsstring * option jsstring :=
  (before c_comma s, option_map (before c_comma) (after c_comma s)).

(** What the dot of a pattern without the [s] flag does not match. *)
Definition isLineTerminator (c : char) : bool :=
  (c =? 10) || (c =? 13) || (c =? 8232) || (c =? 8233).

(** The lazy [(.*?);] from a given place: the capture, when a semicolon
    comes before any line terminator. *)
Fixpoint upto_semicolon (s : jsstring) : option jsstring :=
  match s with
  | [] => None
  | x :: r =>
      if x =? c_semicolon then Some []
      else if isLineTerminator x then None
      else option_map (cons x) (upto_semicolon r)
  end.

(** [header.match(/:(.*?);/)?.[1]]: the capture of the leftmost match. *)
Fixpoint match_mime (s : jsstring) : option jsstring :=
  match s with
  | [] => None
  | x :: r =>
      if x =? c_colon then
        match upto_semicolon r with
        | Some cap => Some cap
        | None => match_mime r
        end
      else match_mime r
  end.

(** [a || b] on strings, [None] being [undefined]. *)
Definition or_string (a : option jsstring) (b : jsstring) : jsstring :=
  match a with
  | Some (x :: r) => x :: r
  | _ => b
  end.

(** [header.match(/:(.*?);/)?.[1] || 'image/png']. *)
Definition mimeType_of (header : jsstring) : jsstring :=
  or_string (match_mime header) (str "image/png").

(** The [inlineData] of a part: the two strings, [None] where the service
    left one out. *)
Record inlineData := mkInline {
  data : option jsstring;
  mimeType : option jsstring
}.

(** Lines 283-286 of src/services/geminiService.ts (376-379 of part_008):
    the part pushed for a reference image. *)
Definition ref_part (refImage : jsstring) : inlineData :=
  let '(header, data_) := split_header_data refImage in
  mkInline (Some (or_string data_ refImage)) (Some (mimeType_of header)).

(** Lines 82-85 of part_005, [handleExtract]: what it hands to
    [extractContinuityTokensFromImage]. *)
Definition handleExtract_args (uploadedImage : jsstring)
  : option jsstring * jsstring :=
  let '(header, base64Data) := split_header_data uploadedImage in
  (base64Data, mimeType_of header).

(** A value in a template literal. *)
Definition interpolate (o : option jsstring) : jsstring :=
  match o with
  | Some s => s
  | None => str "undefined"
  end.

(** [`data:${part.inlineData.mimeType};base64,${part.inlineData.data}`]. *)
Definition image_url (d : inlineData) : jsstring :=
  (str "data:" ++ interpolate (mimeType d) ++ str ";base64,"
     ++ interpolate (data d))%list.

(** What is sent: the reference part, when there is a reference image, and
    the text part. *)
Record image_request := mkRequest {
  req_model : jsstring;
  req_ref : option inlineData;
  req_text : jsstring;
  req_aspectRatio : jsstring
}.

(** What the service does with a request for an image: it answers with the
    parts of its first candidate (none when there is no candidate), where a
    part may carry [inlineData], or it rejects. *)
Inductive image_response :=
| Parts (parts : list (option inlineData))
| ImageRejected (message : jsstring).

Record image_world := mkImageWorld {
  IMAGE_API_KEY : option jsstring;
  generateImageContent : image_request -> nat -> image_response
}.

Definition image_has_key (w : image_world) : bool :=
  match IMAGE_API_KEY w with
  | Some (_ :: _) => true
  | _ => false
  end.

(** [if (refImage) {...} parts.push({ text: prompt })], with the default
    of the [model] parameter. *)
Definition request_of (prompt aspectRatio : jsstring) (model : option jsstring)
           (refImage : option jsstring) : image_request :=
  mkRequest (match model with
             | Some m => m
             | None => str "gemini-2.5-flash-image"
             end)
            (match refImage with
             | Some (x :: r) => Some (ref_part (x :: r))
             | _ => None
             end)
            prompt aspectRatio.

(** The loop over the parts: the URL of the first that carries
    [inlineData]. *)
Fixpoint first_image (parts : list (option inlineData)) : option jsstring :=
  match parts with
  | [] => None
  | Some d :: _ => Some (image_url d)
  | None :: r => first_image r
  end.

End Image.

Module GeminiServiceImage.

Import JS JSON Repair Runtime Image.

(** [generateImage] of src/services/geminiService.ts (lines 280-301): the
    events dispatched and the URL returned or the error thrown. *)
Definition generateImage (w : image_world)
           (prompt aspectRatio : jsstring) (model : option jsstring)
           (refImage : option jsstring)
  : list jsstring * result jsstring :=
  if negb (image_has_key w) then ([], Throw GeminiService.no_key)
  else
    let body :=
      match generateImageContent w
              (request_of prompt aspectRatio model refImage) 0 with
      | ImageRejected m => Throw m
      | Parts parts =>
          match first_image parts with
          | Some url => Ok url
          | None => Throw (str "No image data returned.")
          end
      end in
    match body with
    | Ok url => ([], Ok url)
    | Throw m =>
        let '(ev, e) := GeminiService.handleApiError m "GENERATE_IMAGE" in
        (ev, Throw e)
    end.

End GeminiServiceImage.

Module GeminiServiceV31Image.

Import JS JSON Repair Runtime Image.

(** [generateImage] of part_008 (lines 373-398), which calls itself after a
    quota error while [retryCount < 3]; [fuel] bounds these calls. *)
Fixpoint generateImage_fuel (fuel : nat) (w : image_world)
         (prompt aspectRatio : jsstring) (model : option jsstring)
         (refImage : option jsstring)
         (retryCount : nat) : option (result jsstring) :=
  match fuel with
  | O => None
  | S f =>
      if negb (image_has_key w) then Some (Throw GeminiServiceV31.no_key)
      else
        let catch (m : jsstring) :=
          if GeminiServiceV31.is_quota m && (retryCount <? 3)%nat
          then generateImage_fuel f w prompt aspectRatio model refImage
                                  (S retryCount)
          else Some (Throw (GeminiServiceV31.handleApiError m "GENERATE_IMAGE")) in
        match generateImageContent w
                (request_of prompt aspectRatio model refImage) retryCount with
        | ImageRejected m => catch m
        | Parts parts =>
            match first_image parts with
            | Some url => Some (Ok url)
            | None => catch (str "No image data returned from Engine.")
            end
        end
  end.

Definition generateImage (w : image_world)
           (prompt aspectRatio : jsstring) (model : option jsstring)
           (refImage : option jsstring)
           (retryCount : nat) : option (result jsstring) :=
  generateImage_fuel (S (3 - retryCount)) w prompt aspectRatio model refImage
                     retryCount.

End GeminiServiceV31Image.

(* ================================================================== *)
(** ** The WAV header: [createWavHeader] and the reader of part_003 *)
(* ================================================================== *)

Module Wav.

Import JS Runtime.
Local Open Scope Z_scope.

(** An [ArrayBuffer] seen through a [DataView]: its bytes.  [None] is the
    [RangeError] of an access outside the buffer. *)
Definition buffer := list Z.

Definition ArrayBuffer (n : nat) : buffer := repeat 0 n.

Definition is_byte (x : Z) : Prop := 0 <= x < 256.

Definition in_bounds (b : buffer) (off size : Z) : bool :=
  (0 <=? off) && (off + size <=? Z.of_nat (List.length b)).

(** The [n] low bytes of an integer, least significant first: what
    [setUint8], [setUint16] and [setUint32] store of their argument when
    [littleEndian] is [true], as it is in every call of this code. *)
Fixpoint le_bytes (n : nat) (v : Z) : list Z :=
  match n with
  | O => []
  | S k => v mod 256 :: le_bytes k (v / 256)
  end.

Fixpoint le_value (bytes : list Z) : Z :=
  match bytes with
  | [] => 0
  | x :: r => x + 256 * le_value r
  end.

Definition write (b : buffer) (off : Z) (bytes : list Z) : option buffer :=
  if in_bounds b off (Z.of_nat (List.length bytes)) then
    Some (firstn (Z.to_nat off) b ++ bytes
            ++ skipn (Z.to_nat off + List.length bytes) b)%list
  else None.

Definition read (b : buffer) (off : Z) (n : nat) : option (list Z) :=
  if in_bounds b off (Z.of_nat n) then
    Some (firstn n (skipn (Z.to_nat off) b))
  else None.

Definition setUint8 (b : buffer) (off v : Z) := write b off (le_bytes 1 v).
Definition setUint16 (b : buffer) (off v : Z) := write b off (le_bytes 2 v).
Definition setUint32 (b : buffer) (off v : Z) := write b off (le_bytes 4 v).

Definition getUint8 (b : buffer) (off : Z) := option_map le_value (read b off 1).
Definition getUint16 (b : buffer) (off : Z) := option_map le_value (read b off 2).
Definition getUint32 (b : buffer) (off : Z) := option_map le_value (read b off 4).

Definition obind {A B : Type} (o : option A) (k : A -> option B) : option B :=
  match o with
  | Some a => k a
  | None => None
  end.

(** ['R'.charCodeAt(0)]. *)
Definition charCode (s : string) : Z :=
  match str s with
  | c :: _ => Z.of_N c
  | [] => 0
  end.

(** The bytes of an ASCII tag. *)
Definition tag (s : string) : list Z := map Z.of_N (str s).

(** The arguments of [createWavHeader] are numbers.  They are taken here
    to be integers, and the sums and products of the function to be exact,
    which they are in doubles when the arguments and what is computed from
    them stay below [2^53] in magnitude: [exact_arguments].  This covers
    the one call of the code, with a byte count, 24000, 1 and 16. *)
Definition safe (z : Z) : bool := Z.abs z <? 2 ^ 53.

Definition exact_arguments (dataLength sampleRate numChannels bitsPerSample : Z)
  : bool :=
  safe dataLength && safe (36 + dataLength)
  && safe sampleRate && safe numChannels && safe bitsPerSample
  && safe (sampleRate * numChannels)
  && safe (sampleRate * numChannels * bitsPerSample)
  && safe (numChannels * bitsPerSample).

(** [createWavHeader] (src/services/geminiService.ts lines 434-447,
    part_008 lines 542-555, the same text), for [exact_arguments].
    [bitsPerSample / 8] is a true division, and the setters truncate what
    they are given toward zero before reducing it. *)
Definition createWavHeader
           (dataLength sampleRate numChannels bitsPerSample : Z)
  : option buffer :=
  let view := ArrayBuffer 44 in
  obind (setUint8 view 0 (charCode "R")) (fun view =>
  obind (setUint8 view 1 (charCode "I")) (fun view =>
  obind (setUint8 view 2 (charCode "F")) (fun view =>
  obind (setUint8 view 3 (charCode "F")) (fun view =>
  obind (setUint32 view 4 (36 + dataLength)) (fun view =>
  obind (setUint8 view 8 (charCode "W")) (fun view =>
  obind (setUint8 view 9 (charCode "A")) (fun view =>
  obind (setUint8 view 10 (charCode "V")) (fun view =>
  obind (setUint8 view 11 (charCode "E")) (fun view =>
  obind (setUint8 view 12 (charCode "f")) (fun view =>
  obind (setUint8 view 13 (charCode "m")) (fun view =>
  obind (setUint8 view 14 (charCode "t")) (fun view =>
  obind (setUint8 view 15 (charCode " ")) (fun view =>
  obind (setUint32 view 16 16) (fun view =>
  obind (setUint16 view 20 1) (fun view =>
  obind (setUint16 view 22 numChannels) (fun view =>
  obind (setUint32 view 24 sampleRate) (fun view =>
  obind (setUint32 view 28
           (Z.quot (sampleRate * numChannels * bitsPerSample) 8)) (fun view =>
  obind (setUint16 view 32 (Z.quot (numChannels * bitsPerSample) 8)) (fun view =>
  obind (setUint16 view 34 bitsPerSample) (fun view =>
  obind (setUint8 view 36 (charCode "d")) (fun view =>
  obind (setUint8 view 37 (charCode "a")) (fun view =>
  obind (setUint8 view 38 (charCode "t")) (fun view =>
  obind (setUint8 view 39 (charCode "a")) (fun view =>
  obind (setUint32 view 40 dataLength) (fun view =>
  Some view))))))))))))))))))))))))).

(** The header as its thirteen segments. *)
Definition segments (dataLength sampleRate numChannels bitsPerSample : Z)
  : list (list Z) :=
  [ tag "RIFF"; le_bytes 4 (36 + dataLength); tag "WAVE"; tag "fmt ";
    le_bytes 4 16; le_bytes 2 1; le_bytes 2 numChannels;
    le_bytes 4 sampleRate;
    le_bytes 4 (Z.quot (sampleRate * numChannels * bitsPerSample) 8);
    le_bytes 2 (Z.quot (numChannels * bitsPerSample) 8);
    le_bytes 2 bitsPerSample; tag "data"; le_bytes 4 dataLength ].
(** What [generateSpeech] puts in the [Blob]: the header, then the PCM
    bytes that [decode] returned. *)
Definition wavFile (pcmData : list Z) : option buffer :=
  option_map (fun wavHeader => (wavHeader ++ pcmData)%list)
             (createWavHeader (Z.of_nat (List.length pcmData)) 24000 1 16).

(** How the first part of [convertWavToMp3] (part_003 lines 6-39) ends. *)
Inductive parsed :=
| Pcm (numChannels sampleRate dataStart samples : Z)
| Failure (message : jsstring)
| RangeError.

(** The search for the [data] chunk (lines 24-33): the position after the
    loop.  [fuel] bounds the iterations and [None] is its exhaustion. *)
Fixpoint find_data (fuel : nat) (file : buffer) (pos : Z)
  : option (option Z) :=
  match fuel with
  | O => None
  | S f =>
      if pos <? Z.of_nat (List.length file) then
        match read file pos 4, getUint32 file (pos + 4) with
        | Some id, Some size =>
            if list_eq_dec Z.eq_dec id (tag "data")
            then Some (Some (pos + 8))
            else find_data f file (pos + 8 + size)
        | _, _ => Some None
        end
      else Some (Some pos)
  end.

(** Lines 6-39: the format checks, the search, and the [Int16Array] made
    over the rest of the buffer, which wants an even offset and a buffer
    of an even number of bytes.  What follows hands the samples to the encoder. *)
Definition convertWavToMp3_header (file : buffer) : option parsed :=
  match getUint16 file 20 with
  | None => Some RangeError
  | Some format =>
      if negb (format =? 1)
      then Some (Failure (str "Only PCM WAV files can be converted."))
      else
        match getUint16 file 22, getUint32 file 24, getUint16 file 34 with
        | Some numChannels, Some sampleRate, Some bitsPerSample =>
            if negb (bitsPerSample =? 16)
            then Some (Failure (str "Only 16-bit WAV files can be converted."))
            else
              match find_data (S (List.length file)) file 12 with
              | None => None
              | Some None => Some RangeError
              | Some (Some pos) =>
                  let byteLength := Z.of_nat (List.length file) in
                  if pos >=? byteLength
                  then Some (Failure (js "WAV 'data' chunk not found."))
                  else if negb (pos mod 2 =? 0)
                          || negb (byteLength mod 2 =? 0)
                  then Some RangeError
                  else Some (Pcm numChannels sampleRate pos
                                 ((byteLength - pos) / 2))
              end
        | _, _, _ => Some RangeError
        end
  end.

End Wav.

(* ================================================================== *)
(** ** Properties of the repair engine *)
(* ================================================================== *)

Module RepairFacts.

Import JS JSON Repair Runtime.
Local Open Scope Z_scope.

(** The second count is additive over concatenation. *)
Lemma rescan_app (s t : jsstring) (a b : Z) :
  rescan (s ++ t) a b = let '(a', b') := rescan s a b in rescan t a' b'.
Proof.
  revert a b; induction s as [|c s IH]; intros a b; simpl.
  - destruct (rescan t a b); reflexivity.
  - apply IH.
Qed.

Lemma rescan_brackets (n : nat) (a b : Z) :
  rescan (repeat c_rbracket n) a b = (a, b - Z.of_nat n).
Proof.
  revert b; induction n as [|n IH]; intros b.
  - simpl. f_equal. lia.
  - cbn [repeat rescan].
    change (c_rbracket =? c_lbrace)%N with false.
    change (c_rbracket =? c_rbrace)%N with false.
    change (c_rbracket =? c_lbracket)%N with false.
    change (c_rbracket =? c_rbracket)%N with true.
    cbv iota. rewrite IH. f_equal. lia.
Qed.

Lemma rescan_braces (n : nat) (a b : Z) :
  rescan (repeat c_rbrace n) a b = (a - Z.of_nat n, b).
Proof.
  revert a; induction n as [|n IH]; intros a.
  - simpl. f_equal. lia.
  - cbn [repeat rescan].
    change (c_rbrace =? c_lbrace)%N with false.
    change (c_rbrace =? c_rbrace)%N with true.
    change (c_rbrace =? c_lbracket)%N with false.
    change (c_rbrace =? c_rbracket)%N with false.
    cbv iota. rewrite IH. f_equal. lia.
Qed.

(** What the truncation block appends is what the second count asks for:
    counted again, the closed text has no opener left over. *)
Lemma cut_and_close_balanced (text : jsstring) (lsp : Z) :
  let kept := strip_last_comma (trim (substring_to text (lsp + 1))) in
  let '(sBrace, sBracket) := rescan kept 0 0 in
  cut_and_close text lsp
  = (kept ++ repeat c_rbracket (Z.to_nat sBracket)
          ++ repeat c_rbrace (Z.to_nat sBrace))%list
  /\ rescan (cut_and_close text lsp) 0 0 = (Z.min sBrace 0, Z.min sBracket 0).
Proof.
  intros kept. unfold cut_and_close. fold kept.
  destruct (rescan kept 0 0) as [sB sK] eqn:E.
  split; [reflexivity|].
  rewrite rescan_app, E, rescan_app, rescan_brackets, rescan_braces.
  f_equal; lia.
Qed.

End RepairFacts.

Import JS JSON Repair Runtime Spec.

(** C2.  The truncated object [{"a":1,"b":[1,2,] is cut at its last safe
    boundary (the final comma), loses that comma and receives one closing
    bracket and one closing brace; the result parses and its [a] is 1.  Both
    files agree.  In general the closers appended are exactly those the
    second count asks for, so that counting the result again leaves no
    opener over. *)
Theorem truncated_object_is_cut_and_closed :
  let raw := js "{'a':1,'b':[1,2," in
  let fixed := js "{'a':1,'b':[1,2]}" in
  GeminiService.cleanJsonString (Some raw) = fixed
  /\ GeminiServiceV31.cleanJsonString (Some raw) = fixed
  /\ lastSafePoint (scan true raw 0 (scan_init raw)) = 15%Z
  /\ cut_and_close raw 15 = fixed
  /\ (exists v, JSON.parse fixed = Some v
        /\ get (Some v) "a" = Ok (Some (JNum (mkNumber false 1 0))))
  /\ (forall text lsp,
        let kept := strip_last_comma (trim (substring_to text (lsp + 1))) in
        exists n m,
          cut_and_close text lsp
          = (kept ++ repeat c_rbracket n ++ repeat c_rbrace m)%list
          /\ rescan (cut_and_close text lsp) 0 0
             = (Z.min (fst (rescan kept 0 0)) 0,
                Z.min (snd (rescan kept 0 0)) 0)).
Proof.
  cbv zeta.
  split; [vm_compute; reflexivity|].
  split; [vm_compute; reflexivity|].
  split; [vm_compute; reflexivity|].
  split; [vm_compute; reflexivity|].
  split.
  - eexists. split; vm_compute; reflexivity.
  - intros text lsp.
    pose proof (RepairFacts.cut_and_close_balanced text lsp) as H.
    cbv zeta in H.
    destruct (rescan _ 0 0) as [sB sK]. destruct H as [H1 H2].
    exists (Z.to_nat sK), (Z.to_nat sB). split; assumption.
Qed.

(* ================================================================== *)
(** ** The search for the root *)
(* ================================================================== *)

Module RootFacts.

Import JS JSON Repair Runtime.
Local Open Scope Z_scope.

Lemma indexOf_from_absent (c : char) (s : jsstring) (i : Z) :
  ~ In c s -> indexOf_from c s i = -1.
Proof.
  revert i; induction s as [|x s IH]; intros i H; simpl; [reflexivity|].
  destruct (N.eqb_spec x c) as [->|_].
  - exfalso. apply H. left. reflexivity.
  - apply IH. intros Hin. apply H. right. exact Hin.
Qed.

Lemma indexOf_from_first (c : char) (pre rest : jsstring) (i : Z) :
  ~ In c pre ->
  indexOf_from c (pre ++ c :: rest) i = i + Z.of_nat (List.length pre).
Proof.
  revert i; induction pre as [|x pre IH]; intros i H; simpl.
  - rewrite N.eqb_refl. lia.
  - destruct (N.eqb_spec x c) as [->|_].
    + exfalso. apply H. left. reflexivity.
    + rewrite IH; [lia|]. intros Hin. apply H. right. exact Hin.
Qed.

Lemma indexOf_from_range (c : char) (s : jsstring) (i : Z) :
  indexOf_from c s i = -1 \/ i <= indexOf_from c s i.
Proof.
  revert i; induction s as [|x s IH]; intros i; simpl; [left; reflexivity|].
  destruct (x =? c)%N; [right; lia|].
  destruct (IH (i + 1)) as [H|H]; [left; exact H|right; lia].
Qed.

Lemma indexOf_absent (c : char) (s : jsstring) :
  ~ In c s -> indexOf s c = -1.
Proof. apply indexOf_from_absent. Qed.

Lemma indexOf_first (c : char) (pre rest : jsstring) :
  ~ In c pre -> indexOf (pre ++ c :: rest) c = Z.of_nat (List.length pre).
Proof. intros H. unfold indexOf. rewrite indexOf_from_first by exact H. lia. Qed.

(** Past a prefix free of [c] and a character other than [c], the index of
    [c] lies beyond that character. *)
Lemma indexOf_from_beyond (c d : char) (pre rest : jsstring) (i : Z) :
  ~ In c pre -> d <> c ->
  indexOf_from c (pre ++ d :: rest) i = -1
  \/ i + Z.of_nat (List.length pre) < indexOf_from c (pre ++ d :: rest) i.
Proof.
  revert i; induction pre as [|x pre IH]; intros i H Hd; simpl.
  - destruct (N.eqb_spec d c) as [E|_]; [contradiction|].
    destruct (indexOf_from_range c rest (i + 1)) as [E|E];
      [left; exact E|right; lia].
  - destruct (N.eqb_spec x c) as [->|_].
    + exfalso. apply H. left. reflexivity.
    + destruct (IH (i + 1) (fun h => H (or_intror h)) Hd) as [E|E];
        [left; exact E|right; lia].
Qed.

Lemma substring_from_app (pre rest : jsstring) :
  substring_from (pre ++ rest) (Z.of_nat (List.length pre)) = rest.
Proof.
  unfold substring_from. rewrite Nat2Z.id.
  induction pre as [|x pre IH]; simpl; [reflexivity|exact IH].
Qed.

(** The root search of part_008 returns the first position that holds a
    brace or a bracket, and -1 when there is none. *)
Lemma find_start_none (u : jsstring) :
  ~ In c_lbrace u -> ~ In c_lbracket u -> GeminiServiceV31.find_start u = -1.
Proof.
  intros H1 H2. unfold GeminiServiceV31.find_start.
  rewrite !indexOf_absent by assumption. reflexivity.
Qed.

Lemma find_start_first (pre rest : jsstring) (c : char) :
  c = c_lbrace \/ c = c_lbracket ->
  ~ In c_lbrace pre -> ~ In c_lbracket pre ->
  GeminiServiceV31.find_start (pre ++ c :: rest) = Z.of_nat (List.length pre).
Proof.
  intros Hc H1 H2. unfold GeminiServiceV31.find_start.
  destruct Hc as [-> | ->].
  - rewrite indexOf_first by assumption.
    destruct (@indexOf_from_beyond c_lbracket c_lbrace pre rest 0 H2)
      as [E|E]; [discriminate| |]; unfold indexOf;
      destruct (Z.eqb_spec (Z.of_nat (List.length pre)) (-1)); try lia;
      destruct (Z.eqb_spec (indexOf_from c_lbracket (pre ++ c_lbrace :: rest) 0) (-1));
      destruct (Z.ltb_spec (Z.of_nat (List.length pre))
                           (indexOf_from c_lbracket (pre ++ c_lbrace :: rest) 0));
      simpl; lia.
  - rewrite indexOf_first by assumption.
    destruct (@indexOf_from_beyond c_lbrace c_lbracket pre rest 0 H1)
      as [E|E]; [discriminate| |]; unfold indexOf;
      destruct (Z.eqb_spec (Z.of_nat (List.length pre)) (-1)); try lia;
      destruct (Z.eqb_spec (indexOf_from c_lbrace (pre ++ c_lbracket :: rest) 0) (-1));
      destruct (Z.ltb_spec (indexOf_from c_lbrace (pre ++ c_lbracket :: rest) 0)
                           (Z.of_nat (List.length pre)));
      simpl; lia.
Qed.

End RootFacts.

Module RootSearch.

Import JS JSON Repair Runtime RootFacts.
Local Open Scope Z_scope.

(** part_008: where the unwrapped text holds neither a brace nor a bracket
    the answer is the empty object; otherwise everything before the first
    of them is dropped and the repair runs from that character on. *)
Lemma v31_root (text : jsstring) :
  text <> [] ->
  let u := unwrap text in
  (~ In c_lbrace u -> ~ In c_lbracket u ->
   GeminiServiceV31.cleanJsonString (Some text) = empty_object)
  /\ (forall pre c rest,
         u = (pre ++ c :: rest)%list ->
         c = c_lbrace \/ c = c_lbracket ->
         ~ In c_lbrace pre -> ~ In c_lbracket pre ->
         GeminiServiceV31.cleanJsonString (Some text)
         = postprocess
             (repair (scan true (c :: rest) 0 (scan_init (c :: rest))))).
Proof.
  intros Hne u. destruct text as [|t0 text']; [contradiction|].
  unfold GeminiServiceV31.cleanJsonString. fold u. split.
  - intros H1 H2. rewrite find_start_none by assumption. reflexivity.
  - intros pre c rest E Hc H1 H2. rewrite E.
    rewrite find_start_first by assumption.
    destruct (Z.eqb_spec (Z.of_nat (List.length pre)) (-1)); [lia|].
    rewrite substring_from_app. reflexivity.
Qed.

(** src/services/geminiService.ts: only a brace is looked for. *)
Lemma gs_root (text : jsstring) :
  text <> [] ->
  let u := unwrap text in
  (~ In c_lbrace u ->
   GeminiService.cleanJsonString (Some text) = empty_object)
  /\ (forall pre rest,
         u = (pre ++ c_lbrace :: rest)%list ->
         ~ In c_lbrace pre ->
         GeminiService.cleanJsonString (Some text)
         = postprocess
             (repair (scan false (c_lbrace :: rest) 0
                           (scan_init (c_lbrace :: rest))))).
Proof.
  intros Hne u. destruct text as [|t0 text']; [contradiction|].
  unfold GeminiService.cleanJsonString. fold u. split.
  - intros H1. rewrite indexOf_absent by assumption. reflexivity.
  - intros pre rest E H1. rewrite E.
    rewrite indexOf_first by assumption.
    destruct (Z.eqb_spec (Z.of_nat (List.length pre)) (-1)); [lia|].
    rewrite substring_from_app. reflexivity.
Qed.

End RootSearch.

(** C3.  On [{"a":1}}}] part_008 stops where both counters are back at
    zero, cuts the text there and returns [{"a":1}], which parses to the
    object with the one member [a = 1].  The loop of
    src/services/geminiService.ts has no such test: it breaks at the first
    surplus closer without cutting, returns the input as it is, and the
    text parses neither as it is nor with a brace appended. *)
Theorem stray_closers_after_the_root :
  let raw := js "{'a':1}}}" in
  GeminiServiceV31.cleanJsonString (Some raw) = js "{'a':1}"
  /\ finished (scan true raw 0 (scan_init raw)) = true
  /\ JSON.parse (GeminiServiceV31.cleanJsonString (Some raw))
     = Some (JObj [(str "a", JNum (mkNumber false 1 0))])
  /\ GeminiService.cleanJsonString (Some raw) = raw
  /\ JSON.parse (GeminiService.cleanJsonString (Some raw)) = None
  /\ GeminiService.parse_with_retry (GeminiService.cleanJsonString (Some raw))
     = Throw GeminiService.structural_failure.
Proof. cbv zeta. repeat split; vm_compute; reflexivity. Qed.

(** C5.  On a text whose first structural character is a bracket, part_008
    recovers from that bracket, while src/services/geminiService.ts, which
    looks for a brace only, answers the empty object when there is none
    and otherwise starts inside the array, whose text then fails to
    parse. *)
Theorem array_root_is_recovered_by_one_file_only :
  GeminiServiceV31.cleanJsonString (Some (js "[1,2]")) = js "[1,2]"
  /\ GeminiService.cleanJsonString (Some (js "[1,2]")) = js "{}"
  /\ GeminiServiceV31.cleanJsonString (Some (js "x [{'a':1},{'a':2}]"))
     = js "[{'a':1},{'a':2}]"
  /\ GeminiService.cleanJsonString (Some (js "x [{'a':1},{'a':2}]"))
     = js "{'a':1},{'a':2}]"
  /\ JSON.parse (js "{'a':1},{'a':2}]") = None
  /\ GeminiServiceV31.cleanJsonString (Some (js "no json at all")) = js "{}"
  /\ GeminiService.cleanJsonString (Some (js "no json at all")) = js "{}".
Proof. repeat split; vm_compute; reflexivity. Qed.

(* ================================================================== *)
(** ** The keyframe table *)
(* ================================================================== *)

Module Keyframes.

Import JS JSON Repair Runtime Spec.
Local Open Scope Z_scope.

Lemma eqs_eq (a b : jsstring) : eqs a b = true <-> a = b.
Proof.
  revert b; induction a as [|x a IH]; intros [|y b]; simpl;
    try (split; [discriminate|discriminate]); [tauto|].
  rewrite andb_true_iff, N.eqb_eq, IH. split.
  - intros [-> ->]. reflexivity.
  - intros E. injection E as -> ->. split; reflexivity.
Qed.

Lemma eqs_refl (a : jsstring) : eqs a a = true.
Proof. apply eqs_eq. reflexivity. Qed.

(** Without white space the replacement changes nothing; with white space
    it leaves an underscore. *)
Lemma ws_replace_id (s : jsstring) :
  has_ws s = false -> replace_all m_ws_plus 0 s = s.
Proof.
  induction s as [|c s IH]; simpl; [reflexivity|].
  intros H. apply orb_false_iff in H as [Hc Hs].
  unfold m_ws_plus. simpl. rewrite Hc. f_equal. apply IH. exact Hs.
Qed.

Lemma ws_replace_underscore (s : jsstring) :
  has_ws s = true -> In c_underscore (replace_all m_ws_plus 0 s).
Proof.
  induction s as [|c s IH]; simpl; [discriminate|].
  intros H. unfold m_ws_plus. simpl.
  destruct (isWhiteSpace c) eqn:Hc.
  - left. reflexivity.
  - right. apply IH. simpl in H. exact H.
Qed.

Lemma lookup_In {A : Type} (k : jsstring) (t : list (jsstring * A)) (a : A) :
  lookup k t = Some a -> In (k, a) t.
Proof.
  induction t as [|[k' a'] t IH]; simpl; [discriminate|].
  destruct (eqs k k') eqn:E.
  - intros H. injection H as ->. apply eqs_eq in E as ->. left. reflexivity.
  - intros H. right. apply IH. exact H.
Qed.

Lemma lookup_plain_row {A : Type} (s : jsstring) (row : list (jsstring * A)) :
  forallb (fun kv => plain (fst kv)) row = true ->
  lookup (replace_all m_ws_plus 0 s) row = lookup s row.
Proof.
  intros Hrow. destruct (has_ws s) eqn:Hs.
  - assert (N1 : lookup s row = None).
    { destruct (lookup s row) as [a|] eqn:E; [|reflexivity].
      apply lookup_In in E. rewrite forallb_forall in Hrow.
      apply Hrow in E. unfold plain in E. simpl in E. rewrite Hs in E.
      discriminate. }
    assert (N2 : lookup (replace_all m_ws_plus 0 s) row = None).
    { destruct (lookup (replace_all m_ws_plus 0 s) row) as [a|] eqn:E;
        [|reflexivity].
      apply lookup_In in E. rewrite forallb_forall in Hrow.
      apply Hrow in E. unfold plain in E. simpl in E.
      apply andb_true_iff in E as [_ E]. apply negb_true_iff in E.
      assert (X : existsb (N.eqb c_underscore) (replace_all m_ws_plus 0 s)
                  = true).
      { apply existsb_exists. exists c_underscore. split.
        - apply ws_replace_underscore. exact Hs.
        - apply N.eqb_refl. }
      congruence. }
    congruence.
  - rewrite ws_replace_id by exact Hs. reflexivity.
Qed.

Lemma rows_plain :
  forallb (fun r => forallb (fun kv => plain (fst kv)) (snd r))
          GeminiServiceV31.table = true.
Proof. vm_compute. reflexivity. Qed.

Lemma entries_nonzero :
  forallb (fun r => forallb (fun kv => negb (snd kv =? 0)) (snd r))
          GeminiServiceV31.table = true.
Proof. vm_compute. reflexivity. Qed.

(** part_008 computes what the specification describes: leaving the
    density label without the underscore replacement makes no difference,
    no column of the table holding white space or an underscore. *)
Lemma v31_count_refines_spec (duration density : jsstring) :
  GeminiServiceV31.getRequiredKeyframeCount duration density
  = spec_requiredKeyframeCount duration density.
Proof.
  unfold GeminiServiceV31.getRequiredKeyframeCount,
    spec_requiredKeyframeCount, spec_normalize.
  destruct (lookup _ GeminiServiceV31.table) as [row|] eqn:E; [|reflexivity].
  apply lookup_In in E.
  pose proof rows_plain as P. rewrite forallb_forall in P.
  pose proof entries_nonzero as Q. rewrite forallb_forall in Q.
  specialize (P _ E). specialize (Q _ E). simpl in P, Q.
  rewrite (lookup_plain_row _ _ P).
  destruct (lookup (toLowerCase density) row) as [n|] eqn:E2; [|reflexivity].
  apply lookup_In in E2. rewrite forallb_forall in Q.
  specialize (Q _ E2). simpl in Q.
  destruct (n =? 0); [discriminate|reflexivity].
Qed.

(** The count is one of the table's entries or the default. *)
Lemma v31_count_values (duration density : jsstring) :
  In (GeminiServiceV31.getRequiredKeyframeCount duration density)
     [4; 5; 6; 8; 10; 14; 18; 20; 26; 30; 34; 40].
Proof.
  rewrite v31_count_refines_spec. unfold spec_requiredKeyframeCount.
  destruct (lookup _ GeminiServiceV31.table) as [row|] eqn:E;
    [|simpl; tauto].
  apply lookup_In in E.
  destruct (lookup _ row) as [n|] eqn:E2; [|simpl; tauto].
  apply lookup_In in E2.
  cbv [GeminiServiceV31.table In] in E.
  repeat (destruct E as [E|E];
          [injection E as _ <-; cbv [In] in E2;
           repeat (destruct E2 as [E2|E2];
                   [injection E2 as _ <-; simpl; tauto|]);
           contradiction|]).
  contradiction.
Qed.

(** What src/services/geminiService.ts returns is an entry of its table
    or the default, and the default when the labels match no row and
    column. *)
Lemma gs_count_values (duration density : jsstring) :
  In (GeminiService.getRequiredKeyframeCount duration density)
     [4; 5; 6; 8; 10; 14; 18; 20; 26; 30; 34; 40].
Proof.
  unfold GeminiService.getRequiredKeyframeCount.
  destruct (lookup _ GeminiService.table) as [row|] eqn:E; [|simpl; tauto].
  apply lookup_In in E.
  destruct (lookup _ row) as [n|] eqn:E2; [|simpl; tauto].
  apply lookup_In in E2.
  cbv [GeminiService.table In] in E.
  repeat (destruct E as [E|E];
          [injection E as _ <-; cbv [In] in E2;
           repeat (destruct E2 as [E2|E2];
                   [injection E2 as _ <-; simpl; tauto|]);
           contradiction|]).
  contradiction.
Qed.

Lemma gs_count_unmatched (duration density : jsstring) :
  (forall row, lookup duration GeminiService.table = Some row ->
               lookup density row = None) ->
  GeminiService.getRequiredKeyframeCount duration density = 8.
Proof.
  intros H. unfold GeminiService.getRequiredKeyframeCount.
  destruct (lookup duration GeminiService.table) as [row|]; [|reflexivity].
  rewrite (H row eq_refl). reflexivity.
Qed.

(** An entry that src/services/geminiService.ts finds under the labels as
    they are written is the entry that part_008 finds under the normalised
    labels. *)
Lemma gs_entry_is_v31_entry (duration density : jsstring)
      (row : list (jsstring * Z)) (n : Z) :
  lookup duration GeminiService.table = Some row ->
  lookup density row = Some n ->
  GeminiService.getRequiredKeyframeCount duration density = n
  /\ GeminiServiceV31.getRequiredKeyframeCount duration density = n.
Proof.
  intros H1 H2. apply lookup_In in H1. apply lookup_In in H2.
  cbv [GeminiService.table In] in H1.
  repeat (destruct H1 as [H1|H1];
          [injection H1 as <- <-; cbv [In] in H2;
           repeat (destruct H2 as [H2|H2];
                   [injection H2 as <- <-;
                    split; vm_compute; reflexivity|]);
           destruct H2|]).
  destruct H1.
Qed.

End Keyframes.

(** C7, the claim as stated fails.  The labels [1 minute] and [Detailed]
    name no inherited property and normalise to a row and a column of the
    table, whose entry is 10; src/services/geminiService.ts, which looks
    the labels up as they are written, finds no row and returns 8. *)
Lemma labels_are_looked_up_as_written :
  inherited (str "1 minute") = false
  /\ inherited (str "Detailed") = false
  /\ Spec.spec_requiredKeyframeCount (str "1 minute") (str "Detailed") = 10%Z
  /\ GeminiService.getRequiredKeyframeCount
       (str "1 minute") (str "Detailed") = 8%Z.
Proof. repeat split; vm_compute; reflexivity. Qed.

(** C7, amended.  part_008 normalises the labels as the specification
    says: for labels whose normalised forms are no inherited names, its
    count is the specified one, an entry of the table or 8.
    src/services/geminiService.ts does not normalise: for labels that are
    no inherited names its count is an entry of its table or 8, and 8 when
    the labels as they are written match no row and column; its table is
    keyed by the labels of the input form, and an entry it finds is the
    entry that part_008 returns for the same labels.  Both give 8 on the
    two quoted pairs, and part_008 gives 10 on [1 minute / Detailed]. *)
Theorem keyframe_labels_are_normalised_by_one_file_only :
  (forall duration density,
      inherited (Spec.spec_normalize duration) = false ->
      inherited (toLowerCase density) = false ->
      GeminiServiceV31.getRequiredKeyframeCount duration density
      = Spec.spec_requiredKeyframeCount duration density
      /\ In (GeminiServiceV31.getRequiredKeyframeCount duration density)
            [4; 5; 6; 8; 10; 14; 18; 20; 26; 30; 34; 40]%Z)
  /\ (forall duration density,
         inherited duration = false -> inherited density = false ->
         In (GeminiService.getRequiredKeyframeCount duration density)
            [4; 5; 6; 8; 10; 14; 18; 20; 26; 30; 34; 40]%Z
         /\ ((forall row, lookup duration GeminiService.table = Some row ->
                          lookup density row = None) ->
             GeminiService.getRequiredKeyframeCount duration density = 8%Z))
  /\ (forall duration density row n,
         lookup duration GeminiService.table = Some row ->
         lookup density row = Some n ->
         GeminiService.getRequiredKeyframeCount duration density = n
         /\ GeminiServiceV31.getRequiredKeyframeCount duration density = n)
  /\ GeminiServiceV31.getRequiredKeyframeCount
       (str "1 Minute") (str "Standard") = 8%Z
  /\ GeminiServiceV31.getRequiredKeyframeCount
       (str "17 Minutes") (str "Extreme") = 8%Z
  /\ GeminiService.getRequiredKeyframeCount
       (str "1 Minute") (str "Standard") = 8%Z
  /\ GeminiService.getRequiredKeyframeCount
       (str "17 Minutes") (str "Extreme") = 8%Z
  /\ GeminiServiceV31.getRequiredKeyframeCount
       (str "1 minute") (str "Detailed") = 10%Z.
Proof.
  split.
  { intros duration density _ _.
    split; [apply Keyframes.v31_count_refines_spec
           |apply Keyframes.v31_count_values]. }
  split.
  { intros duration density _ _.
    split; [apply Keyframes.gs_count_values
           |apply Keyframes.gs_count_unmatched]. }
  split; [exact Keyframes.gs_entry_is_v31_entry|].
  repeat split; vm_compute; reflexivity.
Qed.

Lemma keyframe_labels_are_normalised_by_one_file_only_witness :
  GeminiServiceV31.getRequiredKeyframeCount (str "5   MINUTES") (str "DETAILED")
  = Spec.spec_requiredKeyframeCount (str "5   MINUTES") (str "DETAILED")
  /\ GeminiService.getRequiredKeyframeCount
       (str "5   MINUTES") (str "DETAILED") = 8%Z
  /\ GeminiServiceV31.getRequiredKeyframeCount
       (str "5 Minutes") (str "Detailed") = 26%Z.
Proof.
  split; [|split].
  - exact (proj1 (proj1 keyframe_labels_are_normalised_by_one_file_only
                    (str "5   MINUTES") (str "DETAILED") eq_refl eq_refl)).
  - apply (proj2 (proj1 (proj2 keyframe_labels_are_normalised_by_one_file_only)
                    (str "5   MINUTES") (str "DETAILED") eq_refl eq_refl)).
    intros row H. vm_compute in H. discriminate H.
  - exact (proj2 (proj1 (proj2 (proj2
             keyframe_labels_are_normalised_by_one_file_only))
             (str "5 Minutes") (str "Detailed")
             [ (str "Concise", 14%Z); (str "Standard", 20%Z);
               (str "Detailed", 26%Z) ] 26%Z eq_refl eq_refl)).
Defined.

(* ================================================================== *)
(** ** The package normalizer *)
(* ================================================================== *)

Module Normalizer.

Import JS JSON Repair Runtime Spec.
Local Open Scope Z_scope.

Lemma mapM_labels_ok (ps : list value) :
  existsb is_null ps = false ->
  GeminiServiceV31.mapM GeminiServiceV31.label_title ps
  = Ok (map label_or_scene ps).
Proof.
  induction ps as [|p ps IH]; [reflexivity|].
  cbn [GeminiServiceV31.mapM map existsb].
  intros H. apply orb_false_iff in H as [Hp Hps].
  rewrite (IH Hps). destruct p; try discriminate; reflexivity.
Qed.

Lemma mapM_labels_throw (ps : list value) :
  existsb is_null ps = true ->
  GeminiServiceV31.mapM GeminiServiceV31.label_title ps
  = Throw (type_error "label").
Proof.
  induction ps as [|p ps IH]; [discriminate|].
  cbn [GeminiServiceV31.mapM existsb].
  intros H. destruct p; cbn [is_null orb] in H;
    try (rewrite (IH H)); reflexivity.
Qed.

Lemma gs_normalize_object l input styleData :
  GeminiService.normalize (JObj l) input styleData
  = Ok (gs_package l input styleData).
Proof. reflexivity. Qed.

Lemma v31_normalize_object l input k stylePreset :
  GeminiServiceV31.normalize (JObj l) input k stylePreset
  = if v31_throws l k then Throw (type_error "label")
    else Ok (v31_package l input k stylePreset).
Proof.
  unfold GeminiServiceV31.normalize, v31_throws, v31_package, prompts_of.
  cbn [get get_opt bind].
  destruct (truthy_val (assoc_last (str "keyframe_plan_titles") l)) eqn:T;
    cbn [negb andb bind]; [reflexivity|].
  fold GeminiServiceV31.label_title.
  match goal with
  | |- context [existsb is_null ?ps] => destruct (existsb is_null ps) eqn:N
  end.
  - rewrite (mapM_labels_throw _ N). reflexivity.
  - rewrite (mapM_labels_ok _ N). reflexivity.
Qed.

End Normalizer.

(** C8.  part_008 keeps the first [keyframeTotal] prompts of the parsed
    object, in order, and never adds one: whenever it returns a package, its
    prompts are that prefix, so their number is the smaller of the count and
    of what came (it throws only when no titles came and a kept prompt is
    null).  With twelve prompts and the count 8 of [1 Minute / Standard] it
    returns the first eight.  src/services/geminiService.ts does not cut:
    it returns all twelve. *)
Theorem visual_prompts_are_cut_by_one_file_only :
  (forall l input k stylePreset,
      match GeminiServiceV31.normalize (JObj l) input k stylePreset with
      | Ok pkg =>
          visualPrompts pkg
          = firstn (Z.to_nat k) (Spec.prompts_of (JObj l))
          /\ List.length (visualPrompts pkg)
             = Nat.min (Z.to_nat k)
                       (List.length (Spec.prompts_of (JObj l)))
      | Throw _ => Spec.v31_throws l k = true
      end)
  /\ (let data := JObj [(str "visualPrompts", JArr twelve_prompts)] in
      let k := GeminiServiceV31.getRequiredKeyframeCount
                 (videoDuration sample_input) (sceneDensity sample_input) in
      k = 8%Z
      /\ (exists pkg,
             GeminiServiceV31.normalize data sample_input k
               (resolveStyle (visualStyle sample_input)) = Ok pkg
             /\ visualPrompts pkg = firstn 8 twelve_prompts
             /\ List.length (visualPrompts pkg) = 8%nat)
      /\ (exists pkg,
             GeminiService.normalize data sample_input
               (resolveStyle (visualStyle sample_input)) = Ok pkg
             /\ visualPrompts pkg = twelve_prompts
             /\ List.length (visualPrompts pkg) = 12%nat)).
Proof.
  split.
  - intros l input k stylePreset.
    rewrite Normalizer.v31_normalize_object.
    destruct (Spec.v31_throws l k); [reflexivity|].
    unfold Spec.v31_package. cbn [visualPrompts]. split; [reflexivity|].
    apply length_firstn.
  - cbv zeta. split; [vm_compute; reflexivity|]. split.
    + eexists. split; [vm_compute; reflexivity|].
      split; vm_compute; reflexivity.
    + eexists. split; [vm_compute; reflexivity|].
      split; vm_compute; reflexivity.
Qed.

Lemma or_else_falsy (a : jsval) (d : value) :
  truthy_val a = false -> or_else a d = d.
Proof.
  destruct a as [x|]; simpl; [|reflexivity].
  intros H. rewrite H. reflexivity.
Qed.

(** C9, the claim as stated fails: when the completion carries a [seo]
    object without its fields, both files hand that object on as it is, and
    its title is [undefined], not the literal Untitled. *)
Lemma seo_present_without_title_gets_no_default :
  let data := JObj [(str "seo", JObj [])] in
  (exists pkg,
      GeminiService.normalize data sample_input
        (resolveStyle (visualStyle sample_input)) = Ok pkg
      /\ seo pkg = JObj []
      /\ get_opt (Some (seo pkg)) "bestTitle" = None
      /\ get_opt (Some (seo pkg)) "altTitles" = None)
  /\ (exists pkg,
         GeminiServiceV31.normalize data sample_input 8
           (resolveStyle (visualStyle sample_input)) = Ok pkg
         /\ seo pkg = JObj []
         /\ get_opt (Some (seo pkg)) "bestTitle" = None
         /\ get_opt (Some (seo pkg)) "altTitles" = None).
Proof.
  cbv zeta. split; eexists; (split; [vm_compute; reflexivity|]);
    repeat split; vm_compute; reflexivity.
Qed.

Lemma or_else_truthy (a : jsval) (d : value) :
  truthy_val a = true -> Some (or_else a d) = a.
Proof.
  destruct a as [x|]; simpl; [|discriminate].
  intros H. rewrite H. reflexivity.
Qed.

(** C9, amended.  For every parsed object, whenever a file returns a
    package: topic and mood are defaulted field by field (a topic that is
    absent, null or otherwise falsy becomes the first 30 code units of the
    script, such a mood becomes Cinematic), and a truthy topic or mood is
    passed on as it is; the [seo] bundle is defaulted as a whole, and only
    when [data.seo] itself is absent, null or falsy, to the bundle whose
    title is Untitled and whose alt-titles are empty; a truthy [data.seo]
    is passed on as it is, so that each of its fields, a missing one
    included, reads in the package as it reads in the completion; prompts
    that are not an array become the empty sequence.
    src/services/geminiService.ts returns a package for every object, and
    for the empty object both files return the all-default package. *)
Theorem defaults_of_the_normalizer :
  forall l input styleData k pkg,
    GeminiService.normalize (JObj l) input styleData = Ok pkg
    \/ GeminiServiceV31.normalize (JObj l) input k styleData = Ok pkg ->
    let data := Some (JObj l) in
    let md := get_opt data "metadata" in
    (truthy_val (get_opt md "topic") = false ->
     topic (metadata pkg) = JStr (firstn 30 (script input)))
    /\ (truthy_val (get_opt md "mood") = false ->
        mood (metadata pkg) = JStr (str "Cinematic"))
    /\ (truthy_val (get_opt data "seo") = false ->
        seo pkg = default_seo
        /\ get_opt (Some (seo pkg)) "bestTitle" = Some (JStr (str "Untitled"))
        /\ get_opt (Some (seo pkg)) "altTitles" = Some (JArr []))
    /\ (Spec.prompts_of (JObj l) = [] -> visualPrompts pkg = [])
    /\ (exists pkg0,
           GeminiService.normalize (JObj l) input styleData = Ok pkg0)
    /\ GeminiService.normalize (JObj []) input styleData
       = Ok (mkPackage
               (mkMetadata (JStr (firstn 30 (script input)))
                           (JStr (str "Cinematic"))
                           (visualStyle input) (aspectRatio input)
                           (videoDuration input))
               default_seo (JStr (script input)) (inr []) [] []
               [] [] [] (recommended_vst styleData))
    /\ GeminiServiceV31.normalize (JObj []) input k styleData
       = GeminiService.normalize (JObj []) input styleData
    /\ (truthy_val (get_opt data "seo") = true ->
        Some (seo pkg) = get_opt data "seo"
        /\ forall field,
             get_opt (Some (seo pkg)) field
             = get_opt (get_opt data "seo") field)
    /\ (truthy_val (get_opt md "topic") = true ->
        Some (topic (metadata pkg)) = get_opt md "topic")
    /\ (truthy_val (get_opt md "mood") = true ->
        Some (mood (metadata pkg)) = get_opt md "mood")
    /\ ((forall a, get_opt data "visualPrompts" <> Some (JArr a)) ->
        visualPrompts pkg = []).
Proof.
  intros l input styleData k pkg H data md.
  assert (F : topic (metadata pkg)
              = or_else (get_opt md "topic") (JStr (firstn 30 (script input)))
              /\ mood (metadata pkg)
                 = or_else (get_opt md "mood") (JStr (str "Cinematic"))
              /\ seo pkg = or_else (get_opt data "seo") default_seo
              /\ (Spec.prompts_of (JObj l) = [] ->
                  visualPrompts pkg = [])).
  { destruct H as [H|H].
    - rewrite Normalizer.gs_normalize_object in H. injection H as <-.
      unfold Spec.gs_package. cbn [metadata topic mood seo visualPrompts].
      repeat split. intros ->. reflexivity.
    - rewrite Normalizer.v31_normalize_object in H.
      destruct (Spec.v31_throws l k); [discriminate|].
      injection H as <-.
      unfold Spec.v31_package. cbn [metadata topic mood seo visualPrompts].
      repeat split. intros ->. apply firstn_nil. }
  destruct F as (Ft & Fm & Fs & Fv).
  split; [intros T; rewrite Ft; apply or_else_falsy; exact T|].
  split; [intros T; rewrite Fm; apply or_else_falsy; exact T|].
  split.
  { intros T. rewrite Fs, (or_else_falsy _ _ T).
    repeat split; vm_compute; reflexivity. }
  split; [exact Fv|].
  split; [eexists; apply Normalizer.gs_normalize_object|].
  split; [reflexivity|].
  split.
  { rewrite Normalizer.v31_normalize_object, Normalizer.gs_normalize_object.
    unfold Spec.v31_throws, Spec.v31_package, Spec.gs_package.
    change (Spec.prompts_of (JObj [])) with (@nil value).
    rewrite firstn_nil. reflexivity. }
  split.
  { intros T. assert (E : Some (seo pkg) = get_opt data "seo")
      by (rewrite Fs; apply or_else_truthy; exact T).
    split; [exact E|]. intros field. rewrite E. reflexivity. }
  split; [intros T; rewrite Ft; apply or_else_truthy; exact T|].
  split; [intros T; rewrite Fm; apply or_else_truthy; exact T|].
  intros N. apply Fv. unfold Spec.prompts_of. fold data.
  destruct (get_opt data "visualPrompts") as [[| | | |a|]|]; try reflexivity.
  exfalso. exact (N a eq_refl).
Qed.

Lemma defaults_of_the_normalizer_witness :
  let l := [ (str "metadata", JObj [(str "topic", JNull)]);
             (str "seo", JObj [(str "bestTitle", JStr (str "Dawn"))]);
             (str "visualPrompts", JStr (str "none")) ] in
  let pkg := Spec.gs_package l sample_input
               (resolveStyle (visualStyle sample_input)) in
  topic (metadata pkg) = JStr (str "A lighthouse keeper finds a ma")
  /\ mood (metadata pkg) = JStr (str "Cinematic")
  /\ Some (seo pkg) = Some (JObj [(str "bestTitle", JStr (str "Dawn"))])
  /\ get_opt (Some (seo pkg)) "altTitles" = None
  /\ visualPrompts pkg = [].
Proof.
  intros l pkg.
  pose proof (@defaults_of_the_normalizer l sample_input
                (resolveStyle (visualStyle sample_input)) 8%Z pkg
                (or_introl eq_refl)) as H.
  cbv zeta in H.
  destruct H as (T & M & _ & _ & _ & _ & _ & S & _ & _ & V).
  split; [exact (T eq_refl)|]. split; [exact (M eq_refl)|].
  split; [exact (proj1 (S eq_refl))|].
  split; [exact (proj2 (S eq_refl) "altTitles"%string)|].
  apply V. intros a E. discriminate E.
Defined.

(* ================================================================== *)
(** ** [generateMoviePackage] *)
(* ================================================================== *)

Module Package.

Import JS JSON Repair Runtime Spec.
Local Open Scope Z_scope.

Lemma gs_normalize_fields data input styleData pkg :
  GeminiService.normalize data input styleData = Ok pkg ->
  md_visualStyle (metadata pkg) = visualStyle input
  /\ md_aspectRatio (metadata pkg) = aspectRatio input
  /\ duration (metadata pkg) = videoDuration input
  /\ cst pkg = [] /\ bst pkg = [] /\ gst pkg = []
  /\ vst pkg = recommended_vst styleData.
Proof.
  unfold GeminiService.normalize.
  destruct (get (Some data) "visualPrompts"); cbn [bind]; [|discriminate].
  destruct (get (Some data) "metadata"); cbn [bind]; [|discriminate].
  destruct (get (Some data) "seo"); cbn [bind]; [|discriminate].
  destruct (get (Some data) "story"); cbn [bind]; [|discriminate].
  destruct (get (Some data) "keyframe_plan_titles"); cbn [bind];
    [|discriminate].
  intros H. injection H as <-. repeat split.
Qed.

Lemma v31_normalize_fields data input k stylePreset pkg :
  GeminiServiceV31.normalize data input k stylePreset = Ok pkg ->
  md_visualStyle (metadata pkg) = visualStyle input
  /\ md_aspectRatio (metadata pkg) = aspectRatio input
  /\ duration (metadata pkg) = videoDuration input
  /\ cst pkg = [] /\ bst pkg = [] /\ gst pkg = []
  /\ vst pkg = recommended_vst stylePreset.
Proof.
  unfold GeminiServiceV31.normalize.
  destruct (get (Some data) "visualPrompts"); cbn [bind]; [|discriminate].
  destruct (get (Some data) "metadata"); cbn [bind]; [|discriminate].
  destruct (get (Some data) "seo"); cbn [bind]; [|discriminate].
  destruct (get (Some data) "story"); cbn [bind]; [|discriminate].
  destruct (get (Some data) "keyframe_plan_titles") as [kpt|]; cbn [bind];
    [|discriminate].
  destruct (truthy_val kpt); cbn [bind].
  - intros H. injection H as <-. repeat split.
  - destruct (GeminiServiceV31.mapM _ _); cbn [bind]; [|discriminate].
    intros H. injection H as <-. repeat split.
Qed.

Lemma gs_generate_fields w input ev pkg :
  GeminiService.generateMoviePackage w input = (ev, Ok pkg) ->
  request_fields input pkg.
Proof.
  unfold GeminiService.generateMoviePackage.
  destruct (has_key w); cbn [negb]; [|discriminate].
  destruct (generateContent w 0) as [text|m].
  - destruct (GeminiService.parse_with_retry _) as [data|m]; cbn [bind].
    + destruct (GeminiService.normalize _ _ _) as [p|m] eqn:E.
      * intros H. injection H as _ <-.
        apply gs_normalize_fields in E. exact E.
      * destruct (GeminiService.handleApiError _ _); discriminate.
    + destruct (GeminiService.handleApiError _ _); discriminate.
  - destruct (GeminiService.handleApiError _ _); discriminate.
Qed.

Lemma v31_generate_fuel_fields fuel w input rc pkg :
  GeminiServiceV31.generateMoviePackage_fuel fuel w input rc = Some (Ok pkg) ->
  request_fields input pkg.
Proof.
  revert rc; induction fuel as [|f IH]; intros rc; [discriminate|].
  cbn [GeminiServiceV31.generateMoviePackage_fuel].
  destruct (has_key w); cbn [negb]; [|discriminate].
  destruct (generateContent w rc) as [text|m].
  - destruct (JSON.parse _) as [data|].
    + destruct (GeminiServiceV31.normalize _ _ _ _) as [p|m] eqn:E.
      * intros H. injection H as <-.
        apply v31_normalize_fields in E. exact E.
      * destruct (_ && _); [apply IH|discriminate].
    + destruct (rc <? 1)%nat; [apply IH|].
      destruct (_ && _); [apply IH|discriminate].
  - destruct (_ && _); [apply IH|discriminate].
Qed.

Lemma returned_fields w input pkg :
  returned w input pkg -> request_fields input pkg.
Proof.
  intros [[ev H]|[rc H]].
  - exact (gs_generate_fields _ _ H).
  - exact (v31_generate_fuel_fields _ _ _ _ H).
Qed.

(** The calls of part_008 never run out of fuel. *)
Lemma v31_generate_fuel_total fuel w input rc :
  (1 <= fuel)%nat -> (6 <= fuel + rc)%nat ->
  GeminiServiceV31.generateMoviePackage_fuel fuel w input rc <> None.
Proof.
  revert rc; induction fuel as [|f IH]; intros rc H1 H6; [lia|].
  cbn [GeminiServiceV31.generateMoviePackage_fuel].
  destruct (has_key w); cbn [negb]; [|discriminate].
  assert (R : (rc < 5)%nat ->
              GeminiServiceV31.generateMoviePackage_fuel f w input (S rc)
              <> None).
  { intros Hrc. apply IH; lia. }
  destruct (generateContent w rc) as [text|m].
  - destruct (JSON.parse _) as [data|].
    + destruct (GeminiServiceV31.normalize _ _ _ _) as [p|m]; [discriminate|].
      destruct (GeminiServiceV31.is_quota m); cbn [andb]; [|discriminate].
      destruct (Nat.ltb_spec rc 5); [apply R; assumption|discriminate].
    + destruct (Nat.ltb_spec rc 1); [apply R; lia|].
      destruct (GeminiServiceV31.is_quota _); cbn [andb]; [|discriminate].
      destruct (Nat.ltb_spec rc 5); [apply R; assumption|discriminate].
  - destruct (GeminiServiceV31.is_quota m); cbn [andb]; [|discriminate].
    destruct (Nat.ltb_spec rc 5); [apply R; assumption|discriminate].
Qed.

Lemma v31_generate_total w input rc :
  GeminiServiceV31.generateMoviePackage w input rc <> None.
Proof.
  unfold GeminiServiceV31.generateMoviePackage.
  apply v31_generate_fuel_total; lia.
Qed.

End Package.

(** C10.  In every package that a run returns, in either file, the visual
    style, the aspect ratio and the duration of the metadata are those of
    the request, [cst], [bst] and [gst] are the empty string and [vst] is
    the recommended token of the preset resolved from the requested style;
    so two runs on one request, whatever the service answered, agree on
    these fields. *)
Theorem request_fields_do_not_depend_on_the_completion :
  forall input w1 w2 pkg1 pkg2,
    returned w1 input pkg1 ->
    returned w2 input pkg2 ->
    md_visualStyle (metadata pkg1) = md_visualStyle (metadata pkg2)
    /\ md_aspectRatio (metadata pkg1) = md_aspectRatio (metadata pkg2)
    /\ duration (metadata pkg1) = duration (metadata pkg2)
    /\ cst pkg1 = cst pkg2 /\ bst pkg1 = bst pkg2 /\ gst pkg1 = gst pkg2
    /\ vst pkg1 = vst pkg2
    /\ request_fields input pkg1
    /\ request_fields input pkg2.
Proof.
  intros input w1 w2 pkg1 pkg2 H1 H2.
  pose proof (Package.returned_fields H1) as F1.
  pose proof (Package.returned_fields H2) as F2.
  destruct F1 as (A1 & B1 & C1 & D1 & E1 & G1 & V1).
  destruct F2 as (A2 & B2 & C2 & D2 & E2 & G2 & V2).
  repeat split; congruence.
Qed.

Lemma request_fields_do_not_depend_on_the_completion_witness :
  exists pkg1 pkg2,
    returned (constant_world (js "{}")) sample_input pkg1
    /\ returned (constant_world (js "{'story':'x','visualPrompts':[{'label':'a'}]}"))
                sample_input pkg2
    /\ story pkg1 <> story pkg2
    /\ vst pkg1 = vst pkg2
    /\ vst pkg1 = str "VST_12 Neon Night City".
Proof.
  eexists. eexists.
  assert (H1 : returned (constant_world (js "{}")) sample_input
                 (gs_package [] sample_input
                    (resolveStyle (visualStyle sample_input)))).
  { left. exists []. vm_compute. reflexivity. }
  assert (H2 : returned
                 (constant_world
                    (js "{'story':'x','visualPrompts':[{'label':'a'}]}"))
                 sample_input
                 (v31_package
                    [(str "story", JStr (str "x"));
                     (str "visualPrompts",
                      JArr [JObj [(str "label", JStr (str "a"))]])]
                    sample_input 8
                    (resolveStyle (visualStyle sample_input)))).
  { right. exists 0%nat. vm_compute. reflexivity. }
  split; [exact H1|]. split; [exact H2|].
  split; [vm_compute; discriminate|].
  pose proof (request_fields_do_not_depend_on_the_completion H1 H2) as F.
  split; [exact (proj1 (proj2 (proj2 (proj2 (proj2 (proj2 (proj2 F)))))))|].
  vm_compute. reflexivity.
Defined.

(** C6, the claim as stated fails in part_008.  The service answers
    [{"a":"}",] to every call.  The repaired text, [{"a":"}"], does not
    parse, and with one closing brace appended it would; part_008 does not
    append a brace: it calls the service again and, the second answer
    failing like the first, throws the structural failure. *)
Lemma parse_failure_is_not_patched_with_a_brace :
  let w := constant_world (js "{'a':'}',") in
  let rawJson := GeminiServiceV31.cleanJsonString (Some (js "{'a':'}',")) in
  rawJson = js "{'a':'}'"
  /\ JSON.parse rawJson = None
  /\ JSON.parse (rawJson ++ [c_rbrace])
     = Some (JObj [(str "a", JStr (str "}"))])
  /\ GeminiServiceV31.generateMoviePackage w sample_input 0
     = Some (Throw (GeminiServiceV31.failure_message "GENERATE_PACKAGE"
                      (toLowerCase GeminiServiceV31.structural_failure)))
  /\ (exists pkg,
         GeminiService.generateMoviePackage w sample_input = ([], Ok pkg)).
Proof.
  cbv zeta. repeat split; try (vm_compute; reflexivity).
  eexists. vm_compute. reflexivity.
Qed.

(** C6, amended.  When the repaired text does not parse, each file retries
    once and no more.  src/services/geminiService.ts parses the text again
    with one closing brace appended: if that parses the package is built
    from it, and if not the structural failure is thrown.  part_008 calls
    the service once more when [retryCount] is 0, and throws the structural
    failure when [retryCount] is 1 or more.  In both files the error
    reaches the caller through [handleApiError], as an engine failure that
    carries the structural-failure message and its advice in lower case. *)
Theorem parse_failure_is_retried_once :
  forall w input text,
    has_key w = true ->
    (generateContent w 0 = Text text ->
     let rawJson := GeminiService.cleanJsonString text in
     JSON.parse rawJson = None ->
     (forall data,
         JSON.parse (rawJson ++ [c_rbrace]) = Some data ->
         GeminiService.generateMoviePackage w input
         = gs_finish (GeminiService.normalize data input
                        (resolveStyle (visualStyle input))))
     /\ (JSON.parse (rawJson ++ [c_rbrace]) = None ->
         GeminiService.generateMoviePackage w input
         = ([], Throw (GeminiService.failure_message "GENERATE_PACKAGE"
                         (toLowerCase GeminiService.structural_failure)))))
    /\ (forall rc,
           generateContent w rc = Text text ->
           JSON.parse (GeminiServiceV31.cleanJsonString text) = None ->
           (rc = 0%nat ->
            GeminiServiceV31.generateMoviePackage w input 0
            = GeminiServiceV31.generateMoviePackage w input 1)
           /\ ((1 <= rc)%nat ->
               GeminiServiceV31.generateMoviePackage w input rc
               = Some (Throw (GeminiServiceV31.failure_message
                                "GENERATE_PACKAGE"
                                (toLowerCase
                                   GeminiServiceV31.structural_failure))))).
Proof.
  intros w input text K. split.
  - intros G rawJson P. unfold GeminiService.generateMoviePackage.
    rewrite K, G. cbn [negb]. fold rawJson.
    unfold GeminiService.parse_with_retry. rewrite P. split.
    + intros data P2. rewrite P2. cbn [bind].
      unfold gs_finish. reflexivity.
    + intros P2. rewrite P2. cbn [bind]. vm_compute. reflexivity.
  - intros rc G P. split.
    + intros ->. unfold GeminiServiceV31.generateMoviePackage.
      change (S (5 - 0)) with 6%nat. change (S (5 - 1)) with 5%nat.
      cbn [GeminiServiceV31.generateMoviePackage_fuel].
      rewrite K, G, P. cbn [negb]. reflexivity.
    + intros Hrc. unfold GeminiServiceV31.generateMoviePackage.
      cbn [GeminiServiceV31.generateMoviePackage_fuel].
      rewrite K, G, P. cbn [negb].
      destruct (Nat.ltb_spec rc 1); [lia|].
      change (GeminiServiceV31.is_quota GeminiServiceV31.structural_failure)
        with false.
      cbn [andb]. vm_compute. reflexivity.
Qed.

Lemma parse_failure_is_retried_once_witness :
  GeminiService.generateMoviePackage (constant_world (js "{'a':'}',"))
    sample_input
  = gs_finish (GeminiService.normalize (JObj [(str "a", JStr (str "}"))])
                 sample_input (resolveStyle (visualStyle sample_input)))
  /\ GeminiServiceV31.generateMoviePackage (constant_world (js "{'a':'}',"))
       sample_input 1
     = Some (Throw (GeminiServiceV31.failure_message "GENERATE_PACKAGE"
                      (toLowerCase GeminiServiceV31.structural_failure))).
Proof.
  pose proof (@parse_failure_is_retried_once
                (constant_world (js "{'a':'}',")) sample_input
                (Some (js "{'a':'}',")) eq_refl) as [G V].
  split.
  - refine (proj1 (G eq_refl _) _ _); vm_compute; reflexivity.
  - refine (proj2 (V 1%nat eq_refl _) _); [vm_compute; reflexivity|lia].
Defined.

(** C1, the claim as stated fails.  For the object cut in the middle of
    its first string value (key a, value begun as hello wor and never
    closed), no safe boundary was recorded; both
    files fall back on appending a brace, inside the open string, and the
    text they return does not parse (nor does it with one more brace, which
    is what src/services/geminiService.ts tries next). *)
Lemma cut_inside_first_string_is_not_repaired :
  let raw := js "{'a':'hello wor" in
  GeminiService.cleanJsonString (Some raw) = js "{'a':'hello wor}"
  /\ GeminiServiceV31.cleanJsonString (Some raw) = js "{'a':'hello wor}"
  /\ JSON.parse (GeminiService.cleanJsonString (Some raw)) = None
  /\ JSON.parse (GeminiServiceV31.cleanJsonString (Some raw)) = None
  /\ GeminiService.parse_with_retry (GeminiService.cleanJsonString (Some raw))
     = Throw GeminiService.structural_failure.
Proof. cbv zeta. repeat split; vm_compute; reflexivity. Qed.

(** C1, amended.  [cleanJsonString] always returns a text.  When the input
    is absent or empty, or when, unwrapped, it holds no brace (part_008: no
    brace and no bracket), the text is [{}], which parses to the empty
    object.  Otherwise the text is the repair of the input from its root
    character on (in part_008 the first brace or bracket, in
    src/services/geminiService.ts the first brace); that it parses is not
    promised. *)
Theorem no_root_gives_the_empty_object :
  JSON.parse empty_object = Some (JObj [])
  /\ GeminiService.cleanJsonString None = empty_object
  /\ GeminiServiceV31.cleanJsonString None = empty_object
  /\ GeminiService.cleanJsonString (Some []) = empty_object
  /\ GeminiServiceV31.cleanJsonString (Some []) = empty_object
  /\ forall text,
      (~ In c_lbrace (unwrap text) ->
       GeminiService.cleanJsonString (Some text) = empty_object)
      /\ (~ In c_lbrace (unwrap text) -> ~ In c_lbracket (unwrap text) ->
          GeminiServiceV31.cleanJsonString (Some text) = empty_object)
      /\ (forall pre rest,
             text <> [] ->
             unwrap text = (pre ++ c_lbrace :: rest)%list ->
             ~ In c_lbrace pre ->
             GeminiService.cleanJsonString (Some text)
             = postprocess
                 (repair (scan false (c_lbrace :: rest) 0
                               (scan_init (c_lbrace :: rest)))))
      /\ (forall pre c rest,
             text <> [] ->
             unwrap text = (pre ++ c :: rest)%list ->
             c = c_lbrace \/ c = c_lbracket ->
             ~ In c_lbrace pre -> ~ In c_lbracket pre ->
             GeminiServiceV31.cleanJsonString (Some text)
             = postprocess
                 (repair (scan true (c :: rest) 0 (scan_init (c :: rest))))).
Proof.
  split; [vm_compute; reflexivity|].
  do 4 (split; [reflexivity|]).
  intros text. destruct text as [|t0 text'].
  - split; [reflexivity|]. split; [reflexivity|].
    split; intros; contradiction.
  - assert (Hne : t0 :: text' <> []) by discriminate.
    pose proof (RootSearch.gs_root Hne) as [G1 G2].
    pose proof (RootSearch.v31_root Hne) as [V1 V2].
    split; [exact G1|]. split; [exact V1|].
    split.
    + intros pre rest _ E H. exact (G2 pre rest E H).
    + intros pre c rest _ E Hc H1 H2. exact (V2 pre c rest E Hc H1 H2).
Qed.

Lemma no_root_gives_the_empty_object_witness :
  GeminiService.cleanJsonString (Some (js "not json at all")) = js "{}"
  /\ GeminiServiceV31.cleanJsonString (Some (js "not json at all"))
     = js "{}".
Proof.
  pose proof (proj2 (proj2 (proj2 (proj2 (proj2
                no_root_gives_the_empty_object))))
                (js "not json at all")) as (G & V & _).
  split.
  - apply G. vm_compute. intuition discriminate.
  - apply V; vm_compute; intuition discriminate.
Defined.

(* ================================================================== *)
(** ** C4: texts that already parse *)
(* ================================================================== *)

(** The lexer and the replacements: the four replacements of the [return]
    leave the tokens of a text as they are, provided no comma stands before
    a closer and the strings are [untouched]. *)

Module LexFacts.

Import JS JSON Repair Runtime Spec Tokens.
Local Open Scope N_scope.

Lemma cons_opt_some {A} (a : A) r l :
  cons_opt a r = Some l -> exists l', r = Some l' /\ l = a :: l'.
Proof. destruct r; simpl; intros H; inversion H. eauto. Qed.

Lemma tokenize_fuel_Lex n : forall s ts,
  tokenize_fuel n s = Some ts -> Lex s ts.
Proof.
  induction n as [|n IH]; intros s ts; [discriminate|].
  cbn [tokenize_fuel]. destruct s as [|c r].
  - intros H. inversion H. constructor.
  - destruct (is_json_ws c) eqn:W.
    { intros H. apply Lex_ws; auto. }
    destruct (c =? c_lbrace) eqn:E1.
    { intros H. apply cons_opt_some in H as (l & H & ->).
      apply Lex_punct; auto. unfold punct. rewrite E1. reflexivity. }
    destruct (c =? c_rbrace) eqn:E2.
    { intros H. apply cons_opt_some in H as (l & H & ->).
      apply Lex_punct; auto. unfold punct. rewrite E1, E2. reflexivity. }
    destruct (c =? c_lbracket) eqn:E3.
    { intros H. apply cons_opt_some in H as (l & H & ->).
      apply Lex_punct; auto. unfold punct. rewrite E1, E2, E3. reflexivity. }
    destruct (c =? c_rbracket) eqn:E4.
    { intros H. apply cons_opt_some in H as (l & H & ->).
      apply Lex_punct; auto. unfold punct.
      rewrite E1, E2, E3, E4. reflexivity. }
    destruct (c =? c_comma) eqn:E5.
    { intros H. apply cons_opt_some in H as (l & H & ->).
      apply Lex_punct; auto. unfold punct.
      rewrite E1, E2, E3, E4, E5. reflexivity. }
    destruct (c =? c_colon) eqn:E6.
    { intros H. apply cons_opt_some in H as (l & H & ->).
      apply Lex_punct; auto. unfold punct.
      rewrite E1, E2, E3, E4, E5, E6. reflexivity. }
    assert (P : punct c = None).
    { unfold punct. rewrite E1, E2, E3, E4, E5, E6. reflexivity. }
    destruct (c =? c_quote) eqn:E7.
    { apply N.eqb_eq in E7. subst c.
      destruct (lex_string r) as [[x r']|] eqn:L; [|discriminate].
      intros H. apply cons_opt_some in H as (l & H & ->).
      eapply Lex_str; eauto. }
    apply N.eqb_neq in E7.
    destruct ((c =? 45) || is_digit c) eqn:D.
    { destruct (lex_number (c :: r)) as [[m r']|] eqn:L; [|discriminate].
      intros H. apply cons_opt_some in H as (l & H & ->).
      eapply Lex_num; eauto. }
    intros H.
    assert (K : exists t r', keyword (c :: r) = Some (t, r')
                             /\ exists l, tokenize_fuel n r' = Some l
                                          /\ ts = t :: l).
    { unfold keyword.
      destruct (startsWith (c :: r) (str "true")).
      { apply cons_opt_some in H as (l & H & ->). eauto 6. }
      destruct (startsWith (c :: r) (str "false")).
      { apply cons_opt_some in H as (l & H & ->). eauto 6. }
      destruct (startsWith (c :: r) (str "null")); [|discriminate].
      apply cons_opt_some in H as (l & H & ->). eauto 6. }
    destruct K as (t & r' & K & l & Hl & ->).
    eapply Lex_kw; eauto.
Qed.

Lemma tokenize_Lex s ts : tokenize s = Some ts -> Lex s ts.
Proof. apply tokenize_fuel_Lex. Qed.

Lemma cons_fst_some {A B} (a : A) (r : option (list A * B)) l b :
  cons_fst a r = Some (l, b) -> exists l', r = Some (l', b) /\ l = a :: l'.
Proof.
  destruct r as [[l0 b0]|]; simpl; intros H; inversion H. eauto.
Qed.

Lemma lex_string_raw_len n : forall r x r',
  (List.length r <= n)%nat ->
  lex_string r = Some (x, r') ->
  exists raw, r = (raw ++ c_quote :: r')%list /\ Raw raw x.
Proof.
  induction n as [|n IH]; intros r x r' Hn.
  - destruct r; [discriminate|simpl in Hn; lia].
  - destruct r as [|c r]; [discriminate|]. simpl in Hn.
    cbn [lex_string].
    destruct (N.eqb_spec c c_quote) as [->|Q].
    { intros H. inversion H; subst. exists []. split; [reflexivity|constructor]. }
    destruct (N.eqb_spec c c_backslash) as [->|B].
    { destruct r as [|e r1]; [discriminate|].
      destruct (simple_escape e) as [d|] eqn:SE.
      { intros H. apply cons_fst_some in H as (l & H & ->).
        apply IH in H as (raw & -> & R); [|simpl in Hn; lia].
        exists (c_backslash :: e :: raw). split; [reflexivity|].
        apply Raw_esc; assumption. }
      destruct (e =? 117) eqn:U; [|discriminate].
      apply N.eqb_eq in U. subst e.
      destruct r1 as [|h1 [|h2 [|h3 [|h4 r2]]]]; try discriminate.
      destruct (hex_val h1) as [a|] eqn:H1; [|discriminate].
      destruct (hex_val h2) as [b|] eqn:H2; [|discriminate].
      destruct (hex_val h3) as [c|] eqn:H3; [|discriminate].
      destruct (hex_val h4) as [d|] eqn:H4; [|discriminate].
      intros H. apply cons_fst_some in H as (l & H & ->).
      apply IH in H as (raw & -> & R); [|simpl in Hn; lia].
      exists (c_backslash :: 117 :: h1 :: h2 :: h3 :: h4 :: raw).
      split; [reflexivity|]. eapply Raw_uni; eassumption. }
    destruct (c <? 32) eqn:C; [discriminate|].
    intros H. apply cons_fst_some in H as (l & H & ->).
    apply IH in H as (raw & -> & R); [|lia].
    exists (c :: raw). split; [reflexivity|].
    apply Raw_lit; assumption.
Qed.

Lemma lex_string_raw r x r' :
  lex_string r = Some (x, r') ->
  exists raw, r = (raw ++ c_quote :: r')%list /\ Raw raw x.
Proof. apply (@lex_string_raw_len (List.length r)). lia. Qed.

Lemma raw_lex raw x :
  Raw raw x -> forall rest,
  lex_string (raw ++ c_quote :: rest) = Some (x, rest).
Proof.
  induction 1 as [|c raw x Q B C R IH|e d raw x SE R IH
                  |h1 h2 h3 h4 a b c d raw x H1 H2 H3 H4 R IH]; intros rest.
  - reflexivity.
  - cbn [app lex_string].
    destruct (N.eqb_spec c c_quote); [contradiction|].
    destruct (N.eqb_spec c c_backslash); [contradiction|].
    rewrite C, IH. reflexivity.
  - cbn [app lex_string].
    change (c_backslash =? c_quote) with false.
    change (c_backslash =? c_backslash) with true. cbv iota.
    rewrite SE, IH. reflexivity.
  - cbn [app lex_string].
    change (c_backslash =? c_quote) with false.
    change (c_backslash =? c_backslash) with true. cbv iota.
    change (simple_escape 117) with (@None char). cbv iota.
    change (117 =? 117) with true. cbv iota.
    rewrite H1, H2, H3, H4, IH. reflexivity.
Qed.

Lemma lex_string_shorter r x r' :
  lex_string r = Some (x, r') -> (List.length r' < List.length r)%nat.
Proof.
  intros H. apply lex_string_raw in H as (raw & -> & _).
  rewrite length_app. simpl. lia.
Qed.

Lemma agree_app w r2 r : agree r2 r -> agree (w ++ r2) (w ++ r).
Proof.
  destruct w as [|c w]; [trivial|]. intros _. left. reflexivity.
Qed.

Lemma read_digits_spec : forall s acc v k rest,
  read_digits s acc = (v, k, rest) ->
  exists ds, s = (ds ++ rest)%list /\ List.length ds = k
             /\ forallb word_char ds = true
             /\ (forall c r, s = c :: r -> is_digit c = true -> k <> O)
             /\ no_digit_head rest
             /\ forall r2, no_digit_head r2 ->
                           read_digits (ds ++ r2) acc = (v, k, r2).
Proof.
  induction s as [|c s IH]; intros acc v k rest; cbn [read_digits].
  - intros H. inversion H; subst. exists []. repeat split; try discriminate.
    intros r2 Hr. destruct r2 as [|d r2]; [reflexivity|].
    simpl in *. rewrite Hr. reflexivity.
  - destruct (is_digit c) eqn:D.
    + destruct (read_digits s (acc * 10 + (c - 48))) as [[v0 k0] rest0] eqn:E.
      intros H. inversion H; subst. clear H.
      apply IH in E as (ds & -> & L & W & _ & N & F).
      exists (c :: ds). split; [reflexivity|]. split; [simpl; lia|].
      split; [simpl; unfold word_char at 1; rewrite D; exact W|].
      split; [intros; discriminate|]. split; [exact N|].
      intros r2 Hr. cbn [app read_digits]. rewrite D, (F r2 Hr). reflexivity.
    + intros H. inversion H; subst. exists [].
      split; [reflexivity|]. split; [reflexivity|]. split; [reflexivity|].
      split; [intros c0 r0 E; inversion E; subst; congruence|].
      split; [exact D|].
      intros r2 Hr. destruct r2 as [|d r2]; [reflexivity|].
      simpl in *. rewrite Hr. reflexivity.
Qed.

Lemma agree_no_digit r2 r : no_digit_head r -> agree r2 r -> no_digit_head r2.
Proof.
  intros N [H|H].
  - destruct r2 as [|c r2]; [exact I|]. destruct r as [|d r]; [discriminate|].
    simpl in H. inversion H; subst. exact N.
  - destruct r2 as [|c r2]; [exact I|]. simpl in *.
    destruct (is_digit c); [discriminate|reflexivity].
Qed.

Lemma lex_int_spec s m rest :
  lex_int s = Some (m, rest) ->
  exists w, s = (w ++ rest)%list /\ w <> [] /\ forallb word_char w = true
            /\ (forall c w', w = c :: w' -> is_digit c = true)
            /\ forall r2, agree r2 rest -> lex_int (w ++ r2) = Some (m, r2).
Proof.
  unfold lex_int. destruct s as [|c r]; [discriminate|].
  destruct (N.eqb_spec c 48) as [->|Z].
  - intros H. inversion H; subst. exists [48].
    repeat split; try discriminate.
    intros c w' E. inversion E. reflexivity.
  - destruct (is_digit c) eqn:D; [|discriminate].
    destruct (read_digits (c :: r) 0) as [[v k] rest0] eqn:E.
    intros H. inversion H; subst. clear H.
    pose proof E as E0.
    apply read_digits_spec in E as (ds & Es & L & W & K & N & F).
    destruct ds as [|d ds].
    { exfalso. simpl in L. exact (K c r eq_refl D (eq_sym L)). }
    exists (d :: ds). simpl in Es. inversion Es; subst.
    split; [reflexivity|]. split; [discriminate|]. split; [exact W|].
    split; [intros c0 w' E; inversion E; subst; exact D|].
    intros r2 A. cbn [app].
    destruct (N.eqb_spec d 48); [contradiction|]. rewrite D.
    change (d :: (ds ++ r2)%list) with ((d :: ds) ++ r2)%list.
    rewrite (F r2 (@agree_no_digit _ _ N A)). reflexivity.
Qed.

Lemma agree_not c r2 r :
  (forall s, num_stop (c :: s) = false) ->
  hd_error r <> Some c -> agree r2 r -> hd_error r2 <> Some c.
Proof.
  intros S H [A|A].
  - congruence.
  - intros E. destruct r2 as [|d r2]; [discriminate|].
    simpl in E. inversion E; subst. rewrite S in A. discriminate.
Qed.

Lemma lex_frac_spec m s m' k rest :
  lex_frac m s = Some (m', k, rest) ->
  exists w, s = (w ++ rest)%list /\ forallb word_char w = true
            /\ forall r2, agree r2 rest ->
                          lex_frac m (w ++ r2) = Some (m', k, r2).
Proof.
  unfold lex_frac. destruct s as [|c r].
  - intros H. inversion H; subst. exists []. repeat split.
    intros r2 A. destruct r2 as [|d r2]; [reflexivity|]. cbn [app].
    destruct (N.eqb_spec d 46) as [->|]; [|reflexivity].
    destruct A as [A|A]; discriminate.
  - destruct (N.eqb_spec c 46) as [->|Z].
    + destruct (read_digits r m) as [[v k0] rest0] eqn:E.
      destruct k0 as [|k0]; [discriminate|].
      intros H. inversion H; subst. clear H.
      apply read_digits_spec in E as (ds & -> & L & W & _ & N & F).
      exists (46 :: ds). split; [reflexivity|]. split; [exact W|].
      intros r2 A. cbn [app]. change (46 =? 46) with true. cbv iota.
      rewrite (F r2 (@agree_no_digit _ _ N A)). reflexivity.
    + intros H. inversion H; subst. exists []. repeat split.
      intros r2 A. cbn [app]. destruct r2 as [|d r2]; [reflexivity|].
      destruct (N.eqb_spec d 46) as [->|]; [|reflexivity].
      exfalso. refine (@agree_not 46 _ _ _ _ A eq_refl).
      * intros s. reflexivity.
      * simpl. congruence.
Qed.

Lemma read_digits_some r1 v k rest :
  read_digits r1 0 = (v, S k, rest) ->
  exists d ds, r1 = (d :: ds ++ rest)%list /\ is_digit d = true
               /\ forallb word_char (d :: ds) = true
               /\ no_digit_head rest
               /\ forall r2, no_digit_head r2 ->
                    read_digits (d :: ds ++ r2) 0 = (v, S k, r2).
Proof.
  intros R. pose proof R as R0.
  apply read_digits_spec in R as (ds & E1 & L & W & _ & N & F).
  destruct ds as [|d0 ds]; [simpl in L; discriminate|].
  exists d0, ds. subst r1. split; [reflexivity|]. split.
  { cbn [app read_digits] in R0.
    destruct (is_digit d0); [reflexivity|]. inversion R0. }
  split; [exact W|]. split; [exact N|]. exact F.
Qed.

Lemma lex_exp_spec s e rest :
  lex_exp s = Some (e, rest) ->
  exists w, s = (w ++ rest)%list /\ forallb word_char w = true
            /\ forall r2, agree r2 rest -> lex_exp (w ++ r2) = Some (e, r2).
Proof.
  unfold lex_exp. destruct s as [|c r].
  - intros H. inversion H; subst. exists []. repeat split.
    intros r2 A. destruct r2 as [|d r2]; [reflexivity|]. cbn [app].
    destruct ((d =? 101) || (d =? 69)) eqn:E; [|reflexivity].
    destruct A as [A|A]; [discriminate|]. simpl in A.
    rewrite <- orb_assoc, E, !orb_true_r in A. discriminate.
  - destruct ((c =? 101) || (c =? 69)) eqn:E.
    + assert (Wc : word_char c = true).
      { unfold word_char. rewrite <- !orb_assoc.
        apply orb_true_iff in E as [E|E]; rewrite E;
          rewrite ?orb_true_r; reflexivity. }
      destruct r as [|d r0].
      { cbn [read_digits]. discriminate. }
      destruct (N.eqb_spec d 45) as [->|N45];
        [|destruct (N.eqb_spec d 43) as [->|N43]].
      * destruct (read_digits r0 0) as [[v k] rest0] eqn:R.
        destruct k as [|k]; [discriminate|].
        intros H. inversion H; subst e rest0. clear H.
        apply read_digits_some in R as (d0 & ds & -> & D0 & W & N & F).
        exists (c :: 45 :: d0 :: ds). split; [reflexivity|]. split.
        { cbn [forallb] in *. rewrite Wc, W. reflexivity. }
        intros r2 A. cbn [app]. rewrite E. change (45 =? 45) with true.
        cbv iota. rewrite (F r2 (@agree_no_digit _ _ N A)). reflexivity.
      * destruct (read_digits r0 0) as [[v k] rest0] eqn:R.
        destruct k as [|k]; [discriminate|].
        intros H. inversion H; subst e rest0. clear H.
        apply read_digits_some in R as (d0 & ds & -> & D0 & W & N & F).
        exists (c :: 43 :: d0 :: ds). split; [reflexivity|]. split.
        { cbn [forallb] in *. rewrite Wc, W. reflexivity. }
        intros r2 A. cbn [app]. rewrite E. change (43 =? 45) with false.
        change (43 =? 43) with true.
        cbv iota. rewrite (F r2 (@agree_no_digit _ _ N A)). reflexivity.
      * destruct (read_digits (d :: r0) 0) as [[v k] rest0] eqn:R.
        destruct k as [|k]; [discriminate|].
        intros H. inversion H; subst e rest0. clear H.
        apply read_digits_some in R as (d0 & ds & Er & D0 & W & N & F).
        inversion Er; subst d0 r0. clear Er.
        exists (c :: d :: ds). split; [reflexivity|]. split.
        { cbn [forallb] in *. rewrite Wc, W. reflexivity. }
        intros r2 A. cbn [app]. rewrite E.
        destruct (N.eqb_spec d 45); [contradiction|].
        destruct (N.eqb_spec d 43); [contradiction|].
        rewrite (F r2 (@agree_no_digit _ _ N A)). reflexivity.
    + intros H. inversion H; subst. exists []. repeat split.
      intros r2 A. cbn [app]. destruct r2 as [|d r2]; [reflexivity|].
      destruct ((d =? 101) || (d =? 69)) eqn:E2; [|reflexivity].
      exfalso. destruct A as [A|A].
      * simpl in A. inversion A; subst. congruence.
      * simpl in A. rewrite <- orb_assoc, E2, !orb_true_r in A. discriminate.
Qed.

(** The number lexer reads a word of number characters and is indifferent
    to what follows it, as far as the continuations agree. *)
Lemma lex_number_spec s n rest :
  lex_number s = Some (n, rest) ->
  exists w, s = (w ++ rest)%list /\ w <> [] /\ forallb word_char w = true
            /\ forall r2, agree r2 rest -> lex_number (w ++ r2) = Some (n, r2).
Proof.
  unfold lex_number.
  set (p := match s with
            | [] => (false, s)
            | c :: r => if c =? 45 then (true, r) else (false, s)
            end).
  destruct p as [ng s1] eqn:P.
  destruct (lex_int s1) as [[m s2]|] eqn:I; [|discriminate].
  destruct (lex_frac m s2) as [[[m' k] s3]|] eqn:Fr; [|discriminate].
  destruct (lex_exp s3) as [[e s4]|] eqn:Ex; [|discriminate].
  intros H. inversion H; subst n rest. clear H.
  apply lex_int_spec in I as (w1 & -> & N1 & W1 & D1 & F1).
  apply lex_frac_spec in Fr as (w2 & -> & W2 & F2).
  apply lex_exp_spec in Ex as (w3 & -> & W3 & F3).
  assert (T : forall r2, agree r2 s4 ->
              match lex_int (w1 ++ w2 ++ w3 ++ r2) with
              | Some (m, s2) =>
                  match lex_frac m s2 with
                  | Some (m', k, s3) =>
                      match lex_exp s3 with
                      | Some (e, s4) =>
                          Some (mkNumber ng m' (e - Z.of_nat k), s4)
                      | None => None
                      end
                  | None => None
                  end
              | None => None
              end = Some (mkNumber ng m' (e - Z.of_nat k), r2)).
  { intros r2 A.
    rewrite (F1 (w2 ++ w3 ++ r2)%list).
    2:{ apply agree_app. apply agree_app. exact A. }
    rewrite (F2 (w3 ++ r2)%list).
    2:{ apply agree_app. exact A. }
    rewrite (F3 r2 A). reflexivity. }
  subst p. destruct s as [|c r].
  - inversion P; subst. destruct w1; [contradiction|discriminate].
  - destruct (N.eqb_spec c 45) as [->|N45].
    + inversion P; subst. exists (45 :: w1 ++ w2 ++ w3).
      split; [cbn [app]; rewrite <- !app_assoc; reflexivity|].
      split; [discriminate|]. split.
      { cbn [forallb]. rewrite !forallb_app, W1, W2, W3. reflexivity. }
      intros r2 A. cbn [app]. change (45 =? 45) with true. cbv iota.
      rewrite <- !app_assoc. apply T. exact A.
    + inversion P; subst. exists (w1 ++ w2 ++ w3)%list.
      split; [rewrite <- !app_assoc; exact H1|].
      split; [destruct w1; [contradiction|discriminate]|]. split.
      { rewrite !forallb_app, W1, W2, W3. reflexivity. }
      intros r2 A. destruct w1 as [|d w1]; [contradiction|].
      cbn [app]. rewrite <- ?app_assoc in H1. cbn [app] in H1.
      inversion H1; subst d.
      destruct (N.eqb_spec c 45); [contradiction|].
      change (c :: (w1 ++ (w2 ++ w3) ++ r2)%list)
        with ((c :: w1) ++ (w2 ++ w3) ++ r2)%list.
      rewrite <- !app_assoc. apply T. exact A.
Qed.

Lemma word_char_plain c : word_char c = true -> plain_char c = true.
Proof.
  unfold word_char, is_digit. intros H.
  assert (R : (48 <= c <= 57) \/ c = 45 \/ c = 43 \/ c = 46 \/ c = 101
              \/ c = 69).
  { repeat (apply orb_true_iff in H as [H|H]);
      try (apply N.eqb_eq in H; tauto).
    apply andb_true_iff in H as [A B].
    apply N.leb_le in A. apply N.leb_le in B. left. lia. }
  unfold plain_char, isWhiteSpace, c_quote, c_backslash, c_lbrace, c_rbrace,
    c_lbracket, c_rbracket, c_comma, c_colon.
  apply negb_true_iff.
  repeat (apply orb_false_iff; split);
    try (apply N.eqb_neq; lia);
    try (apply andb_false_iff; left; apply N.leb_gt; lia).
Qed.

Lemma words_plain w : forallb word_char w = true -> forallb plain_char w = true.
Proof.
  induction w as [|c w IH]; simpl; [reflexivity|].
  intros H. apply andb_true_iff in H as [A B].
  rewrite (word_char_plain _ A), (IH B). reflexivity.
Qed.

Lemma startsWith_app s p :
  startsWith s p = true -> s = (p ++ skipn (List.length p) s)%list.
Proof.
  revert s; induction p as [|x p IH]; intros s; [reflexivity|].
  destruct s as [|y s]; [discriminate|]. simpl.
  intros H. apply andb_true_iff in H as [A B].
  apply N.eqb_eq in A. subst y. f_equal. apply IH. exact B.
Qed.

Lemma startsWith_head c w p :
  startsWith (c :: w) p = true -> hd c p = c.
Proof.
  destruct p as [|d p]; [reflexivity|]. cbn [startsWith hd].
  intros H. apply andb_true_iff in H as [H _]. apply N.eqb_eq in H. exact H.
Qed.

Lemma startsWith_prefix p r : startsWith (p ++ r) p = true.
Proof.
  induction p as [|x p IH]; [destruct r; reflexivity|]. simpl.
  rewrite N.eqb_refl. exact IH.
Qed.

Lemma skipn_prefix {A} (p r : list A) : skipn (List.length p) (p ++ r) = r.
Proof. induction p; simpl; auto. Qed.

Lemma keyword_spec s t r' :
  keyword s = Some (t, r') ->
  exists w, s = (w ++ r')%list /\ w <> [] /\ forallb plain_char w = true
            /\ forall r2, keyword (w ++ r2) = Some (t, r2).
Proof.
  unfold keyword.
  destruct (startsWith s (str "true")) eqn:E1.
  { intros H. inversion H; subst. apply startsWith_app in E1.
    exists (str "true"). split; [exact E1|]. split; [discriminate|].
    split; [reflexivity|]. intros r2.
    rewrite startsWith_prefix.
    change 4%nat with (List.length (str "true")).
    rewrite skipn_prefix. reflexivity. }
  destruct (startsWith s (str "false")) eqn:E2.
  { intros H. inversion H; subst. apply startsWith_app in E2.
    exists (str "false"). split; [exact E2|]. split; [discriminate|].
    split; [reflexivity|]. intros r2.
    change (startsWith (str "false" ++ r2) (str "true")) with false.
    cbv iota. rewrite startsWith_prefix.
    change 5%nat with (List.length (str "false")).
    rewrite skipn_prefix. reflexivity. }
  destruct (startsWith s (str "null")) eqn:E3; [|discriminate].
  intros H. inversion H; subst. apply startsWith_app in E3.
  exists (str "null"). split; [exact E3|]. split; [discriminate|].
  split; [reflexivity|]. intros r2.
  change (startsWith (str "null" ++ r2) (str "true")) with false.
  change (startsWith (str "null" ++ r2) (str "false")) with false.
  cbv iota. rewrite startsWith_prefix.
  change 4%nat with (List.length (str "null")).
  rewrite skipn_prefix. reflexivity.
Qed.

Lemma plain_not_json_ws c : plain_char c = true -> is_json_ws c = false.
Proof.
  unfold plain_char, is_json_ws, isWhiteSpace. intros H.
  apply negb_true_iff in H.
  repeat (apply orb_false_iff in H as [H ?]).
  repeat (apply orb_false_iff; split); assumption.
Qed.

Lemma plain_no_punct c : plain_char c = true -> punct c = None.
Proof.
  unfold plain_char, punct. intros H. apply negb_true_iff in H.
  repeat (apply orb_false_iff in H as [H ?]).
  repeat match goal with E : (_ =? _) = false |- _ => rewrite E; clear E end.
  reflexivity.
Qed.

Lemma plain_not_quote c : plain_char c = true -> c <> c_quote.
Proof.
  unfold plain_char. intros H E. subst c. discriminate.
Qed.

(** A number or a keyword: its text is a word of plain characters, and the
    lexer reads the same token from that word before any continuation that
    agrees with the original. *)
Lemma Lex_word_num c r n r' :
  lex_number (c :: r) = Some (n, r') ->
  (c =? 45) || is_digit c = true ->
  exists w, c :: r = (w ++ r')%list /\ w <> []
            /\ forallb plain_char w = true
            /\ forall r2 ts, agree r2 r' -> Lex r2 ts ->
                             Lex (w ++ r2) (TNum n :: ts).
Proof.
  intros L D. apply lex_number_spec in L as (w & E & N & W & F).
  exists w. split; [exact E|]. split; [exact N|].
  split; [apply words_plain; exact W|].
  intros r2 ts A Lx. destruct w as [|d w]; [contradiction|].
  cbn [app] in *. inversion E; subst d.
  eapply Lex_num; [exact D| |exact Lx].
  exact (F r2 A).
Qed.

Lemma Lex_word_kw c r t r' :
  keyword (c :: r) = Some (t, r') ->
  exists w, c :: r = (w ++ r')%list /\ w <> []
            /\ forallb plain_char w = true
            /\ forall r2 ts, Lex r2 ts -> Lex (w ++ r2) (t :: ts).
Proof.
  intros K. apply keyword_spec in K as (w & E & N & W & F).
  exists w. split; [exact E|]. split; [exact N|]. split; [exact W|].
  intros r2 ts Lx. destruct w as [|d w]; [contradiction|].
  cbn [app] in *. inversion E; subst d.
  cbn [forallb] in W. apply andb_true_iff in W as [Wc _].
  eapply Lex_kw; [| | | | exact (F r2) | exact Lx].
  - apply plain_not_json_ws; exact Wc.
  - apply plain_no_punct; exact Wc.
  - apply plain_not_quote; exact Wc.
  - specialize (F []). rewrite app_nil_r in F. unfold keyword in F.
    cbn [app] in F.
    destruct ((c =? 45) || is_digit c) eqn:D; [|reflexivity].
    exfalso.
    assert (X : c = 116 \/ c = 102 \/ c = 110).
    { destruct (startsWith (c :: w) (str "true")) eqn:E1.
      { apply startsWith_head in E1. left. symmetry. exact E1. }
      destruct (startsWith (c :: w) (str "false")) eqn:E2.
      { apply startsWith_head in E2. right. left. symmetry. exact E2. }
      destruct (startsWith (c :: w) (str "null")) eqn:E3; [|discriminate].
      apply startsWith_head in E3. right. right. symmetry. exact E3. }
    destruct X as [->|[->| ->]]; discriminate.
Qed.

(** From the relation back to the function. *)
Lemma Lex_tokenize_fuel s ts :
  Lex s ts -> forall n, (List.length s < n)%nat -> tokenize_fuel n s = Some ts.
Proof.
  induction 1 as [|c r ts W L IH|c r t ts P L IH|r x r' ts S L IH
                  |c r m r' ts D N L IH|c r t r' ts W P Q D K L IH];
    intros n Hn; (destruct n as [|n]; [lia|]); cbn [tokenize_fuel].
  - reflexivity.
  - rewrite W. apply IH. simpl in Hn. lia.
  - assert (W : is_json_ws c = false).
    { unfold punct in P. unfold is_json_ws.
      repeat match type of P with
             | (if ?c =? ?k then _ else _) = _ =>
                 destruct (N.eqb_spec c k) as [->|]; [reflexivity|]
             end. discriminate. }
    rewrite W. unfold punct in P. simpl in Hn.
    repeat match type of P with
           | (if ?c =? ?k then _ else _) = _ =>
               destruct (c =? k);
                 [inversion P; subst; rewrite IH by lia; reflexivity|]
           end.
    discriminate.
  - change (is_json_ws c_quote) with false.
    change (c_quote =? c_lbrace) with false.
    change (c_quote =? c_rbrace) with false.
    change (c_quote =? c_lbracket) with false.
    change (c_quote =? c_rbracket) with false.
    change (c_quote =? c_comma) with false.
    change (c_quote =? c_colon) with false.
    change (c_quote =? c_quote) with true. cbv iota.
    rewrite S. rewrite IH; [reflexivity|].
    apply lex_string_shorter in S. simpl in Hn. lia.
  - assert (X : is_json_ws c = false /\ punct c = None /\ c <> c_quote).
    { apply orb_true_iff in D as [D|D].
      - apply N.eqb_eq in D. subst c. repeat split; discriminate.
      - assert (Wc : plain_char c = true).
        { apply word_char_plain. unfold word_char. rewrite D. reflexivity. }
        split; [apply plain_not_json_ws; exact Wc|].
        split; [apply plain_no_punct; exact Wc|].
        apply plain_not_quote; exact Wc. }
    destruct X as (W & P & Q). rewrite W. unfold punct in P.
    repeat match type of P with
           | (if ?c =? ?k then _ else _) = _ =>
               destruct (c =? k); [discriminate|]
           end.
    destruct (N.eqb_spec c c_quote); [contradiction|].
    rewrite D, N. rewrite IH; [reflexivity|].
    apply lex_number_spec in N as (w & E & Nw & _).
    assert (Len : List.length (c :: r) = List.length (w ++ r'))
      by (rewrite E; reflexivity).
    rewrite length_app in Len. destruct w; [contradiction|].
    simpl in Len, Hn. unfold jsstring, char in *. lia.
  - rewrite W. unfold punct in P.
    repeat match type of P with
           | (if ?c =? ?k then _ else _) = _ =>
               destruct (c =? k); [discriminate|]
           end.
    destruct (N.eqb_spec c c_quote); [contradiction|].
    rewrite D.
    assert (Len : (List.length r' < List.length (c :: r))%nat).
    { apply keyword_spec in K as (w & E & Nw & _).
      assert (Len : List.length (c :: r) = List.length (w ++ r'))
        by (rewrite E; reflexivity).
      rewrite length_app in Len. destruct w; [contradiction|].
      simpl in Len |- *. unfold jsstring, char in *. lia. }
    unfold keyword in K.
    destruct (startsWith (c :: r) (str "true")).
    { inversion K; subst. rewrite IH; [reflexivity|]. simpl in Hn, Len. unfold jsstring, char in *. lia. }
    destruct (startsWith (c :: r) (str "false")).
    { inversion K; subst. rewrite IH; [reflexivity|]. simpl in Hn, Len. unfold jsstring, char in *. lia. }
    destruct (startsWith (c :: r) (str "null")); [|discriminate].
    inversion K; subst. rewrite IH; [reflexivity|]. simpl in Hn, Len. unfold jsstring, char in *. lia.
Qed.

Lemma Lex_tokenize s ts : Lex s ts -> tokenize s = Some ts.
Proof. intros L. apply Lex_tokenize_fuel; [exact L|lia]. Qed.

(** *** The replacement, step by step *)

Lemma ra_none m c r :
  m (c :: r) = None -> replace_all m 0 (c :: r) = c :: replace_all m 0 r.
Proof. intros H. cbn [replace_all]. rewrite H. reflexivity. Qed.

Lemma ra_some m c r len repl :
  m (c :: r) = Some (len, repl) ->
  replace_all m 0 (c :: r) = (repl ++ replace_all m (pred len) r)%list.
Proof. intros H. cbn [replace_all]. rewrite H. reflexivity. Qed.

Lemma ra_skip m (a b : jsstring) :
  replace_all m (List.length a) (a ++ b) = replace_all m 0 b.
Proof. induction a as [|c a IH]; [reflexivity|exact IH]. Qed.

Lemma ra_plain m x w b :
  triggered m x -> Forall (fun c => c <> x) w ->
  replace_all m 0 (w ++ b) = (w ++ replace_all m 0 b)%list.
Proof.
  intros T. induction 1 as [|c w Hc _ IH]; [reflexivity|].
  cbn [app]. rewrite ra_none by (apply T; exact Hc). rewrite IH. reflexivity.
Qed.

Lemma triggered_char x y : triggered (m_char x y) x.
Proof.
  intros c r H. unfold m_char. destruct (N.eqb_spec c x); [contradiction|].
  reflexivity.
Qed.

Lemma triggered_cc : triggered m_comma_closer c_comma.
Proof.
  intros c r H. unfold m_comma_closer.
  destruct (N.eqb_spec c c_comma); [contradiction|]. reflexivity.
Qed.

Lemma triggered_qcq : triggered m_quote_colon_quote c_quote.
Proof.
  intros c r H. unfold m_quote_colon_quote.
  destruct (N.eqb_spec c c_quote); [contradiction|]. reflexivity.
Qed.

(** *** Facts on characters *)

Lemma json_ws_cases c :
  is_json_ws c = true -> c = 32 \/ c = 9 \/ c = 10 \/ c = 13.
Proof.
  unfold is_json_ws. intros H.
  repeat (apply orb_true_iff in H as [H|H]); apply N.eqb_eq in H; tauto.
Qed.

Lemma json_ws_is_ws c : is_json_ws c = true -> isWhiteSpace c = true.
Proof.
  intros H. apply json_ws_cases in H as [->|[->|[->| ->]]]; reflexivity.
Qed.

Lemma punct_cases c t :
  punct c = Some t ->
  (c = c_lbrace /\ t = TLBrace) \/ (c = c_rbrace /\ t = TRBrace)
  \/ (c = c_lbracket /\ t = TLBracket) \/ (c = c_rbracket /\ t = TRBracket)
  \/ (c = c_comma /\ t = TComma) \/ (c = c_colon /\ t = TColon).
Proof.
  unfold punct.
  repeat match goal with
         | |- (if ?c =? ?k then _ else _) = _ -> _ =>
             destruct (N.eqb_spec c k) as [->|];
               [intros H; inversion H; tauto|]
         end.
  discriminate.
Qed.

Lemma punct_not_ws c t : punct c = Some t -> isWhiteSpace c = false.
Proof.
  intros H. apply punct_cases in H.
  destruct H as [[-> _]|[[-> _]|[[-> _]|[[-> _]|[[-> _]|[-> _]]]]]];
    reflexivity.
Qed.

Lemma plain_not_ws c : plain_char c = true -> isWhiteSpace c = false.
Proof.
  unfold plain_char. intros H. destruct (isWhiteSpace c); [|reflexivity].
  discriminate.
Qed.

Lemma plain_neq c x :
  plain_char x = false -> plain_char c = true -> c <> x.
Proof. intros Hx Hc E. subst. congruence. Qed.

Lemma plain_Forall_neq w x :
  plain_char x = false -> forallb plain_char w = true ->
  Forall (fun c => c <> x) w.
Proof.
  intros Hx H. apply Forall_forall. intros c Hin.
  rewrite forallb_forall in H. exact (plain_neq Hx (H c Hin)).
Qed.

(** The raw text of a string holds no control character. *)
Lemma raw_no_control raw x :
  Raw raw x -> Forall (fun c => (c <? 32) = false) raw.
Proof.
  induction 1 as [|c raw x Q B C R IH|e d raw x SE R IH
                  |h1 h2 h3 h4 a b c d raw x H1 H2 H3 H4 R IH].
  - constructor.
  - constructor; assumption.
  - constructor; [reflexivity|]. constructor; [|exact IH].
    unfold simple_escape in SE.
    repeat match type of SE with
           | (if ?c =? ?k then _ else _) = _ =>
               destruct (N.eqb_spec c k) as [->|]; [reflexivity|]
           end.
    discriminate.
  - assert (G : forall h v, hex_val h = Some v -> (h <? 32) = false).
    { intros h v. unfold hex_val, is_digit.
      destruct (48 <=? h) eqn:A1; simpl.
      - intros _. apply N.leb_le in A1. apply N.ltb_ge. lia.
      - destruct (97 <=? h) eqn:A2; simpl.
        + intros _. apply N.leb_le in A2. apply N.ltb_ge. lia.
        + destruct (65 <=? h) eqn:A3; simpl; [|discriminate].
          intros _. apply N.leb_le in A3. apply N.ltb_ge. lia. }
    repeat (constructor; [first [reflexivity|eapply G; eassumption]|]).
    exact IH.
Qed.

Lemma raw_Forall_neq raw x c :
  Raw raw x -> (c <? 32) = true -> Forall (fun d => d <> c) raw.
Proof.
  intros R Hc. eapply Forall_impl; [|exact (raw_no_control R)].
  intros d Hd E. subst. congruence.
Qed.

Lemma R_char_cons x c r :
  R_char x (c :: r) = (if c =? x then c_space else c) :: R_char x r.
Proof.
  unfold R_char. cbn [replace_all]. unfold m_char at 1.
  destruct (c =? x); reflexivity.
Qed.

Lemma R_char_agree x r :
  x = c_lf \/ x = c_cr -> agree (R_char x r) r.
Proof.
  intros Hx. destruct r as [|c r]; [left; reflexivity|].
  rewrite R_char_cons. destruct (N.eqb_spec c x) as [->|].
  - right. reflexivity.
  - left. reflexivity.
Qed.

Lemma Lex_R_char x s ts :
  x = c_lf \/ x = c_cr -> Lex s ts -> Lex (R_char x s) ts.
Proof.
  intros Hx.
  assert (Xc : (x <? 32) = true) by (destruct Hx as [->| ->]; reflexivity).
  assert (Xp : plain_char x = false) by (destruct Hx as [->| ->]; reflexivity).
  induction 1 as [|c r ts W L IH|c r t ts P L IH|r x0 r' ts S L IH
                  |c r m r' ts D N L IH|c r t r' ts W P Q D K L IH].
  - constructor.
  - rewrite R_char_cons. apply Lex_ws; [|exact IH].
    destruct (c =? x); [reflexivity|exact W].
  - rewrite R_char_cons.
    assert (c <> x).
    { intros ->. apply punct_cases in P.
      destruct Hx as [->| ->];
        destruct P as [[E _]|[[E _]|[[E _]|[[E _]|[[E _]|[E _]]]]]];
        discriminate. }
    destruct (N.eqb_spec c x); [contradiction|].
    apply Lex_punct; assumption.
  - apply lex_string_raw in S as (raw & -> & R).
    rewrite R_char_cons.
    assert (c_quote <> x) by (intros <-; discriminate).
    destruct (N.eqb_spec c_quote x); [contradiction|].
    unfold R_char. rewrite (@ra_plain _ _ _ _ (@triggered_char x [c_space])).
    2:{ exact (@raw_Forall_neq _ _ _ R Xc). }
    fold (R_char x (c_quote :: r')). rewrite R_char_cons.
    destruct (N.eqb_spec c_quote x); [contradiction|].
    eapply Lex_str; [apply raw_lex; exact R|exact IH].
  - destruct (@Lex_word_num _ _ _ _ N D) as (w & E & Nw & Wp & F).
    unfold jsstring, char in *. rewrite E. unfold R_char.
    rewrite (@ra_plain _ _ _ _ (@triggered_char x [c_space])).
    2:{ exact (@plain_Forall_neq _ _ Xp Wp). }
    apply F; [|exact IH]. apply R_char_agree. exact Hx.
  - destruct (@Lex_word_kw _ _ _ _ K) as (w & E & Nw & Wp & F).
    unfold jsstring, char in *. rewrite E. unfold R_char.
    rewrite (@ra_plain _ _ _ _ (@triggered_char x [c_space])).
    2:{ exact (@plain_Forall_neq _ _ Xp Wp). }
    apply F. exact IH.
Qed.

Lemma ws_run_prefix w c r :
  forallb isWhiteSpace w = true -> isWhiteSpace c = false ->
  ws_run (w ++ c :: r) = List.length w
  /\ skipn (List.length w) (w ++ c :: r) = c :: r.
Proof.
  intros W C. induction w as [|d w IH]; cbn [app ws_run List.length skipn].
  - rewrite C. split; reflexivity.
  - cbn [forallb] in W. apply andb_true_iff in W as [Wd Ww].
    rewrite Wd. destruct (IH Ww) as [A B]. rewrite A. split; [reflexivity|].
    exact B.
Qed.

Lemma ws_run_all w :
  forallb isWhiteSpace w = true ->
  ws_run w = List.length w /\ skipn (List.length w) w = [].
Proof.
  intros W. induction w as [|d w IH]; [split; reflexivity|].
  cbn [forallb] in W. apply andb_true_iff in W as [Wd Ww].
  cbn [ws_run List.length skipn]. rewrite Wd.
  destruct (IH Ww) as [A B]. rewrite A. split; [reflexivity|exact B].
Qed.

Lemma json_ws_all w :
  forallb is_json_ws w = true -> forallb isWhiteSpace w = true.
Proof.
  induction w as [|c w IH]; [reflexivity|]. cbn [forallb].
  intros H. apply andb_true_iff in H as [A B].
  rewrite (@json_ws_is_ws c A), (IH B). reflexivity.
Qed.

(** What a text that lexes begins with: white space, and then nothing or
    the head of its first token. *)
Lemma Lex_lookahead s ts :
  Lex s ts ->
  exists w, forallb is_json_ws w = true
    /\ ((ts = [] /\ s = w)
        \/ exists c r t ts',
             ts = t :: ts' /\ s = (w ++ c :: r)%list
             /\ tok_head t c = true /\ isWhiteSpace c = false
             /\ Lex (c :: r) ts).
Proof.
  induction 1 as [|c r ts W L IH|c r t ts P L IH|r x0 r' ts S L IH
                  |c r m r' ts D N L IH|c r t r' ts W P Q D K L IH].
  - exists []. split; [reflexivity|]. left. split; reflexivity.
  - destruct IH as (w & Ww & IH). exists (c :: w). split.
    { cbn [forallb]. rewrite W, Ww. reflexivity. }
    destruct IH as [[-> ->]|(c0 & r0 & t & ts' & -> & -> & H1 & H2 & H3)].
    + left. split; reflexivity.
    + right. exists c0, r0, t, ts'. repeat split; assumption.
  - exists []. split; [reflexivity|]. right. exists c, r, t, ts.
    split; [reflexivity|]. split; [reflexivity|].
    split.
    { apply punct_cases in P.
      destruct P as [[-> ->]|[[-> ->]|[[-> ->]|[[-> ->]|[[-> ->]|[-> ->]]]]]];
        reflexivity. }
    split; [exact (@punct_not_ws c t P)|]. apply Lex_punct; assumption.
  - exists []. split; [reflexivity|]. right.
    exists c_quote, r, (TStr x0), ts. repeat split.
    eapply Lex_str; eassumption.
  - exists []. split; [reflexivity|]. right. exists c, r, (TNum m), ts.
    split; [reflexivity|]. split; [reflexivity|]. split; [exact D|].
    split; [|eapply Lex_num; eassumption].
    apply orb_true_iff in D as [D|D].
    + apply N.eqb_eq in D. subst. reflexivity.
    + apply plain_not_ws. apply word_char_plain. unfold word_char.
      rewrite D. reflexivity.
  - exists []. split; [reflexivity|]. right. exists c, r, t, ts.
    split; [reflexivity|]. split; [reflexivity|].
    assert (G : tok_head t c = true /\ isWhiteSpace c = false).
    { unfold keyword in K.
      destruct (startsWith (c :: r) (str "true")) eqn:E1.
      { inversion K; subst. apply startsWith_head in E1. cbn in E1.
        subst c. split; reflexivity. }
      destruct (startsWith (c :: r) (str "false")) eqn:E2.
      { inversion K; subst. apply startsWith_head in E2. cbn in E2.
        subst c. split; reflexivity. }
      destruct (startsWith (c :: r) (str "null")) eqn:E3; [|discriminate].
      inversion K; subst. apply startsWith_head in E3. cbn in E3.
      subst c. split; reflexivity. }
    destruct G as [G1 G2]. split; [exact G1|]. split; [exact G2|].
    eapply Lex_kw; eassumption.
Qed.

Lemma tok_head_closer t c :
  tok_head t c = true -> (c =? c_rbracket) || (c =? c_rbrace) = true ->
  is_closer t = true.
Proof.
  intros H C. apply orb_true_iff in C as [C|C]; apply N.eqb_eq in C; subst c;
    destruct t; try reflexivity; discriminate.
Qed.

(** A comma that is followed by a token other than a closer is no match. *)
Lemma m_cc_structural r ts :
  Lex r ts ->
  match ts with t :: _ => is_closer t = false | [] => True end ->
  m_comma_closer (c_comma :: r) = None.
Proof.
  intros L H. unfold m_comma_closer.
  change (c_comma =? c_comma) with true. cbv iota.
  destruct (@Lex_lookahead _ _ L) as (w & Ww & [[-> ->]|X]).
  - destruct (@ws_run_all w (@json_ws_all w Ww)) as [A B].
    rewrite A, B. reflexivity.
  - destruct X as (c & r0 & t & ts' & -> & -> & H1 & H2 & _).
    destruct (@ws_run_prefix w c r0 (@json_ws_all w Ww) H2) as [A B].
    rewrite A, B.
    destruct ((c =? c_rbracket) || (c =? c_rbrace)) eqn:C; [|reflexivity].
    rewrite (@tok_head_closer t c H1 C) in H. discriminate.
Qed.

Lemma all_suffixes_and (A B : jsstring -> bool) (s : jsstring) :
  all_suffixes (fun u => A u && B u) s
  = all_suffixes A s && all_suffixes B s.
Proof.
  induction s as [|c s IH]; [reflexivity|]. cbn [all_suffixes]. rewrite IH.
  destruct (A (c :: s)), (B (c :: s)), (all_suffixes A s); reflexivity.
Qed.

Lemma untouched_parts x :
  untouched x = true ->
  Pq (c_quote :: x ++ [c_quote]) = true
  /\ all_suffixes Pcc (x ++ [c_quote]) = true
  /\ all_suffixes Pq (x ++ [c_quote]) = true.
Proof.
  unfold untouched. fold Pcc. fold Pq.
  change (fun s => is_none (m_comma_closer s)
                   && is_none (m_quote_colon_quote s))
    with (fun s => Pcc s && Pq s).
  rewrite all_suffixes_and. cbn [all_suffixes].
  intros H. apply andb_true_iff in H as [A B].
  apply andb_true_iff in A as [_ A]. apply andb_true_iff in B as [B1 B2].
  repeat split; assumption.
Qed.

Lemma is_none_true {A} (o : option A) : is_none o = true -> o = None.
Proof. destruct o; [discriminate|reflexivity]. Qed.

(** The white space at the head of the raw text of a string stands for
    itself. *)
Lemma raw_ws_prefix raw x :
  Raw raw x ->
  exists w raw1 x1,
    raw = (w ++ raw1)%list /\ x = (w ++ x1)%list /\ Raw raw1 x1
    /\ forallb isWhiteSpace w = true
    /\ match raw1 with [] => True | c :: _ => isWhiteSpace c = false end.
Proof.
  induction 1 as [|c raw x Q B C R IH|e d raw x SE R IH
                  |h1 h2 h3 h4 a b c d raw x H1 H2 H3 H4 R IH].
  - exists [], [], []. repeat split. constructor.
  - destruct (isWhiteSpace c) eqn:W.
    + destruct IH as (w & raw1 & x1 & -> & -> & R1 & Ww & Hh).
      exists (c :: w), raw1, x1. repeat split; try assumption.
      cbn [forallb]. rewrite W, Ww. reflexivity.
    + exists [], (c :: raw), (c :: x). repeat split; try assumption.
      apply Raw_lit; assumption.
  - exists [], (c_backslash :: e :: raw), (d :: x). repeat split.
    apply Raw_esc; assumption.
  - exists [], (c_backslash :: 117 :: h1 :: h2 :: h3 :: h4 :: raw),
      ((((a * 16 + b) * 16 + c) * 16 + d) :: x). repeat split.
    eapply Raw_uni; eassumption.
Qed.

Lemma raw_head_lit d raw2 x1 :
  Raw (d :: raw2) x1 -> d <> c_backslash ->
  exists x2, x1 = d :: x2 /\ Raw raw2 x2.
Proof.
  intros R Hd. inversion R; subst; try contradiction. eauto.
Qed.

Lemma raw_head_not_quote e raw x : Raw (e :: raw) x -> e <> c_quote.
Proof.
  intros R. inversion R; subst; try assumption; discriminate.
Qed.

Lemma app_cons_assoc {A} (w r1 : list A) (q : A) (rest : list A) :
  ((w ++ r1) ++ q :: rest = w ++ (r1 ++ q :: rest))%list.
Proof. rewrite <- app_assoc. reflexivity. Qed.

Lemma m_cc_transfer raw x rest :
  Raw raw x ->
  m_comma_closer (c_comma :: raw ++ c_quote :: rest) <> None ->
  m_comma_closer (c_comma :: x ++ [c_quote]) <> None.
Proof.
  intros R. unfold m_comma_closer.
  change (c_comma =? c_comma) with true. cbv iota.
  destruct (raw_ws_prefix R) as (w & raw1 & x1 & -> & -> & R1 & Ww & Hh).
  rewrite !app_cons_assoc.
  destruct raw1 as [|d raw2].
  - cbn [app].
    destruct (@ws_run_prefix w c_quote rest Ww eq_refl) as [A B].
    rewrite A, B. change ((c_quote =? c_rbracket) || (c_quote =? c_rbrace))
      with false. intros H. contradiction.
  - cbn [app].
    destruct (@ws_run_prefix w d (raw2 ++ c_quote :: rest) Ww Hh) as [A B].
    rewrite A, B.
    destruct ((d =? c_rbracket) || (d =? c_rbrace)) eqn:C;
      [|intros H; contradiction].
    intros _.
    assert (Hd : d <> c_backslash).
    { intros ->. discriminate. }
    destruct (raw_head_lit R1 Hd) as (x2 & -> & R2).
    cbn [app].
    destruct (@ws_run_prefix w d (x2 ++ [c_quote]) Ww Hh) as [A' B'].
    rewrite A', B', C. discriminate.
Qed.

Lemma m_qcq_transfer raw x rest :
  Raw raw x ->
  m_quote_colon_quote (c_quote :: raw ++ c_quote :: rest) <> None ->
  m_quote_colon_quote (c_quote :: x ++ [c_quote]) <> None.
Proof.
  intros R. unfold m_quote_colon_quote.
  change (c_quote =? c_quote) with true. cbv iota.
  destruct (raw_ws_prefix R) as (w & raw1 & x1 & -> & -> & R1 & Ww & Hh).
  rewrite !app_cons_assoc.
  destruct raw1 as [|d raw2].
  - cbn [app].
    destruct (@ws_run_prefix w c_quote rest Ww eq_refl) as [A B].
    rewrite A, B. change (c_quote =? c_colon) with false.
    intros H. contradiction.
  - cbn [app].
    destruct (@ws_run_prefix w d (raw2 ++ c_quote :: rest) Ww Hh) as [A B].
    rewrite A, B.
    destruct (N.eqb_spec d c_colon) as [->|]; [|intros H; contradiction].
    assert (Hd : c_colon <> c_backslash) by discriminate.
    destruct (raw_head_lit R1 Hd) as (x2 & -> & R2).
    destruct (raw_ws_prefix R2)
      as (w2 & raw3 & x3 & -> & -> & R3 & Ww2 & Hh2).
    rewrite !app_cons_assoc.
    destruct raw3 as [|e raw4].
    + intros _. inversion R3; subst. cbn [app].
      destruct (@ws_run_prefix w c_colon ((w2 ++ []) ++ [c_quote]) Ww eq_refl)
        as [A' B'].
      rewrite A', B'. change (c_colon =? c_colon) with true. cbv iota.
      rewrite app_nil_r.
      destruct (@ws_run_prefix w2 c_quote [] Ww2 eq_refl) as [A2 B2].
      rewrite A2, B2. change (c_quote =? c_quote) with true. discriminate.
    + cbn [app].
      destruct (@ws_run_prefix w2 e (raw4 ++ c_quote :: rest) Ww2 Hh2)
        as [A2 B2].
      rewrite A2, B2.
      destruct (N.eqb_spec e c_quote) as [->|]; [|intros H; contradiction].
      exfalso. exact (raw_head_not_quote R3 eq_refl).
Qed.

Lemma simple_escape_cases e d :
  simple_escape e = Some d ->
  e = 34 \/ e = 92 \/ e = 47 \/ e = 98 \/ e = 102 \/ e = 110 \/ e = 114
  \/ e = 116.
Proof.
  unfold simple_escape.
  repeat match goal with
         | |- (if ?c =? ?k then _ else _) = _ -> _ =>
             destruct (N.eqb_spec c k) as [->|]; [intros _; tauto|]
         end.
  discriminate.
Qed.

Lemma hex_not h v x :
  hex_val h = Some v -> hex_val x = None -> h <> x.
Proof. intros H1 H2 E. subst. congruence. Qed.

(** Inside a string that the pattern does not touch, the comma pass changes
    nothing. *)
Lemma content_cc raw x :
  Raw raw x -> forall rest,
  all_suffixes Pcc (x ++ [c_quote]) = true ->
  replace_all m_comma_closer 0 (raw ++ c_quote :: rest)
  = (raw ++ c_quote :: replace_all m_comma_closer 0 rest)%list.
Proof.
  induction 1 as [|c raw x Q B C R IH|e d raw x SE R IH
                  |h1 h2 h3 h4 a b c d raw x H1 H2 H3 H4 R IH];
    intros rest S.
  - cbn [app]. apply ra_none. apply triggered_cc. discriminate.
  - cbn [app all_suffixes] in *. apply andb_true_iff in S as [S1 S2].
    rewrite ra_none; [rewrite (IH rest S2); reflexivity|].
    destruct (N.eqb_spec c c_comma) as [->|Hc];
      [|apply triggered_cc; exact Hc].
    destruct (m_comma_closer (c_comma :: raw ++ c_quote :: rest)) eqn:M;
      [|reflexivity].
    exfalso. apply is_none_true in S1.
    refine (@m_cc_transfer raw x rest R _ S1). rewrite M. discriminate.
  - cbn [app all_suffixes] in *. apply andb_true_iff in S as [_ S2].
    rewrite ra_none by (apply triggered_cc; discriminate).
    rewrite ra_none; [rewrite (IH rest S2); reflexivity|].
    apply triggered_cc.
    destruct (simple_escape_cases _ SE)
      as [->|[->|[->|[->|[->|[->|[->| ->]]]]]]]; discriminate.
  - cbn [app all_suffixes] in *. apply andb_true_iff in S as [_ S2].
    rewrite ra_none by (apply triggered_cc; discriminate).
    rewrite ra_none by (apply triggered_cc; discriminate).
    rewrite ra_none by (apply triggered_cc; exact (@hex_not _ _ c_comma H1 eq_refl)).
    rewrite ra_none by (apply triggered_cc; exact (@hex_not _ _ c_comma H2 eq_refl)).
    rewrite ra_none by (apply triggered_cc; exact (@hex_not _ _ c_comma H3 eq_refl)).
    rewrite ra_none by (apply triggered_cc; exact (@hex_not _ _ c_comma H4 eq_refl)).
    rewrite (IH rest S2). reflexivity.
Qed.

(** Inside such a string the quote-colon-quote pass changes nothing either,
    up to the closing quote. *)
Lemma content_q raw x :
  Raw raw x -> forall rest,
  all_suffixes Pq (x ++ [c_quote]) = true ->
  replace_all m_quote_colon_quote 0 (raw ++ c_quote :: rest)
  = (raw ++ replace_all m_quote_colon_quote 0 (c_quote :: rest))%list.
Proof.
  induction 1 as [|c raw x Q B C R IH|e d raw x SE R IH
                  |h1 h2 h3 h4 a b c d raw x H1 H2 H3 H4 R IH];
    intros rest S.
  - reflexivity.
  - cbn [app all_suffixes] in *. apply andb_true_iff in S as [_ S2].
    rewrite ra_none by (apply triggered_qcq; exact Q).
    rewrite (IH rest S2). reflexivity.
  - cbn [app all_suffixes] in *. apply andb_true_iff in S as [S1 S2].
    rewrite ra_none by (apply triggered_qcq; discriminate).
    rewrite ra_none; [rewrite (IH rest S2); reflexivity|].
    destruct (N.eqb_spec e c_quote) as [->|He];
      [|apply triggered_qcq; exact He].
    assert (d = c_quote) by (inversion SE; reflexivity). subst d.
    destruct (m_quote_colon_quote (c_quote :: raw ++ c_quote :: rest)) eqn:M;
      [|reflexivity].
    exfalso. apply is_none_true in S1.
    refine (@m_qcq_transfer raw x rest R _ S1). rewrite M. discriminate.
  - cbn [app all_suffixes] in *. apply andb_true_iff in S as [_ S2].
    rewrite ra_none by (apply triggered_qcq; discriminate).
    rewrite ra_none by (apply triggered_qcq; discriminate).
    rewrite ra_none
      by (apply triggered_qcq; exact (@hex_not _ _ c_quote H1 eq_refl)).
    rewrite ra_none
      by (apply triggered_qcq; exact (@hex_not _ _ c_quote H2 eq_refl)).
    rewrite ra_none
      by (apply triggered_qcq; exact (@hex_not _ _ c_quote H3 eq_refl)).
    rewrite ra_none
      by (apply triggered_qcq; exact (@hex_not _ _ c_quote H4 eq_refl)).
    rewrite (IH rest S2). reflexivity.
Qed.

(** *** The comma pass is the identity on a text that parses *)

Lemma Lex_cc_id s ts :
  Lex s ts -> cc_ok ts = true -> strs_ok ts = true ->
  replace_all m_comma_closer 0 s = s.
Proof.
  induction 1 as [|c r ts W L IH|c r t ts P L IH|r x0 r' ts S L IH
                  |c r m r' ts D N L IH|c r t r' ts W P Q D K L IH];
    intros Hc Hs.
  - reflexivity.
  - rewrite ra_none; [rewrite (IH Hc Hs); reflexivity|].
    apply triggered_cc. intros ->. discriminate.
  - assert (Hc' : cc_ok ts = true).
    { cbn [cc_ok] in Hc. apply andb_true_iff in Hc as [_ Hc]. exact Hc. }
    assert (Hs' : strs_ok ts = true).
    { unfold strs_ok in *. cbn [forallb] in Hs.
      apply andb_true_iff in Hs as [_ Hs]. exact Hs. }
    rewrite ra_none; [rewrite (IH Hc' Hs'); reflexivity|].
    destruct (N.eqb_spec c c_comma) as [->|Hn];
      [|apply triggered_cc; exact Hn].
    apply (@m_cc_structural r ts L).
    assert (t = TComma) by (inversion P; reflexivity). subst t.
    cbn [cc_ok] in Hc. destruct ts as [|t' ts']; [exact I|].
    apply andb_true_iff in Hc as [Hc _]. apply negb_true_iff. exact Hc.
  - apply lex_string_raw in S as (raw & -> & R).
    assert (Hc' : cc_ok ts = true).
    { cbn [cc_ok] in Hc. exact Hc. }
    unfold strs_ok in Hs. cbn [forallb] in Hs.
    apply andb_true_iff in Hs as [U Hs'].
    destruct (untouched_parts _ U) as (_ & U1 & _).
    rewrite ra_none by (apply triggered_cc; discriminate).
    rewrite (content_cc R _ U1). rewrite (IH Hc' Hs'). reflexivity.
  - assert (Hc' : cc_ok ts = true) by (cbn [cc_ok] in Hc; exact Hc).
    assert (Hs' : strs_ok ts = true).
    { unfold strs_ok in *. cbn [forallb] in Hs. exact Hs. }
    destruct (@Lex_word_num _ _ _ _ N D) as (w & E & Nw & Wp & F).
    unfold jsstring, char in *. rewrite E.
    rewrite (@ra_plain _ c_comma _ _ triggered_cc).
    2:{ exact (@plain_Forall_neq _ c_comma eq_refl Wp). }
    rewrite (IH Hc' Hs'). reflexivity.
  - assert (Hc' : cc_ok ts = true).
    { cbn [cc_ok] in Hc. apply andb_true_iff in Hc as [_ Hc]. exact Hc. }
    assert (Hs' : strs_ok ts = true).
    { unfold strs_ok in *. cbn [forallb] in Hs.
      apply andb_true_iff in Hs as [_ Hs]. exact Hs. }
    destruct (@Lex_word_kw _ _ _ _ K) as (w & E & Nw & Wp & F).
    unfold jsstring, char in *. rewrite E.
    rewrite (@ra_plain _ c_comma _ _ triggered_cc).
    2:{ exact (@plain_Forall_neq _ c_comma eq_refl Wp). }
    rewrite (IH Hc' Hs'). reflexivity.
Qed.

Lemma m_qcq_repl s len repl :
  m_quote_colon_quote s = Some (len, repl) ->
  repl = [c_quote; c_colon; c_quote] /\ hd_error s = Some c_quote.
Proof.
  unfold m_quote_colon_quote. destruct s as [|c r]; [discriminate|].
  destruct (N.eqb_spec c c_quote) as [->|]; [|discriminate].
  destruct (skipn (ws_run r) r) as [|d r1]; [discriminate|].
  destruct (d =? c_colon); [|discriminate].
  destruct (skipn (ws_run r1) r1) as [|e r2]; [discriminate|].
  destruct (e =? c_quote); [|discriminate].
  intros H. inversion H. split; reflexivity.
Qed.

Lemma Rq_hd s : hd_error (Rq s) = hd_error s.
Proof.
  destruct s as [|c r]; [reflexivity|]. unfold Rq. cbn [replace_all].
  destruct (m_quote_colon_quote (c :: r)) as [[len repl]|] eqn:M;
    [|reflexivity].
  apply m_qcq_repl in M as [-> H]. rewrite H. reflexivity.
Qed.

Lemma Lex_punct_inv c t r ts :
  punct c = Some t -> Lex (c :: r) ts ->
  exists ts', ts = t :: ts' /\ Lex r ts'.
Proof.
  intros P L.
  assert (Q : c <> c_quote).
  { intros ->. discriminate. }
  inversion L; subst.
  - exfalso. apply punct_not_ws in P. apply json_ws_is_ws in H1. congruence.
  - rewrite P in H1. inversion H1; subst. eauto.
  - contradiction.
  - exfalso. apply punct_cases in P.
    destruct P as [[-> _]|[[-> _]|[[-> _]|[[-> _]|[[-> _]|[-> _]]]]]];
      discriminate.
  - congruence.
Qed.

Lemma Lex_str_inv r ts :
  Lex (c_quote :: r) ts ->
  exists x r' ts', ts = TStr x :: ts' /\ lex_string r = Some (x, r')
                   /\ Lex r' ts'.
Proof.
  intros L. inversion L; subst; try discriminate; try contradiction.
  eauto 6.
Qed.

Lemma tok_head_colon t : tok_head t c_colon = true -> t = TColon.
Proof. destruct t; try discriminate; reflexivity. Qed.

Lemma tok_head_quote t : tok_head t c_quote = true -> exists x, t = TStr x.
Proof. destruct t; try discriminate; eauto. Qed.

Lemma strs_ok_tail t ts : strs_ok (t :: ts) = true -> strs_ok ts = true.
Proof.
  unfold strs_ok. cbn [forallb]. intros H.
  apply andb_true_iff in H as [_ H]. exact H.
Qed.

Lemma strs_ok_head x ts : strs_ok (TStr x :: ts) = true -> untouched x = true.
Proof.
  unfold strs_ok. cbn [forallb]. intros H.
  apply andb_true_iff in H as [H _]. exact H.
Qed.

(** The match at the opening quote of a string that the pattern does not
    touch. *)
Lemma m_qcq_opening raw x rest :
  Raw raw x -> untouched x = true ->
  m_quote_colon_quote (c_quote :: raw ++ c_quote :: rest) = None.
Proof.
  intros R U. destruct (untouched_parts _ U) as (U0 & _ & _).
  unfold Pq in U0. apply is_none_true in U0.
  destruct (m_quote_colon_quote (c_quote :: raw ++ c_quote :: rest)) eqn:M;
    [|reflexivity].
  exfalso. refine (@m_qcq_transfer raw x rest R _ U0). rewrite M.
  discriminate.
Qed.

Lemma Lex_Rq_len n : forall s ts,
  (List.length s <= n)%nat -> Lex s ts -> strs_ok ts = true ->
  Lex (Rq s) ts
  /\ exists out, Rq (c_quote :: s) = c_quote :: out /\ Lex out ts.
Proof.
  induction n as [|n IH]; intros s ts Hn L Hs.
  - destruct s; [|simpl in Hn; lia]. inversion L; subst.
    split; [constructor|]. exists []. split; [reflexivity|constructor].
  - assert (Q : Lex (Rq s) ts).
    { destruct L as [|c r ts W L|c r t ts P L|r x0 r' ts S L
                     |c r m r' ts D N L|c r t r' ts W P Q D K L].
      - constructor.
      - unfold Rq. rewrite ra_none.
        2:{ apply triggered_qcq. intros ->. discriminate. }
        apply Lex_ws; [exact W|].
        apply (IH r ts); [simpl in Hn; lia|exact L|exact Hs].
      - unfold Rq. rewrite ra_none.
        2:{ apply triggered_qcq. intros ->. discriminate. }
        apply Lex_punct; [exact P|].
        apply (IH r ts); [simpl in Hn; lia|exact L|].
        exact (strs_ok_tail _ _ Hs).
      - apply lex_string_raw in S as (raw & -> & R).
        pose proof (strs_ok_head _ _ Hs) as U.
        destruct (untouched_parts _ U) as (_ & _ & U2).
        unfold Rq. rewrite ra_none by (exact (@m_qcq_opening raw x0 r' R U)).
        rewrite (content_q R _ U2).
        destruct (IH r' ts) as [_ (out & E & Lo)];
          [simpl in Hn; rewrite length_app in Hn; simpl in Hn; lia
          |exact L|exact (strs_ok_tail _ _ Hs)|].
        unfold Rq in E. rewrite E.
        eapply Lex_str; [apply raw_lex; exact R|exact Lo].
      - destruct (@Lex_word_num _ _ _ _ N D) as (w & E & Nw & Wp & F).
        assert (Len : (List.length r' <= n)%nat).
        { pose proof (f_equal (@List.length _) E) as X.
          rewrite length_app in X. destruct w; [contradiction|].
          simpl in X, Hn. unfold jsstring, char in *. lia. }
        unfold jsstring, char in *. rewrite E. unfold Rq.
        rewrite (@ra_plain _ c_quote _ _ triggered_qcq).
        2:{ exact (@plain_Forall_neq _ c_quote eq_refl Wp). }
        apply F.
        + left. apply Rq_hd.
        + apply (IH r' ts); [exact Len|exact L|exact (strs_ok_tail _ _ Hs)].
      - destruct (@Lex_word_kw _ _ _ _ K) as (w & E & Nw & Wp & F).
        assert (Len : (List.length r' <= n)%nat).
        { pose proof (f_equal (@List.length _) E) as X.
          rewrite length_app in X. destruct w; [contradiction|].
          simpl in X, Hn. unfold jsstring, char in *. lia. }
        unfold jsstring, char in *. rewrite E. unfold Rq.
        rewrite (@ra_plain _ c_quote _ _ triggered_qcq).
        2:{ exact (@plain_Forall_neq _ c_quote eq_refl Wp). }
        apply F.
        apply (IH r' ts); [exact Len|exact L|exact (strs_ok_tail _ _ Hs)]. }
    split; [exact Q|].
    assert (NoMatch : m_quote_colon_quote (c_quote :: s) = None ->
                      exists out, Rq (c_quote :: s) = c_quote :: out
                                  /\ Lex out ts).
    { intros M. exists (Rq s). split; [|exact Q].
      unfold Rq. apply ra_none. exact M. }
    destruct (@Lex_lookahead _ _ L) as (w & Ww & [[-> ->]|X]).
    { apply NoMatch. unfold m_quote_colon_quote.
      change (c_quote =? c_quote) with true. cbv iota.
      destruct (@ws_run_all w (@json_ws_all w Ww)) as [A B].
      rewrite A, B. reflexivity. }
    destruct X as (c & r1 & t & ts' & -> & -> & H1 & H2 & L1).
    destruct (@ws_run_prefix w c r1 (@json_ws_all w Ww) H2) as [A B].
    destruct (N.eqb_spec c c_colon) as [->|Hc].
    2:{ apply NoMatch. unfold m_quote_colon_quote.
        change (c_quote =? c_quote) with true. cbv iota. rewrite A, B.
        destruct (N.eqb_spec c c_colon); [contradiction|reflexivity]. }
    apply tok_head_colon in H1. subst t.
    destruct (@Lex_punct_inv c_colon TColon r1 _ eq_refl L1)
      as (ts2 & E2 & L2).
    inversion E2; subst ts2. clear E2.
    destruct (@Lex_lookahead _ _ L2) as (w2 & Ww2 & [[-> ->]|X]).
    { apply NoMatch. unfold m_quote_colon_quote.
      change (c_quote =? c_quote) with true. cbv iota. rewrite A, B.
      change (c_colon =? c_colon) with true. cbv iota.
      destruct (@ws_run_all w2 (@json_ws_all w2 Ww2)) as [A2 B2].
      rewrite A2, B2. reflexivity. }
    destruct X as (e & r2 & t2 & ts3 & -> & -> & G1 & G2 & L3).
    destruct (@ws_run_prefix w2 e r2 (@json_ws_all w2 Ww2) G2) as [A2 B2].
    destruct (N.eqb_spec e c_quote) as [->|He].
    2:{ apply NoMatch. unfold m_quote_colon_quote.
        change (c_quote =? c_quote) with true. cbv iota. rewrite A, B.
        change (c_colon =? c_colon) with true. cbv iota. rewrite A2, B2.
        destruct (N.eqb_spec e c_quote); [contradiction|reflexivity]. }
    destruct (Lex_str_inv L3) as (x2 & r3 & ts4 & E4 & S3 & L4).
    inversion E4; subst t2 ts4. clear E4.
    apply lex_string_raw in S3 as (raw2 & -> & R2).
    assert (U : untouched x2 = true).
    { apply strs_ok_tail in Hs. apply strs_ok_head in Hs. exact Hs. }
    destruct (untouched_parts _ U) as (_ & _ & U2).
    destruct (IH r3 ts3) as [_ (out3 & E3 & Lo3)].
    { rewrite !length_app in Hn. cbn [List.length] in Hn.
      rewrite !length_app in Hn. cbn [List.length] in Hn.
      rewrite !length_app in Hn. cbn [List.length] in Hn.
      unfold jsstring, char in *. lia. }
    { exact L4. }
    { apply strs_ok_tail in Hs. apply strs_ok_tail in Hs. exact Hs. }
    exists (c_colon :: c_quote :: raw2 ++ c_quote :: out3)%list. split.
    + unfold Rq.
      assert (M : m_quote_colon_quote
                    (c_quote :: w ++ c_colon :: w2 ++ c_quote :: raw2
                                     ++ c_quote :: r3)
                  = Some (S (List.length w + S (List.length w2 + 1)),
                          [c_quote; c_colon; c_quote])).
      { unfold m_quote_colon_quote.
        change (c_quote =? c_quote) with true. cbv iota. rewrite A, B.
        change (c_colon =? c_colon) with true. cbv iota. rewrite A2, B2.
        change (c_quote =? c_quote) with true. cbv iota. reflexivity. }
      rewrite (ra_some _ _ _ M). cbn [pred app]. do 3 f_equal.
      replace (w ++ c_colon :: w2 ++ c_quote :: raw2 ++ c_quote :: r3)%list
        with ((w ++ c_colon :: w2 ++ [c_quote])
                ++ raw2 ++ c_quote :: r3)%list.
      2:{ rewrite <- !app_assoc. cbn [app]. rewrite <- !app_assoc.
          reflexivity. }
      replace (List.length w + S (List.length w2 + 1))%nat
        with (List.length (w ++ c_colon :: w2 ++ [c_quote])).
      2:{ rewrite !length_app. cbn [List.length]. rewrite !length_app.
          cbn [List.length]. lia. }
      rewrite ra_skip. rewrite (content_q R2 _ U2).
      unfold Rq in E3. rewrite E3. reflexivity.
    + apply Lex_punct; [reflexivity|].
      eapply Lex_str; [apply raw_lex; exact R2|exact Lo3].
Qed.

Lemma Lex_Rq s ts :
  Lex s ts -> strs_ok ts = true -> Lex (Rq s) ts.
Proof.
  intros L Hs.
  exact (proj1 (@Lex_Rq_len (List.length s) s ts (Nat.le_refl _) L Hs)).
Qed.

End LexFacts.

(** The parser and the scanning loop: the tokens of a parsed value are
    balanced, so the loop runs through the root without recording a need
    for repair. *)

Module ScanFacts.

Import JS JSON Repair Runtime Spec Tokens Shape LexFacts RootSearch.
Local Open Scope Z_scope.

Lemma inside_app p q bk :
  inside (p ++ q) bk = inside p bk && inside q (run p bk).
Proof.
  revert bk; induction p as [|t p IH]; intros bk; [reflexivity|].
  cbn [app inside run]. destruct (tstep t bk) as [b k]. rewrite IH.
  rewrite andb_assoc. reflexivity.
Qed.

Lemma run_app p q bk : run (p ++ q) bk = run q (run p bk).
Proof.
  revert bk; induction p as [|t p IH]; intros bk; [reflexivity|].
  cbn [app run]. apply IH.
Qed.

Lemma Body_nil : Body [].
Proof. intros b k _ _ _. split; reflexivity. Qed.

Lemma Body_scalar t :
  match t with
  | TLBrace | TRBrace | TLBracket | TRBracket => False
  | _ => True
  end -> Body [t].
Proof.
  intros H b k Hb Hk Hs. cbn [inside run].
  assert (E : tstep t (b, k) = (b, k)) by (destruct t; tauto || reflexivity).
  rewrite E. split; [|reflexivity].
  destruct (Z.leb_spec 0 b), (Z.leb_spec 0 k), (Z.leb_spec 1 (b + k));
    try lia; try reflexivity.
Qed.

Lemma Body_app p q : Body p -> Body q -> Body (p ++ q).
Proof.
  intros Hp Hq b k Hb Hk Hs.
  destruct (Hp b k Hb Hk Hs) as [A B].
  destruct (Hq b k Hb Hk Hs) as [C D].
  rewrite inside_app, run_app, A, B, C, D. split; reflexivity.
Qed.

Lemma Body_braces mid : Body mid -> Body (TLBrace :: mid ++ [TRBrace]).
Proof.
  intros H b k Hb Hk Hs. cbn [inside run tstep].
  destruct (H (b + 1) k ltac:(lia) Hk ltac:(lia)) as [A B].
  rewrite inside_app, run_app, A, B. cbn [inside run tstep].
  replace (b + 1 - 1) with b by lia. split; [|reflexivity].
  destruct (Z.leb_spec 0 (b + 1)), (Z.leb_spec 0 k),
    (Z.leb_spec 1 (b + 1 + k)), (Z.leb_spec 0 b), (Z.leb_spec 1 (b + k));
    try lia; try reflexivity.
Qed.

Lemma Body_brackets mid : Body mid -> Body (TLBracket :: mid ++ [TRBracket]).
Proof.
  intros H b k Hb Hk Hs. cbn [inside run tstep].
  destruct (H b (k + 1) Hb ltac:(lia) ltac:(lia)) as [A B].
  rewrite inside_app, run_app, A, B. cbn [inside run tstep].
  replace (k + 1 - 1) with k by lia. split; [|reflexivity].
  destruct (Z.leb_spec 0 b), (Z.leb_spec 0 (k + 1)),
    (Z.leb_spec 1 (b + (k + 1))), (Z.leb_spec 0 k), (Z.leb_spec 1 (b + k));
    try lia; try reflexivity.
Qed.

Lemma Good_Body pre v : Good pre v -> Body pre.
Proof.
  intros [[[_ (t & -> & S)]|(mid & B & [[-> _]|[-> _]])] _].
  - apply Body_scalar. destruct t; try discriminate; exact I.
  - apply Body_braces. exact B.
  - apply Body_brackets. exact B.
Qed.

Lemma Good_hd pre v : Good pre v -> hd_ok pre.
Proof.
  intros [[[_ (t & -> & S)]|(mid & B & [[-> _]|[-> _]])] _].
  - destruct t; try discriminate; reflexivity.
  - reflexivity.
  - reflexivity.
Qed.

(** Two stretches that overlap in one token. *)
Lemma cc_ok_app p a q :
  cc_ok (p ++ [a]) = true -> cc_ok (a :: q) = true ->
  cc_ok (p ++ a :: q) = true.
Proof.
  induction p as [|t p IH]; intros H1 H2; [exact H2|].
  cbn [app] in *. cbn [cc_ok] in H1 |- *.
  apply andb_true_iff in H1 as [A B]. rewrite (IH B H2), andb_true_r.
  destruct p as [|t' p]; [exact A|exact A].
Qed.

Lemma cc_ok_cons_other t q :
  t <> TComma -> cc_ok (t :: q) = cc_ok q.
Proof.
  intros H. cbn [cc_ok]. destruct t; try reflexivity. contradiction.
Qed.

Lemma cc_ok_comma q :
  hd_ok q -> cc_ok (TComma :: q) = cc_ok q.
Proof.
  destruct q as [|t q]; [contradiction|]. intros H. cbn [hd_ok] in H.
  change (cc_ok (TComma :: t :: q))
    with (negb (is_closer t) && cc_ok (t :: q)).
  rewrite H. reflexivity.
Qed.

Lemma strs_ok_app p q : strs_ok (p ++ q) = strs_ok p && strs_ok q.
Proof. unfold strs_ok. apply forallb_app. Qed.

Lemma cc_ok_two t a : t <> TComma -> cc_ok [t; a] = true.
Proof.
  intros H. rewrite cc_ok_cons_other by exact H. destruct a; reflexivity.
Qed.

Lemma cc_ok_one a : cc_ok [a] = true.
Proof. destruct a; reflexivity. Qed.

Lemma Good_scalar t v :
  scalar t = true -> is_container v = false ->
  (inert v = true -> strs_ok [t] = true) -> Good [t] v.
Proof.
  intros S C I. split; [left; split; [exact C|]; exists t; split;
                        [reflexivity|exact S]|].
  split; [|exact I].
  intros a. apply cc_ok_two. intros ->. discriminate.
Qed.

Lemma cc_ok_wrap topen body tclose a :
  topen <> TComma -> tclose <> TComma ->
  cc_ok (body ++ [tclose]) = true ->
  cc_ok ((topen :: body ++ [tclose]) ++ [a]) = true.
Proof.
  intros H1 H2 H. cbn [app]. rewrite cc_ok_cons_other by exact H1.
  rewrite <- app_assoc. cbn [app]. apply cc_ok_app; [exact H|].
  apply cc_ok_two. exact H2.
Qed.

Lemma inert_obj_cons k v ms :
  inert (JObj ((k, v) :: ms)) = untouched k && inert v && inert (JObj ms).
Proof. reflexivity. Qed.

Lemma hd_ok_app p q : hd_ok p -> hd_ok (p ++ q).
Proof. destruct p; [contradiction|]. trivial. Qed.

Lemma parse_facts n : PV n /\ PE n /\ PM n.
Proof.
  induction n as [|n (IV & IE & IM)].
  { repeat split; intros ts v rest H; discriminate. }
  split; [|split].
  - (* values *)
    intros ts v rest. cbn [parse_value].
    destruct ts as [|t ts]; [discriminate|].
    destruct t.
    + (* TLBrace *)
      destruct ts as [|t2 ts2].
      { destruct (parse_members n []) as [[ms r']|] eqn:M; [|discriminate].
        apply IM in M as (body & E & _). destruct body; discriminate. }
      assert (Gen : forall l,
                 match parse_members n l with
                 | Some (ms, r') => Some (JObj ms, r')
                 | None => None
                 end = Some (v, rest) ->
                 exists pre, TLBrace :: l = (pre ++ rest)%list /\ Good pre v).
      { intros l. destruct (parse_members n l) as [[ms r']|] eqn:M;
          [|discriminate].
        intros H. inversion H; subst. clear H.
        apply IM in M as (body & -> & B & Hh & Cc & St).
        exists (TLBrace :: body ++ [TRBrace]). split.
        { cbn [app]. rewrite <- app_assoc. reflexivity. }
        split; [right; exists body; split; [exact B|]; left;
                split; reflexivity|].
        split.
        - intros a. apply cc_ok_wrap; [discriminate|discriminate|exact Cc].
        - intros I. specialize (St I).
          change (TLBrace :: body ++ [TRBrace])
            with ([TLBrace] ++ body ++ [TRBrace])%list.
          rewrite !strs_ok_app, St. reflexivity. }
      destruct t2; try (apply Gen).
      intros H. inversion H; subst. clear H.
      exists [TLBrace; TRBrace]. split; [reflexivity|].
      split; [right; exists []; split; [exact Body_nil|]; left;
              split; reflexivity|].
      split; [|reflexivity].
      intros a. apply (@cc_ok_wrap TLBrace [] TRBrace a);
        [discriminate|discriminate|reflexivity].
    + discriminate.
    + (* TLBracket *)
      destruct ts as [|t2 ts2].
      { destruct (parse_elements n []) as [[vs r']|] eqn:M; [|discriminate].
        apply IE in M as (body & E & _). destruct body; discriminate. }
      assert (Gen : forall l,
                 match parse_elements n l with
                 | Some (vs, r') => Some (JArr vs, r')
                 | None => None
                 end = Some (v, rest) ->
                 exists pre, TLBracket :: l = (pre ++ rest)%list
                             /\ Good pre v).
      { intros l. destruct (parse_elements n l) as [[vs r']|] eqn:M;
          [|discriminate].
        intros H. inversion H; subst. clear H.
        apply IE in M as (body & -> & B & Hh & Cc & St).
        exists (TLBracket :: body ++ [TRBracket]). split.
        { cbn [app]. rewrite <- app_assoc. reflexivity. }
        split; [right; exists body; split; [exact B|]; right;
                repeat split; reflexivity|].
        split.
        - intros a. apply cc_ok_wrap; [discriminate|discriminate|exact Cc].
        - intros I. specialize (St I).
          change (TLBracket :: body ++ [TRBracket])
            with ([TLBracket] ++ body ++ [TRBracket])%list.
          rewrite !strs_ok_app, St. reflexivity. }
      destruct t2; try (apply Gen).
      intros H. inversion H; subst. clear H.
      exists [TLBracket; TRBracket]. split; [reflexivity|].
      split; [right; exists []; split; [exact Body_nil|]; right;
              repeat split; reflexivity|].
      split; [|reflexivity].
      intros a. apply (@cc_ok_wrap TLBracket [] TRBracket a);
        [discriminate|discriminate|reflexivity].
    + discriminate.
    + discriminate.
    + discriminate.
    + intros H. inversion H; subst. exists [TStr s]. split; [reflexivity|].
      apply Good_scalar; [reflexivity|reflexivity|].
      intros I. unfold strs_ok. cbn [forallb]. cbn [inert] in I.
      rewrite I. reflexivity.
    + intros H. inversion H; subst. exists [TNum n0]. split; [reflexivity|].
      apply Good_scalar; reflexivity.
    + intros H. inversion H; subst. exists [TTrue]. split; [reflexivity|].
      apply Good_scalar; reflexivity.
    + intros H. inversion H; subst. exists [TFalse]. split; [reflexivity|].
      apply Good_scalar; reflexivity.
    + intros H. inversion H; subst. exists [TNull]. split; [reflexivity|].
      apply Good_scalar; reflexivity.
  - (* elements *)
    intros ts vs rest. cbn [parse_elements].
    destruct (parse_value n ts) as [[v r]|] eqn:V; [|discriminate].
    apply IV in V as (pre & -> & G).
    destruct r as [|t r]; [discriminate|].
    destruct t; try discriminate.
    + (* closing bracket *)
      intros H. inversion H; subst. clear H.
      exists pre. split; [reflexivity|]. split; [exact (Good_Body G)|].
      split; [exact (Good_hd G)|].
      destruct G as (_ & Cc & St). split; [apply Cc|].
      intros I. cbn [forallb] in I. apply andb_true_iff in I as [I _].
      exact (St I).
    + (* comma *)
      intros H. apply cons_fst_some in H as (vs' & M & ->).
      apply IE in M as (body & -> & B & Hh & Cc & St).
      exists (pre ++ TComma :: body)%list. split.
      { rewrite <- app_assoc. reflexivity. }
      split.
      { apply Body_app; [exact (Good_Body G)|].
        change (TComma :: body) with ([TComma] ++ body)%list.
        apply Body_app; [apply Body_scalar; exact I|exact B]. }
      split; [apply hd_ok_app; exact (Good_hd G)|].
      destruct G as (_ & Gc & Gs). split.
      { rewrite <- app_assoc. cbn [app]. apply cc_ok_app; [apply Gc|].
        rewrite cc_ok_comma; [exact Cc|]. apply hd_ok_app. exact Hh. }
      intros I. cbn [forallb] in I. apply andb_true_iff in I as [I1 I2].
      change (TComma :: body) with ([TComma] ++ body)%list.
      rewrite !strs_ok_app, (Gs I1), (St I2). reflexivity.
  - (* members *)
    intros ts ms rest. cbn [parse_members].
    destruct ts as [|t ts]; [discriminate|].
    destruct t; try discriminate.
    destruct ts as [|t2 ts]; [discriminate|].
    destruct t2; try discriminate.
    destruct (parse_value n ts) as [[v r]|] eqn:V; [|discriminate].
    apply IV in V as (pre & -> & G).
    destruct r as [|t r]; [discriminate|].
    destruct t; try discriminate.
    + (* closing brace *)
      intros H. inversion H; subst. clear H.
      exists (TStr s :: TColon :: pre). split; [reflexivity|].
      split.
      { change (TStr s :: TColon :: pre)
          with ([TStr s] ++ [TColon] ++ pre)%list.
        apply Body_app; [apply Body_scalar; exact I|].
        apply Body_app; [apply Body_scalar; exact I|exact (Good_Body G)]. }
      split; [reflexivity|].
      destruct G as (_ & Gc & Gs). split.
      { cbn [app]. rewrite !cc_ok_cons_other by discriminate. apply Gc. }
      intros I. rewrite inert_obj_cons in I.
      apply andb_true_iff in I as [I _]. apply andb_true_iff in I as [I1 I2].
      change (TStr s :: TColon :: pre)
        with ([TStr s] ++ [TColon] ++ pre)%list.
      rewrite !strs_ok_app, (Gs I2). unfold strs_ok at 1. cbn [forallb].
      rewrite I1. reflexivity.
    + (* comma *)
      intros H. apply cons_fst_some in H as (ms' & M & ->).
      apply IM in M as (body & -> & B & Hh & Cc & St).
      exists (TStr s :: TColon :: pre ++ TComma :: body)%list. split.
      { cbn [app]. rewrite <- app_assoc. reflexivity. }
      split.
      { change (TStr s :: TColon :: pre ++ TComma :: body)%list
          with ([TStr s] ++ [TColon] ++ pre ++ [TComma] ++ body)%list.
        apply Body_app; [apply Body_scalar; exact I|].
        apply Body_app; [apply Body_scalar; exact I|].
        apply Body_app; [exact (Good_Body G)|].
        apply Body_app; [apply Body_scalar; exact I|exact B]. }
      split; [reflexivity|].
      destruct G as (_ & Gc & Gs). split.
      { cbn [app]. rewrite !cc_ok_cons_other by discriminate.
        rewrite <- app_assoc. cbn [app]. apply cc_ok_app; [apply Gc|].
        rewrite cc_ok_comma; [exact Cc|]. apply hd_ok_app. exact Hh. }
      intros I. rewrite inert_obj_cons in I.
      apply andb_true_iff in I as [I I3]. apply andb_true_iff in I as [I1 I2].
      change (TStr s :: TColon :: pre ++ TComma :: body)%list
        with ([TStr s] ++ [TColon] ++ pre ++ [TComma] ++ body)%list.
      rewrite !strs_ok_app, (Gs I2), (St I3). unfold strs_ok at 1.
      cbn [forallb]. rewrite I1. reflexivity.
Qed.

(** What a text that parses is made of. *)
Lemma parse_Good s v :
  JSON.parse s = Some v ->
  exists ts, Lex s ts /\ Good ts v
             /\ parse_value (S (List.length ts)) ts = Some (v, []).
Proof.
  unfold JSON.parse. destruct (tokenize s) as [ts|] eqn:T; [|discriminate].
  destruct (parse_value (S (List.length ts)) ts) as [[v0 rest]|] eqn:P;
    [|discriminate].
  destruct rest; [|discriminate]. intros H. inversion H; subst.
  exists ts. split; [apply tokenize_Lex; exact T|]. split; [|exact P].
  destruct (parse_facts (S (List.length ts))) as (IV & _ & _).
  apply IV in P as (pre & E & G). rewrite app_nil_r in E. subst. exact G.
Qed.

Lemma Lex_parse s ts v :
  Lex s ts -> parse_value (S (List.length ts)) ts = Some (v, []) ->
  JSON.parse s = Some v.
Proof.
  intros L P. unfold JSON.parse. rewrite (Lex_tokenize L), P. reflexivity.
Qed.

Lemma not_finish te b k i :
  is_inside b k -> te && (b =? 0) && (k =? 0) && (i >? 0) = false.
Proof.
  intros (Hb & Hk & Hs). destruct te; [|reflexivity]. cbn [andb].
  destruct (Z.eqb_spec b 0); [|reflexivity].
  destruct (Z.eqb_spec k 0); [lia|reflexivity].
Qed.

Lemma not_negative b k :
  0 <= b -> 0 <= k -> (b <? 0) || (k <? 0) = false.
Proof.
  intros Hb Hk. destruct (Z.ltb_spec b 0); [lia|].
  destruct (Z.ltb_spec k 0); [lia|reflexivity].
Qed.

Lemma scan_idle te c r i b k lsp f C :
  idle_char c = true -> is_inside b k ->
  scan te (c :: r) i (out_state b k lsp f C)
  = scan te r (i + 1) (out_state b k lsp f C).
Proof.
  intros Hc Hin. unfold idle_char in Hc. apply negb_true_iff in Hc.
  repeat (apply orb_false_iff in Hc as [Hc ?]).
  unfold out_state. cbn [scan braceCount bracketCount inString escaped
                          lastSafePoint finished cleaned].
  rewrite Hc. cbn [andb negb]. unfold count.
  repeat match goal with E : (_ =? _)%N = false |- _ => rewrite E end.
  unfold is_safe_char.
  repeat match goal with E : (_ =? _)%N = false |- _ => rewrite E end.
  cbn [orb andb]. rewrite !andb_false_r.
  rewrite (not_finish te i Hin).
  destruct Hin as (Hb & Hk & _). rewrite (not_negative Hb Hk). reflexivity.
Qed.

Lemma scan_idle_word te w r i b k lsp f C :
  forallb idle_char w = true -> is_inside b k ->
  scan te (w ++ r) i (out_state b k lsp f C)
  = scan te r (i + Z.of_nat (List.length w)) (out_state b k lsp f C).
Proof.
  revert i; induction w as [|c w IH]; intros i Hw Hin.
  - cbn [app List.length]. f_equal. lia.
  - cbn [forallb] in Hw. apply andb_true_iff in Hw as [Hc Hw].
    cbn [app]. rewrite scan_idle by assumption.
    rewrite IH by assumption. f_equal. cbn [List.length]. lia.
Qed.

Lemma plain_idle c : plain_char c = true -> idle_char c = true.
Proof.
  unfold plain_char, idle_char. intros H. apply negb_true_iff in H.
  repeat (apply orb_false_iff in H as [H ?]).
  apply negb_true_iff.
  repeat match goal with E : (_ =? _)%N = false |- _ => rewrite E end.
  reflexivity.
Qed.

Lemma plain_idle_all w :
  forallb plain_char w = true -> forallb idle_char w = true.
Proof.
  induction w as [|c w IH]; [reflexivity|]. cbn [forallb]. intros H.
  apply andb_true_iff in H as [A B]. rewrite (plain_idle _ A), (IH B).
  reflexivity.
Qed.

Lemma json_ws_idle c : is_json_ws c = true -> idle_char c = true.
Proof.
  intros H. apply json_ws_cases in H as [->|[->|[->| ->]]]; reflexivity.
Qed.

(** A comma marks a safe point. *)
Lemma scan_comma te r i b k lsp f C :
  is_inside b k ->
  scan te (c_comma :: r) i (out_state b k lsp f C)
  = scan te r (i + 1) (out_state b k i f C).
Proof.
  intros Hin. unfold out_state.
  cbn [scan braceCount bracketCount inString escaped lastSafePoint finished
            cleaned].
  change (c_comma =? c_quote)%N with false.
  change (c_comma =? c_backslash)%N with false. cbn [andb negb].
  change (count c_comma (b, k)) with (b, k).
  change (is_safe_char c_comma) with true. cbv beta iota.
  rewrite (not_finish te i Hin).
  destruct Hin as (Hb & Hk & _). rewrite (not_negative Hb Hk).
  destruct (Z.geb_spec b 0); [|lia]. destruct (Z.geb_spec k 0); [|lia].
  reflexivity.
Qed.

(** An opener or a closer whose outcome is still inside. *)
Lemma scan_bracket te c t r i b k lsp f C :
  punct c = Some t -> t <> TComma -> t <> TColon ->
  is_inside (fst (tstep t (b, k))) (snd (tstep t (b, k))) ->
  exists lsp',
    scan te (c :: r) i (out_state b k lsp f C)
    = scan te r (i + 1)
        (out_state (fst (tstep t (b, k))) (snd (tstep t (b, k))) lsp' f C).
Proof.
  intros P H1 H2 Hin. apply punct_cases in P.
  destruct P as [[-> ->]|[[-> ->]|[[-> ->]|[[-> ->]|[[-> ->]|[-> ->]]]]]];
    try contradiction; cbn [tstep fst snd] in *; unfold out_state;
    cbn [scan braceCount bracketCount inString escaped lastSafePoint finished
              cleaned];
    match goal with
    | |- context [count ?c (b, k)] =>
        let v := eval cbn in (count c (b, k)) in
        change (count c (b, k)) with v
    end;
    cbv beta iota;
    match goal with
    | |- context [(?c =? c_quote)%N] =>
        change (c =? c_quote)%N with false;
        change (c =? c_backslash)%N with false
    end; cbn [andb negb];
    rewrite (not_finish te i Hin);
    destruct Hin as (Hb & Hk & Hs); rewrite (not_negative Hb Hk);
    eexists; reflexivity.
Qed.

(** Inside a string the loop only looks for the closing quote. *)
Lemma scan_in_lit te c r i b k lsp f C :
  c <> c_quote -> c <> c_backslash -> 0 <= b -> 0 <= k ->
  scan te (c :: r) i (mkScan b k true false lsp f C)
  = scan te r (i + 1) (mkScan b k true false lsp f C).
Proof.
  intros Q B Hb Hk.
  cbn [scan braceCount bracketCount inString escaped lastSafePoint finished
            cleaned].
  destruct (N.eqb_spec c c_quote); [contradiction|].
  destruct (N.eqb_spec c c_backslash); [contradiction|].
  cbn [andb negb]. rewrite (not_negative Hb Hk). reflexivity.
Qed.

Lemma scan_in_escape te e r i b k lsp f C :
  0 <= b -> 0 <= k ->
  scan te (c_backslash :: e :: r) i (mkScan b k true false lsp f C)
  = scan te r (i + 2) (mkScan b k true false lsp f C).
Proof.
  intros Hb Hk.
  cbn [scan braceCount bracketCount inString escaped lastSafePoint finished
            cleaned].
  change (c_backslash =? c_quote)%N with false.
  change (c_backslash =? c_backslash)%N with true.
  cbn [andb negb]. rewrite !andb_false_r. cbn [negb].
  rewrite (not_negative Hb Hk). replace (i + 1 + 1) with (i + 2) by lia.
  reflexivity.
Qed.

Lemma hex_lit h v : hex_val h = Some v -> h <> c_quote /\ h <> c_backslash.
Proof.
  intros H. split; intros ->; discriminate.
Qed.

Lemma scan_in_string te raw x :
  Raw raw x -> forall r' i b k lsp f C,
  is_inside b k ->
  scan te (raw ++ c_quote :: r') i (mkScan b k true false lsp f C)
  = scan te r' (i + Z.of_nat (List.length raw) + 1) (out_state b k lsp f C).
Proof.
  induction 1 as [|c raw x Q B Cc R IH|e d raw x SE R IH
                  |h1 h2 h3 h4 a b0 c d raw x H1 H2 H3 H4 R IH];
    intros r' i b k lsp f C Hin;
    pose proof Hin as (Hb & Hk & Hs).
  - cbn [app List.length].
    cbn [scan braceCount bracketCount inString escaped lastSafePoint finished
              cleaned].
    change (c_quote =? c_quote)%N with true.
    change (c_quote =? c_backslash)%N with false. cbn [andb negb].
    change (count c_quote (b, k)) with (b, k).
    change (is_safe_char c_quote) with false. cbv beta iota.
    rewrite !andb_false_r. rewrite (not_finish te i Hin).
    rewrite (not_negative Hb Hk). unfold out_state. f_equal. lia.
  - cbn [app List.length]. rewrite scan_in_lit by assumption.
    rewrite IH by assumption. f_equal. lia.
  - cbn [app List.length]. rewrite scan_in_escape by assumption.
    rewrite IH by assumption. f_equal. lia.
  - cbn [app List.length]. rewrite scan_in_escape by assumption.
    destruct (hex_lit _ H1), (hex_lit _ H2), (hex_lit _ H3), (hex_lit _ H4).
    rewrite !scan_in_lit by assumption.
    rewrite IH by assumption. f_equal. lia.
Qed.

Lemma scan_string te raw x r' i b k lsp f C :
  Raw raw x -> is_inside b k ->
  scan te (c_quote :: raw ++ c_quote :: r') i (out_state b k lsp f C)
  = scan te r' (i + Z.of_nat (List.length raw) + 2) (out_state b k lsp f C).
Proof.
  intros R Hin. pose proof Hin as (Hb & Hk & Hs). unfold out_state at 1.
  cbn [scan braceCount bracketCount inString escaped lastSafePoint finished
            cleaned].
  change (c_quote =? c_quote)%N with true.
  change (c_quote =? c_backslash)%N with false. cbn [andb negb].
  rewrite (not_negative Hb Hk).
  rewrite (scan_in_string te R) by assumption. f_equal. lia.
Qed.

Lemma inside_cons t ts b k :
  inside (t :: ts) (b, k) = true ->
  is_inside (fst (tstep t (b, k))) (snd (tstep t (b, k)))
  /\ inside ts (fst (tstep t (b, k)), snd (tstep t (b, k))) = true.
Proof.
  cbn [inside]. destruct (tstep t (b, k)) as [b1 k1]. cbn [fst snd].
  intros H. apply andb_true_iff in H as [H H4].
  apply andb_true_iff in H as [H H3]. apply andb_true_iff in H as [H1 H2].
  split; [|exact H4]. unfold is_inside. lia.
Qed.

Lemma run_cons t ts b k :
  run (t :: ts) (b, k) = run ts (fst (tstep t (b, k)), snd (tstep t (b, k))).
Proof. cbn [run]. rewrite <- surjective_pairing. reflexivity. Qed.

Lemma scan_punct te c t r i b k lsp f C :
  punct c = Some t -> is_inside b k ->
  is_inside (fst (tstep t (b, k))) (snd (tstep t (b, k))) ->
  exists lsp',
    scan te (c :: r) i (out_state b k lsp f C)
    = scan te r (i + 1)
        (out_state (fst (tstep t (b, k))) (snd (tstep t (b, k))) lsp' f C).
Proof.
  intros P Hin Hin'. pose proof P as P0. apply punct_cases in P0.
  destruct P0 as [[-> ->]|[[-> ->]|[[-> ->]|[[-> ->]|[[-> ->]|[-> ->]]]]]].
  - apply scan_bracket; [exact P|discriminate|discriminate|exact Hin'].
  - apply scan_bracket; [exact P|discriminate|discriminate|exact Hin'].
  - apply scan_bracket; [exact P|discriminate|discriminate|exact Hin'].
  - apply scan_bracket; [exact P|discriminate|discriminate|exact Hin'].
  - exists i. cbn [tstep fst snd]. apply scan_comma. exact Hin.
  - exists lsp. cbn [tstep fst snd]. apply scan_idle; [reflexivity|exact Hin].
Qed.

Lemma keyword_token s t r' :
  keyword s = Some (t, r') -> forall bk, tstep t bk = bk.
Proof.
  unfold keyword.
  destruct (startsWith s (str "true")); [intros H; inversion H; intros []; reflexivity|].
  destruct (startsWith s (str "false")); [intros H; inversion H; intros []; reflexivity|].
  destruct (startsWith s (str "null")); [intros H; inversion H; intros []; reflexivity|].
  discriminate.
Qed.

(** The loop over the text of some tokens that stay inside the structure:
    it arrives after them with the counters the tokens give, and that
    stretch of text lexes to them before any text that begins alike. *)
Lemma scan_prefix s ts :
  Lex s ts -> forall ts1 ts2 b k,
  ts = (ts1 ++ ts2)%list -> is_inside b k -> inside ts1 (b, k) = true ->
  exists s1 s2,
    s = (s1 ++ s2)%list /\ Lex s2 ts2
    /\ (forall s2' ts2', hd_error s2' = hd_error s2 -> Lex s2' ts2' ->
                         Lex (s1 ++ s2') (ts1 ++ ts2'))
    /\ forall tail te i lsp f C, exists lsp',
         scan te (s1 ++ tail) i (out_state b k lsp f C)
         = scan te tail (i + Z.of_nat (List.length s1))
             (out_state (fst (run ts1 (b, k))) (snd (run ts1 (b, k)))
                        lsp' f C).
Proof.
  induction 1 as [|c r ts W L IH|c r t ts P L IH|r x0 r' ts S L IH
                  |c r m r' ts D N L IH|c r t r' ts W P Q D K L IH];
    intros ts1 ts2 b k E Hin Hi.
  - symmetry in E. apply app_eq_nil in E as [-> ->].
    exists [], []. split; [reflexivity|]. split; [constructor|].
    split; [intros s2' ts2' _ L'; exact L'|].
    intros tail te i lsp f C. exists lsp. cbn [app List.length run fst snd].
    f_equal. lia.
  - destruct (IH ts1 ts2 b k E Hin Hi) as (s1 & s2 & -> & L2 & Cl & Sc).
    exists (c :: s1), s2. split; [reflexivity|]. split; [exact L2|].
    split.
    + intros s2' ts2' Hh L'. cbn [app]. apply Lex_ws; [exact W|].
      apply Cl; assumption.
    + intros tail te i lsp f C.
      destruct (Sc tail te (i + 1) lsp f C) as [lsp' E'].
      exists lsp'. cbn [app].
      rewrite scan_idle; [|apply json_ws_idle; exact W|exact Hin].
      rewrite E'. f_equal. cbn [List.length]. lia.
  - destruct ts1 as [|t1 ts1].
    + cbn [app] in E. subst ts2. exists [], (c :: r).
      split; [reflexivity|]. split; [apply Lex_punct; assumption|].
      split; [intros s2' ts2' _ L'; exact L'|].
      intros tail te i lsp f C. exists lsp. cbn [app List.length run fst snd].
      f_equal. lia.
    + cbn [app] in E. injection E as <- ->.
      apply inside_cons in Hi as [Hin1 Hi1].
      destruct (IH ts1 ts2 _ _ eq_refl Hin1 Hi1)
        as (s1 & s2 & -> & L2 & Cl & Sc).
      exists (c :: s1), s2. split; [reflexivity|]. split; [exact L2|].
      split.
      * intros s2' ts2' Hh L'. cbn [app]. apply Lex_punct; [exact P|].
        apply Cl; assumption.
      * intros tail te i lsp f C.
        destruct (@scan_punct te c t (s1 ++ tail)%list i b k lsp f C P Hin Hin1)
          as [lsp1 E1].
        destruct (Sc tail te (i + 1) lsp1 f C) as [lsp' E'].
        exists lsp'. cbn [app]. rewrite E1, E', run_cons. f_equal.
        cbn [List.length]. lia.
  - destruct ts1 as [|t1 ts1].
    + cbn [app] in E. subst ts2. exists [], (c_quote :: r).
      split; [reflexivity|]. split; [eapply Lex_str; eassumption|].
      split; [intros s2' ts2' _ L'; exact L'|].
      intros tail te i lsp f C. exists lsp. cbn [app List.length run fst snd].
      f_equal. lia.
    + cbn [app] in E. injection E as <- ->.
      apply inside_cons in Hi as [Hin1 Hi1]. cbn [tstep fst snd] in Hin1, Hi1.
      destruct (@lex_string_raw _ _ _ S) as (raw & -> & R).
      destruct (IH ts1 ts2 _ _ eq_refl Hin1 Hi1)
        as (s1 & s2 & -> & L2 & Cl & Sc).
      exists (c_quote :: raw ++ c_quote :: s1)%list, s2.
      split; [cbn [app]; rewrite <- app_assoc; reflexivity|].
      split; [exact L2|]. split.
      * intros s2' ts2' Hh L'. cbn [app]. rewrite <- app_assoc. cbn [app].
        eapply Lex_str; [apply (@raw_lex _ _ R)|]. apply Cl; assumption.
      * intros tail te i lsp f C.
        destruct (Sc tail te (i + Z.of_nat (List.length raw) + 2) lsp f C)
          as [lsp' E'].
        exists lsp'. cbn [app]. rewrite <- app_assoc. cbn [app].
        rewrite (@scan_string te raw x0 _ _ b k _ _ _ R Hin), E', run_cons.
        cbn [tstep fst snd]. f_equal. cbn [List.length].
        rewrite length_app. cbn [List.length]. lia.
  - destruct ts1 as [|t1 ts1].
    + cbn [app] in E. subst ts2. exists [], (c :: r).
      split; [reflexivity|]. split; [eapply Lex_num; eassumption|].
      split; [intros s2' ts2' _ L'; exact L'|].
      intros tail te i lsp f C. exists lsp. cbn [app List.length run fst snd].
      f_equal. lia.
    + cbn [app] in E. injection E as <- ->.
      apply inside_cons in Hi as [Hin1 Hi1]. cbn [tstep fst snd] in Hin1, Hi1.
      destruct (@Lex_word_num _ _ _ _ N D) as (w & Ew & Wn & Wp & Cw).
      destruct (IH ts1 ts2 _ _ eq_refl Hin1 Hi1)
        as (s1 & s2 & -> & L2 & Cl & Sc).
      exists (w ++ s1)%list, s2.
      split; [rewrite <- app_assoc; exact Ew|].
      split; [exact L2|]. split.
      * intros s2' ts2' Hh L'. rewrite <- app_assoc. cbn [app].
        apply Cw; [|apply Cl; assumption].
        apply agree_app. left. exact Hh.
      * intros tail te i lsp f C.
        destruct (Sc tail te (i + Z.of_nat (List.length w)) lsp f C)
          as [lsp' E'].
        exists lsp'. rewrite <- app_assoc.
        rewrite scan_idle_word; [|apply plain_idle_all; exact Wp|exact Hin].
        rewrite E', run_cons. cbn [tstep fst snd]. f_equal.
        rewrite length_app. lia.
  - destruct ts1 as [|t1 ts1].
    + cbn [app] in E. subst ts2. exists [], (c :: r).
      split; [reflexivity|]. split; [eapply Lex_kw; eassumption|].
      split; [intros s2' ts2' _ L'; exact L'|].
      intros tail te i lsp f C. exists lsp. cbn [app List.length run fst snd].
      f_equal. lia.
    + cbn [app] in E. injection E as <- ->.
      apply inside_cons in Hi as [Hin1 Hi1].
      rewrite (@keyword_token _ _ _ K) in Hin1, Hi1. cbn [fst snd] in Hin1, Hi1.
      destruct (@Lex_word_kw _ _ _ _ K) as (w & Ew & Wn & Wp & Cw).
      destruct (IH ts1 ts2 _ _ eq_refl Hin1 Hi1)
        as (s1 & s2 & -> & L2 & Cl & Sc).
      exists (w ++ s1)%list, s2.
      split; [rewrite <- app_assoc; exact Ew|].
      split; [exact L2|]. split.
      * intros s2' ts2' Hh L'. rewrite <- app_assoc. cbn [app].
        apply Cw. apply Cl; assumption.
      * intros tail te i lsp f C.
        destruct (Sc tail te (i + Z.of_nat (List.length w)) lsp f C)
          as [lsp' E'].
        exists lsp'. rewrite <- app_assoc.
        rewrite scan_idle_word; [|apply plain_idle_all; exact Wp|exact Hin].
        rewrite E', run_cons, (@keyword_token _ _ _ K). cbn [fst snd]. f_equal.
        rewrite length_app. lia.
Qed.

Lemma scan_open te c0 c2 topen tclose r C :
  root_kind c0 c2 topen tclose ->
  scan te (c0 :: r) 0 (scan_init C)
  = scan te r 1 (out_state (fst (tstep topen (0, 0)))
                           (snd (tstep topen (0, 0))) (-1) false C).
Proof.
  intros [(-> & -> & -> & ->)|(-> & -> & -> & ->)]; destruct te; reflexivity.
Qed.

Lemma scan_close te c0 c2 topen tclose i lsp C :
  root_kind c0 c2 topen tclose -> 0 < i ->
  Z.to_nat (i + 1) = List.length C ->
  repair (scan te [c2] i
            (out_state (fst (tstep topen (0, 0)))
                       (snd (tstep topen (0, 0))) lsp false C)) = C.
Proof.
  intros [(-> & -> & -> & ->)|(-> & -> & -> & ->)] Hi Hl;
    cbn [tstep fst snd]; unfold out_state;
    cbn [scan braceCount bracketCount inString escaped lastSafePoint finished
              cleaned];
    match goal with
    | |- context [(?c =? c_quote)%N] =>
        change (c =? c_quote)%N with false;
        change (c =? c_backslash)%N with false
    end; cbn [andb negb];
    match goal with
    | |- context [count ?c (?b, ?k)] =>
        let v := eval cbv in (count c (b, k)) in
        change (count c (b, k)) with v
    end; cbv beta iota;
    change (0 =? 0) with true; rewrite !andb_true_r;
    destruct (Z.gtb_spec i 0); try lia;
    destruct te; cbn [andb orb negb];
    unfold repair;
    cbn [scan braceCount bracketCount inString escaped lastSafePoint finished
              cleaned negb andb orb]; try reflexivity.
  all: unfold substring_to; rewrite Hl; apply firstn_all.
Qed.

Lemma trimStart_ws w c r :
  forallb isWhiteSpace w = true -> isWhiteSpace c = false ->
  trimStart (w ++ c :: r) = c :: r.
Proof.
  intros W Hc. induction w as [|d w IH]; cbn [app trimStart].
  - rewrite Hc. reflexivity.
  - cbn [forallb] in W. apply andb_true_iff in W as [Wd Ww].
    rewrite Wd. apply IH. exact Ww.
Qed.

Lemma forallb_rev {A} (p : A -> bool) l :
  forallb p l = true -> forallb p (rev l) = true.
Proof.
  rewrite !forallb_forall. intros H x Hx. apply H.
  apply in_rev. exact Hx.
Qed.

Lemma trimEnd_ws x c w :
  forallb isWhiteSpace w = true -> isWhiteSpace c = false ->
  trimEnd (x ++ c :: w) = (x ++ [c])%list.
Proof.
  intros W Hc. unfold trimEnd.
  rewrite rev_app_distr. cbn [rev]. rewrite <- app_assoc. cbn [app].
  rewrite trimStart_ws; [|apply forallb_rev; exact W|exact Hc].
  cbn [rev]. rewrite rev_involutive. reflexivity.
Qed.

Lemma trim_root w c0 x c2 w3 :
  forallb isWhiteSpace w = true -> forallb isWhiteSpace w3 = true ->
  isWhiteSpace c0 = false -> isWhiteSpace c2 = false ->
  trim (w ++ c0 :: x ++ c2 :: w3) = c0 :: x ++ [c2].
Proof.
  intros W W3 H0 H2. unfold trim. rewrite trimStart_ws; [|exact W|exact H0].
  change (c0 :: x ++ c2 :: w3)%list with ((c0 :: x) ++ c2 :: w3)%list.
  rewrite trimEnd_ws; [reflexivity|exact W3|exact H2].
Qed.

Lemma trim_trimmed c0 x c2 :
  isWhiteSpace c0 = false -> isWhiteSpace c2 = false ->
  trim (c0 :: x ++ [c2]) = c0 :: x ++ [c2].
Proof.
  intros H0 H2. apply (@trim_root [] c0 x c2 []); auto.
Qed.

(** A text that opens with a brace or a bracket and closes with one carries
    no fence. *)
Lemma unwrap_root w c0 c2 topen tclose x w3 :
  root_kind c0 c2 topen tclose ->
  forallb isWhiteSpace w = true -> forallb isWhiteSpace w3 = true ->
  unwrap (w ++ c0 :: x ++ c2 :: w3) = c0 :: x ++ [c2].
Proof.
  intros K W W3. unfold unwrap.
  assert (H0 : isWhiteSpace c0 = false)
    by (destruct K as [(-> & _)|(-> & _)]; reflexivity).
  assert (H2 : isWhiteSpace c2 = false)
    by (destruct K as [(_ & -> & _)|(_ & -> & _)]; reflexivity).
  rewrite trim_root; [|exact W|exact W3|exact H0|exact H2].
  assert (Fo : strip_fence_open (c0 :: x ++ [c2]) = c0 :: x ++ [c2]).
  { unfold strip_fence_open.
    destruct K as [(-> & _)|(-> & _)]; reflexivity. }
  rewrite Fo.
  assert (Fc : strip_fence_close (c0 :: x ++ [c2]) = c0 :: x ++ [c2]).
  { unfold strip_fence_close, endsWith.
    change (c0 :: x ++ [c2])%list with ((c0 :: x) ++ [c2])%list.
    rewrite rev_unit.
    destruct K as [(_ & -> & _)|(_ & -> & _)]; reflexivity. }
  rewrite Fc. apply trim_trimmed; assumption.
Qed.

Lemma Lex_ws_word w s ts :
  forallb is_json_ws w = true -> Lex s ts -> Lex (w ++ s) ts.
Proof.
  intros W L. induction w as [|c w IH]; [exact L|].
  cbn [forallb] in W. apply andb_true_iff in W as [Wc Ww].
  cbn [app]. apply Lex_ws; [exact Wc|]. apply IH. exact Ww.
Qed.

Lemma Lex_all_ws s : Lex s [] -> forallb is_json_ws s = true.
Proof.
  intros L. destruct (Lex_lookahead L) as (w & W & [[_ ->]|H]); [exact W|].
  destruct H as (c & r & t & ts' & E & _). discriminate.
Qed.

Lemma cc_ok_prefix p q : cc_ok (p ++ q) = true -> cc_ok p = true.
Proof.
  induction p as [|t p IH]; [reflexivity|].
  cbn [app cc_ok]. intros H. apply andb_true_iff in H as [H1 H2].
  rewrite (IH H2), andb_true_r.
  destruct t; try reflexivity. destruct p as [|t' p]; [reflexivity|].
  exact H1.
Qed.

Lemma tok_head_root c0 c2 topen tclose :
  (topen = TLBrace /\ tclose = TRBrace)
  \/ (topen = TLBracket /\ tclose = TRBracket) ->
  tok_head topen c0 = true -> tok_head tclose c2 = true ->
  root_kind c0 c2 topen tclose.
Proof.
  intros [[-> ->]|[-> ->]] H0 H2; cbn [tok_head] in H0, H2;
    apply N.eqb_eq in H0, H2; subst; [left|right]; repeat split.
Qed.

Lemma root_punct c0 c2 topen tclose :
  root_kind c0 c2 topen tclose ->
  punct c0 = Some topen /\ punct c2 = Some tclose
  /\ is_inside (fst (tstep topen (0, 0))) (snd (tstep topen (0, 0))).
Proof.
  intros [(-> & -> & -> & ->)|(-> & -> & -> & ->)];
    (split; [reflexivity|split; [reflexivity|]]);
    cbn [tstep fst snd]; unfold is_inside; lia.
Qed.

(** A text that lexes to an opener, a balanced stretch and the matching
    closer: around the root there is white space only, and the loop runs
    through the root and leaves it as it is. *)
Lemma root_text T topen tclose mid :
  (topen = TLBrace /\ tclose = TRBrace)
  \/ (topen = TLBracket /\ tclose = TRBracket) ->
  Lex T (topen :: mid ++ [tclose]) -> Body mid ->
  exists w c0 x c2 w3,
    root_kind c0 c2 topen tclose
    /\ T = (w ++ c0 :: x ++ c2 :: w3)%list
    /\ forallb isWhiteSpace w = true /\ forallb isWhiteSpace w3 = true
    /\ Lex (c0 :: x ++ [c2]) (topen :: mid ++ [tclose])
    /\ forall te,
         repair (scan te (c0 :: x ++ [c2]) 0 (scan_init (c0 :: x ++ [c2])))
         = c0 :: x ++ [c2].
Proof.
  intros K L B.
  destruct (Lex_lookahead L) as (w & W & [[E _]|H]); [discriminate|].
  destruct H as (c0 & r & t & ts' & E & -> & H0 & N0 & L0).
  injection E as <- <-.
  assert (P0 : punct c0 = Some topen)
    by (destruct K as [[-> _]|[-> _]]; cbn [tok_head] in H0;
        apply N.eqb_eq in H0; subst; reflexivity).
  destruct (Lex_punct_inv P0 L0) as (ts1 & E1 & L1).
  injection E1 as <-.
  assert (Hin : is_inside (fst (tstep topen (0, 0))) (snd (tstep topen (0, 0))))
    by (destruct K as [[-> _]|[-> _]]; cbn [tstep fst snd]; unfold is_inside;
        lia).
  pose proof Hin as (Hb & Hk & Hs).
  destruct (B _ _ Hb Hk Hs) as [Bi Br].
  destruct (@scan_prefix _ _ L1 mid [tclose] _ _ eq_refl Hin Bi)
    as (s1 & s2 & -> & L2 & Cl & Sc).
  destruct (Lex_lookahead L2) as (w2 & W2 & [[E _]|H]); [discriminate|].
  destruct H as (c2 & r2 & t & ts' & E & -> & H2 & N2 & L3).
  injection E as <- <-.
  assert (P2 : punct c2 = Some tclose)
    by (destruct K as [[_ ->]|[_ ->]]; cbn [tok_head] in H2;
        apply N.eqb_eq in H2; subst; reflexivity).
  destruct (Lex_punct_inv P2 L3) as (ts3 & E3 & L4).
  injection E3 as <-. apply Lex_all_ws in L4.
  pose proof (@tok_head_root c0 c2 topen tclose K H0 H2) as RK.
  exists w, c0, (s1 ++ w2)%list, c2, r2.
  split; [exact RK|].
  split; [rewrite <- app_assoc; reflexivity|].
  split; [apply json_ws_all; exact W|].
  split; [apply json_ws_all; exact L4|].
  split.
  - apply Lex_punct; [exact P0|]. rewrite <- app_assoc. apply Cl.
    + destruct w2; reflexivity.
    + apply Lex_ws_word; [exact W2|].
      apply Lex_punct; [exact P2|constructor].
  - intros te. rewrite (@scan_open te c0 c2 topen tclose _ _ RK). rewrite <- app_assoc.
    destruct (Sc (w2 ++ [c2])%list te 1 (-1) false (c0 :: s1 ++ w2 ++ [c2]))
      as [lsp' ->].
    rewrite Br. cbn [fst snd].
    rewrite scan_idle_word;
      [|rewrite forallb_forall in W2 |- *; intros y Hy; apply json_ws_idle;
        apply W2; exact Hy|exact Hin].
    apply (@scan_close te c0 c2 topen tclose _ _ _ RK); [lia|].
    cbn [List.length]. rewrite !length_app. cbn [List.length]. lia.
Qed.

(** The four replacements leave the tokens of such a text as they are. *)
Lemma Lex_postprocess s ts :
  Lex s ts -> cc_ok ts = true -> strs_ok ts = true -> Lex (postprocess s) ts.
Proof.
  intros L Hc Hs. unfold postprocess.
  fold (R_char c_lf s). fold (R_char c_cr (R_char c_lf s)).
  assert (L2 : Lex (R_char c_cr (R_char c_lf s)) ts).
  { apply Lex_R_char; [right; reflexivity|].
    apply Lex_R_char; [left; reflexivity|exact L]. }
  rewrite (Lex_cc_id L2 Hc Hs).
  apply Lex_Rq; assumption.
Qed.

Lemma root_recovered T v :
  JSON.parse T = Some v -> inert v = true -> is_container v = true ->
  exists c0 rest,
    T <> []
    /\ unwrap T = c0 :: rest
    /\ ((c0 = c_lbrace /\ is_object v = true)
        \/ (c0 = c_lbracket /\ is_object v = false))
    /\ forall te,
         JSON.parse
           (postprocess (repair (scan te (c0 :: rest) 0
                                      (scan_init (c0 :: rest)))))
         = Some v.
Proof.
  intros P I Hc.
  destruct (parse_Good _ P) as (ts & L & (Sh & Cc & St) & PV).
  destruct Sh as [[F _]|(mid & B & Sh)]; [congruence|].
  assert (K : exists topen tclose,
             ts = topen :: mid ++ [tclose]
             /\ ((topen = TLBrace /\ tclose = TRBrace)
                 \/ (topen = TLBracket /\ tclose = TRBracket))
             /\ ((topen = TLBrace /\ is_object v = true)
                 \/ (topen = TLBracket /\ is_object v = false))).
  { destruct Sh as [[-> Ho]|[-> [Ho _]]].
    - exists TLBrace, TRBrace. repeat split; left; split; auto.
    - exists TLBracket, TRBracket. repeat split; right; split; auto. }
  destruct K as (topen & tclose & E & K & Ko).
  assert (Hcc : cc_ok ts = true)
    by (apply (@cc_ok_prefix ts [TComma]); apply Cc).
  pose proof (St I) as Hs.
  rewrite E in L.
  destruct (root_text K L B)
    as (w & c0 & x & c2 & w3 & RK & ET & W & W3 & LU & Rep).
  rewrite <- E in LU.
  exists c0, (x ++ [c2])%list.
  split; [rewrite ET; destruct w; discriminate|].
  split; [rewrite ET; apply (@unwrap_root w c0 c2 topen tclose x w3 RK W W3)|].
  split.
  - destruct RK as [(-> & _ & -> & _)|(-> & _ & -> & _)];
      destruct Ko as [[Et Ho]|[Et Ho]]; try discriminate;
      [left|right]; split; auto.
  - intros te. rewrite Rep.
    apply (@Lex_parse _ ts); [|exact PV].
    apply Lex_postprocess; assumption.
Qed.

End ScanFacts.

Import Tokens Shape LexFacts ScanFacts RootSearch.

(** C4, the claim as stated fails.  Three texts that [JSON.parse] accepts:
    the object whose member [a] is the string made of a comma and a closing
    brace, which both files return with the comma removed from inside the
    string; the array [[1,2]], for which src/services/geminiService.ts,
    finding no brace, answers the empty object; and the number [1], for
    which both files answer the empty object. *)
Lemma valid_text_is_not_always_kept :
  let t1 := js "{'a':',}'}" in
  let t2 := js "[1,2]" in
  let t3 := js "1" in
  JSON.parse t1 = Some (JObj [(str "a", JStr (str ",}"))])
  /\ JSON.parse (GeminiService.cleanJsonString (Some t1))
     = Some (JObj [(str "a", JStr (str "}"))])
  /\ JSON.parse (GeminiServiceV31.cleanJsonString (Some t1))
     = Some (JObj [(str "a", JStr (str "}"))])
  /\ JSON.parse t2
     = Some (JArr [JNum (mkNumber false 1 0); JNum (mkNumber false 2 0)])
  /\ JSON.parse (GeminiService.cleanJsonString (Some t2)) = Some (JObj [])
  /\ JSON.parse t3 = Some (JNum (mkNumber false 1 0))
  /\ JSON.parse (GeminiService.cleanJsonString (Some t3)) = Some (JObj [])
  /\ JSON.parse (GeminiServiceV31.cleanJsonString (Some t3)) = Some (JObj []).
Proof. cbv zeta. repeat split; vm_compute; reflexivity. Qed.

(** C4, amended.  Let [T] be a text that [JSON.parse] accepts, with value
    [v], such that no string of [v], key or value, written between its
    quotes, holds a comma followed by white space and a closing bracket or
    brace, or a quote followed by white space, a colon, white space and a
    quote ([inert v]).  If [v] is an object or an array, the text that
    [cleanJsonString] of part_008 returns for [T] parses to [v]; if [v] is
    an object, so does the text that [cleanJsonString] of
    src/services/geminiService.ts returns. *)
Theorem well_formed_root_is_kept (T : jsstring) (v : value) :
  JSON.parse T = Some v -> inert v = true ->
  (is_container v = true ->
   JSON.parse (GeminiServiceV31.cleanJsonString (Some T)) = Some v)
  /\ (is_object v = true ->
      JSON.parse (GeminiService.cleanJsonString (Some T)) = Some v).
Proof.
  intros P I. split; intros H.
  - destruct (@root_recovered T v P I H) as (c0 & rest & Hne & U & K & R).
    destruct (@v31_root T Hne) as [_ V].
    rewrite (V [] c0 rest U); [apply R| | |].
    + destruct K as [[-> _]|[-> _]]; [left|right]; reflexivity.
    + intros [].
    + intros [].
  - assert (Hc : is_container v = true)
      by (destruct v; try discriminate; reflexivity).
    destruct (@root_recovered T v P I Hc) as (c0 & rest & Hne & U & K & R).
    destruct K as [[-> _]|[_ F]]; [|congruence].
    destruct (@gs_root T Hne) as [_ V].
    rewrite (V [] rest U); [apply R|].
    intros [].
Qed.

Lemma well_formed_root_is_kept_witness :
  let t := js " {'title':'Dune, part 2', 'tags':['a b',15,true,null]} " in
  let v := JObj [ (str "title", JStr (str "Dune, part 2"));
                  (str "tags", JArr [ JStr (str "a b");
                                      JNum (mkNumber false 15 0);
                                      JBool true; JNull ]) ] in
  JSON.parse t = Some v
  /\ inert v = true
  /\ is_object v = true
  /\ JSON.parse (GeminiServiceV31.cleanJsonString (Some t)) = Some v
  /\ JSON.parse (GeminiService.cleanJsonString (Some t)) = Some v.
Proof.
  intros t v.
  assert (P : JSON.parse t = Some v) by (vm_compute; reflexivity).
  assert (I : inert v = true) by (vm_compute; reflexivity).
  split; [exact P|]. split; [exact I|]. split; [reflexivity|].
  split.
  - apply (proj1 (well_formed_root_is_kept t P I)). reflexivity.
  - apply (proj2 (well_formed_root_is_kept t P I)). reflexivity.
Defined.

(* ================================================================== *)
(** ** How the cleaned text begins *)
(* ================================================================== *)

Module HeadFacts.

Import JS JSON Repair Runtime Spec Tokens Shape LexFacts ScanFacts RootFacts
       RootSearch.
Local Open Scope Z_scope.

(** The first occurrence of a character. *)
Lemma split_first (c : char) (u : jsstring) :
  ~ In c u \/ exists pre rest, u = (pre ++ c :: rest)%list /\ ~ In c pre.
Proof.
  induction u as [|x u IH]; [left; intros []|].
  destruct (N.eq_dec x c) as [->|N].
  - right. exists [], u. split; [reflexivity|intros []].
  - destruct IH as [H|(pre & rest & -> & H)].
    + left. intros [E|E]; [contradiction|exact (H E)].
    + right. exists (x :: pre), rest. split; [reflexivity|].
      intros [E|E]; [contradiction|exact (H E)].
Qed.

(** The first brace or bracket. *)
Lemma split_first_root (u : jsstring) :
  (~ In c_lbrace u /\ ~ In c_lbracket u)
  \/ exists pre c rest,
       u = (pre ++ c :: rest)%list /\ (c = c_lbrace \/ c = c_lbracket)
       /\ ~ In c_lbrace pre /\ ~ In c_lbracket pre.
Proof.
  induction u as [|x u IH]; [left; split; intros []|].
  destruct (N.eq_dec x c_lbrace) as [->|N1].
  { right. exists [], c_lbrace, u. repeat split; auto; intros []. }
  destruct (N.eq_dec x c_lbracket) as [->|N2].
  { right. exists [], c_lbracket, u. repeat split; auto; intros []. }
  destruct IH as [[H1 H2]|(pre & c & rest & -> & Hc & H1 & H2)].
  - left. split; intros [E|E]; auto.
  - right. exists (x :: pre), c, rest. repeat split; auto;
      intros [E|E]; auto.
Qed.

(** The loop never moves the start of the text, and a safe point is never
    before the index the loop started from. *)
Lemma scan_keeps te rest : forall i st,
  0 <= i ->
  (cleaned (scan te rest i st) = cleaned st
   \/ exists j, 0 < j
        /\ cleaned (scan te rest i st) = substring_to (cleaned st) (j + 1))
  /\ (lastSafePoint (scan te rest i st) = lastSafePoint st
      \/ i <= lastSafePoint (scan te rest i st)).
Proof.
  induction rest as [|c rest IH]; intros i st Hi.
  - cbn [scan]. split; left; reflexivity.
  - cbn [scan].
    destruct (negb (if (c =? c_quote)%N && negb (escaped st)
                    then negb (inString st) else inString st)).
    + destruct (count c (braceCount st, bracketCount st)) as [b1 k1].
      destruct (te && (b1 =? 0) && (k1 =? 0) && (i >? 0)) eqn:F.
      * cbn [cleaned lastSafePoint]. split.
        -- right. exists i. split; [|reflexivity].
           apply andb_true_iff in F as [_ F]. lia.
        -- destruct ((b1 >=? 0) && (k1 >=? 0) && is_safe_char c);
             [right; lia|left; reflexivity].
      * destruct ((b1 <? 0) || (k1 <? 0)).
        -- cbn [cleaned lastSafePoint]. split; [left; reflexivity|].
           destruct ((b1 >=? 0) && (k1 >=? 0) && is_safe_char c);
             [right; lia|left; reflexivity].
        -- match goal with |- context [scan te rest (i + 1) ?s] =>
             destruct (IH (i + 1) s ltac:(lia)) as [A B] end.
           cbn [cleaned lastSafePoint] in A, B. split; [exact A|].
           destruct B as [B|B]; [|right; lia].
           rewrite B.
           destruct ((b1 >=? 0) && (k1 >=? 0) && is_safe_char c);
             [right; lia|left; reflexivity].
    + destruct ((braceCount st <? 0) || (bracketCount st <? 0)).
      * cbn [cleaned lastSafePoint]. split; left; reflexivity.
      * match goal with |- context [scan te rest (i + 1) ?s] =>
          destruct (IH (i + 1) s ltac:(lia)) as [A B] end.
        cbn [cleaned lastSafePoint] in A, B. split; [exact A|].
        destruct B as [B|B]; [left; exact B|right; lia].
Qed.

Lemma trimStart_snoc x c :
  isWhiteSpace c = false -> exists y, trimStart (x ++ [c]) = (y ++ [c])%list.
Proof.
  intros Hc. induction x as [|d x IH]; cbn [app trimStart].
  - rewrite Hc. exists []. reflexivity.
  - destruct (isWhiteSpace d); [exact IH|].
    exists (d :: x). reflexivity.
Qed.

(** Trimming keeps a first character that is not white space. *)
Lemma trim_head c t :
  isWhiteSpace c = false -> exists t', trim (c :: t) = c :: t'.
Proof.
  intros Hc. unfold trim. cbn [trimStart]. rewrite Hc.
  unfold trimEnd. cbn [rev].
  destruct (@trimStart_snoc (rev t) c Hc) as [y ->].
  rewrite rev_app_distr. cbn [rev app]. eexists. reflexivity.
Qed.

Lemma strip_last_comma_head c t :
  c <> c_comma -> exists t', strip_last_comma (c :: t) = c :: t'.
Proof.
  intros Hc. unfold strip_last_comma.
  destruct (endsWith (c :: t) [c_comma]) eqn:E; [|eexists; reflexivity].
  destruct t as [|d t].
  - unfold endsWith in E. cbn [rev app startsWith] in E.
    rewrite andb_true_r in E. apply N.eqb_eq in E. congruence.
  - cbn [removelast]. eexists. reflexivity.
Qed.

(** The repair keeps the first character of the text. *)
Lemma repair_head c st :
  isWhiteSpace c = false -> c <> c_comma ->
  hd_error (cleaned st) = Some c ->
  lastSafePoint st = -1 \/ 0 <= lastSafePoint st ->
  hd_error (repair st) = Some c.
Proof.
  intros W Hc H L. unfold repair.
  destruct (negb (finished st) && _); [|exact H].
  destruct (Z.eqb_spec (lastSafePoint st) (-1)) as [E|E]; cbn [negb].
  - destruct (negb (endsWith (cleaned st) [c_rbrace])); [|exact H].
    destruct (cleaned st); [discriminate|exact H].
  - destruct L as [L|L]; [contradiction|].
    unfold cut_and_close, substring_to.
    destruct (cleaned st) as [|c0 t]; [discriminate|]. injection H as ->.
    replace (Z.to_nat (lastSafePoint st + 1))
      with (S (Z.to_nat (lastSafePoint st))) by lia.
    cbn [firstn].
    destruct (@trim_head c (firstn (Z.to_nat (lastSafePoint st)) t) W)
      as [t1 ->].
    destruct (@strip_last_comma_head c t1 Hc) as [t2 ->].
    destruct (rescan (c :: t2) 0 0). reflexivity.
Qed.

(** The four replacements keep a first character that is an opener. *)
Lemma postprocess_head c t :
  c = c_lbrace \/ c = c_lbracket ->
  exists t', postprocess (c :: t) = c :: t'.
Proof.
  intros Hc. unfold postprocess.
  assert (A : exists t1, replace_all (m_char c_lf [c_space]) 0 (c :: t) = c :: t1).
  { rewrite ra_none; [eexists; reflexivity|].
    destruct Hc as [-> | ->]; reflexivity. }
  destruct A as [t1 ->].
  assert (B : exists t2, replace_all (m_char c_cr [c_space]) 0 (c :: t1) = c :: t2).
  { rewrite ra_none; [eexists; reflexivity|].
    destruct Hc as [-> | ->]; reflexivity. }
  destruct B as [t2 ->].
  assert (C : exists t3, replace_all m_comma_closer 0 (c :: t2) = c :: t3).
  { rewrite ra_none; [eexists; reflexivity|].
    destruct Hc as [-> | ->]; reflexivity. }
  destruct C as [t3 ->].
  rewrite ra_none; [eexists; reflexivity|].
  destruct Hc as [-> | ->]; reflexivity.
Qed.

(** What the two files return begins with the root character. *)
Lemma cleaned_head te c rest :
  c = c_lbrace \/ c = c_lbracket ->
  exists t,
    postprocess (repair (scan te (c :: rest) 0 (scan_init (c :: rest))))
    = c :: t.
Proof.
  intros Hc.
  assert (W : isWhiteSpace c = false) by (destruct Hc as [-> | ->]; reflexivity).
  assert (N : c <> c_comma) by (destruct Hc as [-> | ->]; discriminate).
  destruct (@scan_keeps te (c :: rest) 0 (scan_init (c :: rest)) ltac:(lia))
    as [A B].
  cbn [scan_init cleaned lastSafePoint] in A, B.
  assert (H : hd_error (repair (scan te (c :: rest) 0 (scan_init (c :: rest))))
              = Some c).
  { apply repair_head; [exact W|exact N| |].
    - destruct A as [->|(j & Hj & ->)]; [reflexivity|].
      unfold substring_to.
      replace (Z.to_nat (j + 1)) with (S (Z.to_nat j)) by lia. reflexivity.
    - destruct B as [->|B]; [left; reflexivity|right; exact B]. }
  destruct (repair _) as [|c0 t0]; [discriminate|]. injection H as ->.
  apply postprocess_head. exact Hc.
Qed.

Lemma gs_cleaned_head text :
  exists t, GeminiService.cleanJsonString text = c_lbrace :: t.
Proof.
  destruct text as [text|]; [|eexists; reflexivity].
  destruct text as [|a text]; [eexists; reflexivity|].
  destruct (@gs_root (a :: text) ltac:(discriminate)) as [G1 G2].
  destruct (split_first c_lbrace (unwrap (a :: text)))
    as [H|(pre & rest & E & H)].
  - rewrite (G1 H). eexists. reflexivity.
  - rewrite (G2 pre rest E H). apply cleaned_head. left. reflexivity.
Qed.

Lemma v31_cleaned_head text :
  exists c t, GeminiServiceV31.cleanJsonString text = c :: t
              /\ (c = c_lbrace \/ c = c_lbracket).
Proof.
  destruct text as [text|];
    [|exists c_lbrace; eexists; split; [reflexivity|left; reflexivity]].
  destruct text as [|a text];
    [exists c_lbrace; eexists; split; [reflexivity|left; reflexivity]|].
  destruct (@v31_root (a :: text) ltac:(discriminate)) as [G1 G2].
  destruct (split_first_root (unwrap (a :: text)))
    as [[H1 H2]|(pre & c & rest & E & Hc & H1 & H2)].
  - rewrite (G1 H1 H2). exists c_lbrace. eexists.
    split; [reflexivity|left; reflexivity].
  - rewrite (G2 pre c rest E Hc H1 H2).
    destruct (@cleaned_head true c rest Hc) as [t ->].
    exists c, t. split; [reflexivity|exact Hc].
Qed.

(** A text that begins with a brace parses, if it parses, to an object; one
    that begins with a bracket, to an array. *)
Lemma parse_head c t v :
  JSON.parse (c :: t) = Some v ->
  (c = c_lbrace -> is_object v = true)
  /\ (c = c_lbracket -> is_container v = true /\ is_object v = false).
Proof.
  intros P.
  destruct (@parse_Good _ _ P) as (ts & L & (Sh & _ & _) & _).
  split; intros ->.
  - destruct (@Lex_punct_inv c_lbrace TLBrace t ts eq_refl L) as (ts' & -> & _).
    destruct Sh as [[_ (t0 & E & S)]|(mid & _ & [[E O]|[E _]])].
    + injection E as <- _. discriminate.
    + exact O.
    + discriminate.
  - destruct (@Lex_punct_inv c_lbracket TLBracket t ts eq_refl L)
      as (ts' & -> & _).
    destruct Sh as [[_ (t0 & E & S)]|(mid & _ & [[E O]|[E [O C]]])].
    + injection E as <- _. discriminate.
    + discriminate.
    + split; assumption.
Qed.

Lemma gs_parse_object text v :
  JSON.parse (GeminiService.cleanJsonString text) = Some v
  \/ JSON.parse (GeminiService.cleanJsonString text ++ [c_rbrace]) = Some v ->
  is_object v = true.
Proof.
  destruct (gs_cleaned_head text) as [t ->]. cbn [app].
  intros [P|P]; exact (proj1 (@parse_head _ _ _ P) eq_refl).
Qed.

Lemma v31_parse_container text v :
  JSON.parse (GeminiServiceV31.cleanJsonString text) = Some v ->
  is_container v = true.
Proof.
  destruct (v31_cleaned_head text) as (c & t & -> & Hc). intros P.
  destruct (@parse_head _ _ _ P) as [A B]. destruct Hc as [-> | ->].
  - specialize (A eq_refl). destruct v; try discriminate; reflexivity.
  - exact (proj1 (B eq_refl)).
Qed.

End HeadFacts.

(* ================================================================== *)
(** ** Fences and line breaks *)
(* ================================================================== *)

Module FenceFacts.

Import JS JSON Repair Runtime Spec Tokens Shape LexFacts ScanFacts RootFacts
       RootSearch.
Import HeadFacts.
Local Open Scope Z_scope.

Lemma trimStart_all_ws w :
  forallb isWhiteSpace w = true -> trimStart w = [].
Proof.
  induction w as [|c w IH]; [reflexivity|]. cbn [forallb trimStart].
  intros H. apply andb_true_iff in H as [Hc Hw]. rewrite Hc. exact (IH Hw).
Qed.

Lemma trimStart_ws_app w s :
  forallb isWhiteSpace w = true -> trimStart (w ++ s) = trimStart s.
Proof.
  induction w as [|c w IH]; [reflexivity|]. cbn [forallb app trimStart].
  intros H. apply andb_true_iff in H as [Hc Hw]. rewrite Hc. exact (IH Hw).
Qed.

(** Before a character that is not white space, trimming at the start stops
    inside the first part. *)
Lemma trimStart_before b c r :
  isWhiteSpace c = false ->
  trimStart (b ++ c :: r) = (trimStart b ++ c :: r)%list.
Proof.
  intros Hc. induction b as [|d b IH]; cbn [app trimStart].
  - rewrite Hc. reflexivity.
  - destruct (isWhiteSpace d); [exact IH|reflexivity].
Qed.

Lemma trimStart_idem s : trimStart (trimStart s) = trimStart s.
Proof.
  induction s as [|c s IH]; [reflexivity|]. cbn [trimStart].
  destruct (isWhiteSpace c) eqn:E; [exact IH|]. cbn [trimStart].
  rewrite E. reflexivity.
Qed.

Lemma trimEnd_app_ws x w :
  forallb isWhiteSpace w = true -> trimEnd (x ++ w) = trimEnd x.
Proof.
  intros W. unfold trimEnd. rewrite rev_app_distr.
  rewrite trimStart_ws_app; [reflexivity|].
  apply forallb_rev. exact W.
Qed.

Lemma trimStart_app_ws b w :
  forallb isWhiteSpace w = true ->
  exists w', forallb isWhiteSpace w' = true
             /\ trimStart (b ++ w) = (trimStart b ++ w')%list.
Proof.
  intros W. induction b as [|d b IH]; cbn [app trimStart].
  - exists []. split; [reflexivity|]. apply trimStart_all_ws. exact W.
  - destruct (isWhiteSpace d); [exact IH|].
    exists w. split; [exact W|reflexivity].
Qed.

(** White space after a text does not change what trimming leaves. *)
Lemma trim_app_ws b w :
  forallb isWhiteSpace w = true -> trim (b ++ w) = trim b.
Proof.
  intros W. unfold trim.
  destruct (@trimStart_app_ws b w W) as (w' & W' & ->).
  apply trimEnd_app_ws. exact W'.
Qed.

Lemma trim_trimStart s : trim (trimStart s) = trim s.
Proof. unfold trim. rewrite trimStart_idem. reflexivity. Qed.

Lemma canonicalize_backtick c :
  (canonicalize c_backtick =? canonicalize c)%N = true -> c = c_backtick.
Proof.
  unfold canonicalize. change ((97 <=? c_backtick) && (c_backtick <=? 122))%N
    with false. cbv iota.
  destruct ((97 <=? c) && (c <=? 122))%N eqn:E; intros H;
    apply N.eqb_eq in H.
  - apply andb_true_iff in E as [E1 E2].
    apply N.leb_le in E1, E2. unfold c_backtick in H. lia.
  - symmetry. exact H.
Qed.

(** The opening fence, in whatever letter case, begins with a backtick. *)
Lemma fence_head f :
  startsWith_ci f (str "```json") = true ->
  exists f', f = c_backtick :: f'.
Proof.
  destruct f as [|c f']; [discriminate|].
  change (str "```json") with (c_backtick :: str "``json").
  cbn [startsWith_ci]. intros H. apply andb_true_iff in H as [H _].
  apply canonicalize_backtick in H. subst c. exists f'. reflexivity.
Qed.

Lemma startsWith_ci_app f r p :
  startsWith_ci f p = true -> startsWith_ci (f ++ r) p = true.
Proof.
  revert f; induction p as [|x p IH]; intros f H.
  - destruct (f ++ r)%list; reflexivity.
  - destruct f as [|y f]; [discriminate|]. cbn [app startsWith_ci] in *.
    apply andb_true_iff in H as [H1 H2]. rewrite H1. cbn [andb].
    apply IH. exact H2.
Qed.

Lemma endsWith_app y p : endsWith (y ++ p) p = true.
Proof.
  unfold endsWith. rewrite rev_app_distr. apply startsWith_prefix.
Qed.

(** A fenced answer: white space, the opening fence in any letter case,
    white space, a body, white space, the closing fence, white space.  What
    is left after the unwrapping is the trimmed body. *)
Lemma unwrap_fenced ws1 f ws2 b ws3 ws4 :
  forallb isWhiteSpace ws1 = true -> forallb isWhiteSpace ws2 = true ->
  forallb isWhiteSpace ws3 = true -> forallb isWhiteSpace ws4 = true ->
  List.length f = 7%nat -> startsWith_ci f (str "```json") = true ->
  unwrap (ws1 ++ f ++ ws2 ++ b ++ ws3 ++ str "```" ++ ws4) = trim b.
Proof.
  intros W1 W2 W3 W4 Lf Hf. unfold unwrap.
  destruct (@fence_head f Hf) as [f' Ef].
  set (mid := (f' ++ ws2 ++ b ++ ws3 ++ [c_backtick; c_backtick])%list).
  assert (E1 : (ws1 ++ f ++ ws2 ++ b ++ ws3 ++ str "```" ++ ws4)%list
               = (ws1 ++ c_backtick :: mid ++ c_backtick :: ws4)%list).
  { subst mid f. change (str "```") with [c_backtick; c_backtick; c_backtick].
    cbn [app]. repeat rewrite <- app_assoc. reflexivity. }
  rewrite E1.
  rewrite trim_root; [|exact W1|exact W4|reflexivity|reflexivity].
  assert (E2 : (c_backtick :: mid ++ [c_backtick])%list
               = (f ++ ws2 ++ (b ++ ws3) ++ str "```")%list).
  { subst mid f. change (str "```") with [c_backtick; c_backtick; c_backtick].
    cbn [app]. repeat rewrite <- app_assoc. reflexivity. }
  rewrite E2. unfold strip_fence_open.
  rewrite (@startsWith_ci_app f _ _ Hf).
  rewrite <- Lf at 1. rewrite skipn_prefix.
  rewrite (@trimStart_ws_app ws2 _ W2).
  change (str "```") with (c_backtick :: [c_backtick; c_backtick]).
  rewrite trimStart_before by reflexivity.
  change (c_backtick :: [c_backtick; c_backtick]) with (str "```").
  unfold strip_fence_close. rewrite endsWith_app.
  rewrite length_app.
  replace (List.length (trimStart (b ++ ws3)) + List.length (str "```") - 3)%nat
    with (List.length (trimStart (b ++ ws3)) + 0)%nat
    by (change (List.length (str "```")) with 3%nat; lia).
  rewrite firstn_app_2. cbn [firstn]. rewrite app_nil_r.
  rewrite trim_trimStart. apply trim_app_ws. exact W3.
Qed.

(** What [cleanJsonString] returns depends on the unwrapped text only. *)
Lemma clean_unwrap t1 t2 :
  unwrap t1 = unwrap t2 ->
  GeminiService.cleanJsonString (Some t1)
  = GeminiService.cleanJsonString (Some t2)
  /\ GeminiServiceV31.cleanJsonString (Some t1)
     = GeminiServiceV31.cleanJsonString (Some t2).
Proof.
  intros E.
  unfold GeminiService.cleanJsonString, GeminiServiceV31.cleanJsonString.
  destruct t1 as [|a1 t1], t2 as [|a2 t2].
  - split; reflexivity.
  - rewrite <- E. split; reflexivity.
  - rewrite E. split; reflexivity.
  - rewrite E. split; reflexivity.
Qed.

(* ---------- no line feed, no carriage return ---------- *)

Lemma R_char_In x s y :
  In y (R_char x s) -> y = c_space \/ (y <> x /\ In y s).
Proof.
  induction s as [|c s IH]; [intros []|].
  rewrite R_char_cons. intros [H|H].
  - destruct (N.eqb_spec c x) as [->|N]; [left; symmetry; exact H|].
    right. subst y. split; [exact N|left; reflexivity].
  - destruct (IH H) as [E|[N I]]; [left; exact E|right].
    split; [exact N|right; exact I].
Qed.

(** What a replacement returns is made of characters of the text and of
    characters of the replacements. *)
Lemma replace_all_In m (Q : char -> Prop) :
  (forall s len repl x, m s = Some (len, repl) -> In x repl -> Q x) ->
  forall s skip x, In x (replace_all m skip s) -> In x s \/ Q x.
Proof.
  intros Hm. induction s as [|c s IH]; intros skip x; [intros []|].
  cbn [replace_all]. destruct skip as [|k].
  - destruct (m (c :: s)) as [[len repl]|] eqn:E.
    + intros H. apply in_app_or in H as [H|H].
      * right. exact (Hm _ _ _ _ E H).
      * destruct (IH _ _ H) as [I|I]; [left; right; exact I|right; exact I].
    + intros [H|H]; [left; left; exact H|].
      destruct (IH _ _ H) as [I|I]; [left; right; exact I|right; exact I].
  - intros H. destruct (IH _ _ H) as [I|I]; [left; right; exact I|right; exact I].
Qed.

Lemma m_cc_repl s len repl x :
  m_comma_closer s = Some (len, repl) -> In x repl ->
  x = c_rbracket \/ x = c_rbrace.
Proof.
  unfold m_comma_closer. destruct s as [|c r]; [discriminate|].
  destruct (c =? c_comma)%N; [|discriminate].
  destruct (skipn (ws_run r) r) as [|d r']; [discriminate|].
  destruct ((d =? c_rbracket) || (d =? c_rbrace))%N eqn:E; [|discriminate].
  intros H. injection H as _ <-. intros [<-|[]].
  apply orb_true_iff in E as [E|E]; apply N.eqb_eq in E; auto.
Qed.

Lemma m_qcq_repl_In s len repl x :
  m_quote_colon_quote s = Some (len, repl) -> In x repl ->
  x = c_quote \/ x = c_colon.
Proof.
  intros H I. apply m_qcq_repl in H as [-> _].
  destruct I as [<-|[<-|[<-|[]]]]; auto.
Qed.

Lemma postprocess_no_newline s y :
  In y (postprocess s) -> y <> c_lf /\ y <> c_cr.
Proof.
  unfold postprocess. fold (R_char c_lf s).
  fold (R_char c_cr (R_char c_lf s)). intros H.
  apply (replace_all_In m_quote_colon_quote
           (fun x => x = c_quote \/ x = c_colon) m_qcq_repl_In) in H.
  destruct H as [H|[-> | ->]]; [|split; discriminate|split; discriminate].
  apply (replace_all_In m_comma_closer
           (fun x => x = c_rbracket \/ x = c_rbrace) m_cc_repl) in H.
  destruct H as [H|[-> | ->]]; [|split; discriminate|split; discriminate].
  apply R_char_In in H as [->|[N H]]; [split; discriminate|].
  apply R_char_In in H as [->|[N' H]]; [split; discriminate|].
  split; assumption.
Qed.

End FenceFacts.

(* ================================================================== *)
(** ** Requests and quota errors of part_008 *)
(* ================================================================== *)

Module RequestFacts.

Import JS JSON Repair Runtime Spec Keyframes Reports.
Local Open Scope Z_scope.

(** The calls of part_008 from [retryCount] on look at the answers to the
    requests [retryCount] to 5, and at no other. *)
Lemma v31_fuel_requests fuel : forall w w' input rc,
  API_KEY w = API_KEY w' ->
  (forall n, (rc <= n <= 5)%nat -> generateContent w n = generateContent w' n) ->
  (rc <= 5)%nat ->
  GeminiServiceV31.generateMoviePackage_fuel fuel w input rc
  = GeminiServiceV31.generateMoviePackage_fuel fuel w' input rc.
Proof.
  induction fuel as [|f IH]; intros w w' input rc K G Hrc; [reflexivity|].
  cbn [GeminiServiceV31.generateMoviePackage_fuel].
  assert (HK : has_key w = has_key w') by (unfold has_key; rewrite K; reflexivity).
  rewrite HK. destruct (has_key w'); cbn [negb]; [|reflexivity].
  rewrite (G rc) by lia.
  assert (R : (rc < 5)%nat ->
              GeminiServiceV31.generateMoviePackage_fuel f w input (S rc)
              = GeminiServiceV31.generateMoviePackage_fuel f w' input (S rc)).
  { intros H. apply IH; [exact K| |lia]. intros n Hn. apply G. lia. }
  destruct (generateContent w' rc) as [text|m].
  - destruct (JSON.parse _) as [data|].
    + destruct (GeminiServiceV31.normalize _ _ _ _) as [p|m]; [reflexivity|].
      destruct (GeminiServiceV31.is_quota m); cbn [andb]; [|reflexivity].
      destruct (Nat.ltb_spec rc 5); [apply R; assumption|reflexivity].
    + destruct (Nat.ltb_spec rc 1); [apply R; lia|].
      destruct (GeminiServiceV31.is_quota _); cbn [andb]; [|reflexivity].
      destruct (Nat.ltb_spec rc 5); [apply R; assumption|reflexivity].
  - destruct (GeminiServiceV31.is_quota m); cbn [andb]; [|reflexivity].
    destruct (Nat.ltb_spec rc 5); [apply R; assumption|reflexivity].
Qed.

(* ---------- lower case and [includes] ---------- *)

Lemma startsWith_map (f : char -> char) s p :
  startsWith s p = true -> startsWith (map f s) (map f p) = true.
Proof.
  revert s; induction p as [|x p IH]; intros s H.
  - destruct (map f s); reflexivity.
  - destruct s as [|y s]; [discriminate|]. cbn [map startsWith] in *.
    apply andb_true_iff in H as [H1 H2]. apply N.eqb_eq in H1. subst y.
    rewrite N.eqb_refl. cbn [andb]. apply IH. exact H2.
Qed.

Lemma includes_map (f : char -> char) s p :
  includes s p = true -> includes (map f s) (map f p) = true.
Proof.
  induction s as [|c s IH]; cbn [includes map]; intros H.
  - apply orb_true_iff in H as [H|H]; [|discriminate].
    apply (startsWith_map f) in H. cbn [map] in H. rewrite H. reflexivity.
  - apply orb_true_iff in H as [H|H].
    + apply (startsWith_map f) in H. cbn [map] in H. rewrite H. reflexivity.
    + rewrite (IH H). apply orb_true_r.
Qed.

(** A message that part_008 takes for a quota error, in upper case, is one
    that [handleApiError] takes for one, in lower case. *)
Lemma is_quota_lower m :
  GeminiServiceV31.is_quota m = true ->
  GeminiServiceV31.any_includes (toLowerCase m)
    ["429"; "quota"; "limit"; "resource_exhausted"]%string = true.
Proof.
  unfold GeminiServiceV31.is_quota, GeminiServiceV31.any_includes.
  cbn [existsb]. rewrite orb_false_r. intros H.
  apply orb_true_iff in H as [H|H].
  - apply (includes_map lower) in H. fold (toLowerCase m) in H.
    change (map lower (str "429")) with (str "429") in H.
    rewrite H. reflexivity.
  - apply orb_true_iff in H as [H|H].
    + apply (includes_map lower) in H. fold (toLowerCase m) in H.
      change (map lower (str "QUOTA")) with (str "quota") in H.
      rewrite H. apply orb_true_iff. right. reflexivity.
    + apply (includes_map lower) in H. fold (toLowerCase m) in H.
      change (map lower (str "RESOURCE_EXHAUSTED"))
        with (str "resource_exhausted") in H.
      rewrite H. rewrite !orb_true_r. reflexivity.
Qed.

Lemma v31_quota_report m task :
  startsWith m [c_lbrace] = false ->
  GeminiServiceV31.is_quota m = true ->
  GeminiServiceV31.handleApiError m task = quota_message.
Proof.
  intros S Q. unfold GeminiServiceV31.handleApiError,
    GeminiServiceV31.error_msg. rewrite S.
  rewrite (is_quota_lower _ Q). reflexivity.
Qed.

Lemma v31_quota_step f w input rc m :
  has_key w = true -> generateContent w rc = Rejected m ->
  GeminiServiceV31.is_quota m = true -> (rc < 5)%nat ->
  GeminiServiceV31.generateMoviePackage_fuel (S f) w input rc
  = GeminiServiceV31.generateMoviePackage_fuel f w input (S rc).
Proof.
  intros K G Q H. cbn [GeminiServiceV31.generateMoviePackage_fuel].
  rewrite K, G, Q. cbn [negb andb].
  destruct (Nat.ltb_spec rc 5); [reflexivity|lia].
Qed.

Lemma v31_quota_last f w input rc m :
  has_key w = true -> generateContent w rc = Rejected m ->
  (5 <= rc)%nat ->
  GeminiServiceV31.generateMoviePackage_fuel (S f) w input rc
  = Some (Throw (GeminiServiceV31.handleApiError m "GENERATE_PACKAGE")).
Proof.
  intros K G H. cbn [GeminiServiceV31.generateMoviePackage_fuel].
  rewrite K, G. cbn [negb].
  destruct (Nat.ltb_spec rc 5); [lia|]. rewrite andb_false_r. reflexivity.
Qed.

End RequestFacts.

(* ================================================================== *)
(** ** Facts about the other calls *)
(* ================================================================== *)

Module CallFacts.

Import JS JSON Repair Runtime Spec Tokens Shape LexFacts ScanFacts RootFacts
       RootSearch.
Import Calls HeadFacts FenceFacts.
Local Open Scope N_scope.

Lemma trimStart_head s c r :
  trimStart s = c :: r -> isWhiteSpace c = false.
Proof.
  induction s as [|x s IH]; [discriminate|]. cbn [trimStart].
  destruct (isWhiteSpace x) eqn:E; [exact IH|].
  intros H. injection H as <- _. exact E.
Qed.

Lemma trimStart_fixed c r :
  isWhiteSpace c = false -> trimStart (c :: r) = c :: r.
Proof. intros H. cbn [trimStart]. rewrite H. reflexivity. Qed.

(** What trimming at the start removes is white space. *)
Lemma trimStart_split s :
  exists w, forallb isWhiteSpace w = true /\ s = (w ++ trimStart s)%list.
Proof.
  induction s as [|x s IH]; [exists []; split; reflexivity|].
  cbn [trimStart]. destruct (isWhiteSpace x) eqn:E.
  - destruct IH as (w & W & Es). exists (x :: w). cbn [forallb app].
    rewrite E, W. split; [reflexivity|]. f_equal. exact Es.
  - exists []. split; reflexivity.
Qed.

Lemma trimEnd_split s :
  exists w, forallb isWhiteSpace w = true /\ s = (trimEnd s ++ w)%list.
Proof.
  unfold trimEnd. destruct (trimStart_split (rev s)) as (w & W & E).
  exists (rev w). split; [apply forallb_rev; exact W|].
  rewrite <- rev_app_distr, <- E, rev_involutive. reflexivity.
Qed.

Lemma trimEnd_last s c r :
  rev (trimEnd s) = c :: r -> isWhiteSpace c = false.
Proof.
  unfold trimEnd. rewrite rev_involutive. apply trimStart_head.
Qed.

(** A trimmed text that is not empty begins and ends with a character that
    is not white space, and trimming it again changes nothing. *)
Lemma trim_ends s c r :
  trim s = c :: r ->
  isWhiteSpace c = false
  /\ (exists d r', rev (trim s) = d :: r' /\ isWhiteSpace d = false)
  /\ trim (trim s) = trim s.
Proof.
  intros E. unfold trim in *.
  destruct (trimEnd_split (trimStart s)) as (w & W & Es).
  rewrite E in Es.
  assert (Hc : isWhiteSpace c = false).
  { cbn [app] in Es. exact (@trimStart_head _ _ _ Es). }
  assert (L : exists d r', rev (c :: r) = d :: r').
  { destruct (rev (c :: r)) as [|d r'] eqn:R; [|eauto].
    apply (f_equal (@rev char)) in R. rewrite rev_involutive in R.
    discriminate. }
  destruct L as (d & r' & R).
  assert (Hd : isWhiteSpace d = false).
  { apply (@trimEnd_last (trimStart s) d r'). rewrite E. exact R. }
  split; [exact Hc|]. split.
  - exists d, r'. rewrite E. split; [exact R|exact Hd].
  - rewrite E. rewrite (@trimStart_fixed c r Hc). unfold trimEnd.
    rewrite R. rewrite (@trimStart_fixed d r' Hd). rewrite <- R.
    apply rev_involutive.
Qed.


(** A reply with no brace (part_008: and no bracket) is cleaned to the
    empty object. *)
Lemma unwrap_no_char c text :
  ~ In c text -> ~ In c (unwrap text).
Proof.
  intros H I. apply H. unfold unwrap in I.
  assert (T : forall s, In c (trim s) -> In c s).
  { intros s Hs. unfold trim in Hs.
    destruct (trimEnd_split (trimStart s)) as (w & _ & E).
    destruct (trimStart_split s) as (w' & _ & E').
    rewrite E'. apply in_or_app. right. rewrite E. apply in_or_app.
    left. exact Hs. }
  apply T in I.
  assert (F1 : forall s, In c (strip_fence_close s) -> In c s).
  { intros s. unfold strip_fence_close.
    destruct (endsWith s (str "```")); [|auto].
    intros Hs. rewrite <- (firstn_skipn (List.length s - 3) s).
    apply in_or_app. left. exact Hs. }
  apply F1 in I.
  assert (F2 : forall s, In c (strip_fence_open s) -> In c s).
  { intros s. unfold strip_fence_open.
    destruct (startsWith_ci s (str "```json")); [|auto].
    intros Hs. destruct (trimStart_split (skipn 7 s)) as (w & _ & E).
    rewrite <- (firstn_skipn 7 s). apply in_or_app. right.
    rewrite E. apply in_or_app. right. exact Hs. }
  apply F2 in I. apply T in I. exact I.
Qed.

Lemma gs_clean_no_brace text :
  ~ In c_lbrace text ->
  GeminiService.cleanJsonString (Some text) = empty_object.
Proof.
  intros H. destruct text as [|a text]; [reflexivity|].
  destruct (@gs_root (a :: text) ltac:(discriminate)) as [G _].
  apply G. apply unwrap_no_char. exact H.
Qed.

Lemma v31_clean_no_root text :
  ~ In c_lbrace text -> ~ In c_lbracket text ->
  GeminiServiceV31.cleanJsonString (Some text) = empty_object.
Proof.
  intros H1 H2. destruct text as [|a text]; [reflexivity|].
  destruct (@v31_root (a :: text) ltac:(discriminate)) as [G _].
  apply G; apply unwrap_no_char; assumption.
Qed.

End CallFacts.

Module ValuesFacts.

Import JS JSON Repair Runtime Spec Keyframes Calls.
Local Open Scope N_scope.





End ValuesFacts.

(* ================================================================== *)
(** ** Facts about the other calls *)
(* ================================================================== *)

Module ReplyFacts.

Import JS JSON Repair Runtime Tokens Calls HeadFacts FenceFacts CallFacts.
Local Open Scope N_scope.

Lemma trim_incl c s : In c (trim s) -> In c s.
Proof.
  intros Hs. unfold trim in Hs.
  destruct (trimEnd_split (trimStart s)) as (w & _ & E).
  destruct (trimStart_split s) as (w' & _ & E').
  rewrite E'. apply in_or_app. right. rewrite E. apply in_or_app.
  left. exact Hs.
Qed.

Lemma trim_idem s : trim (trim s) = trim s.
Proof.
  destruct (trim s) as [|c r] eqn:E; [reflexivity|].
  rewrite <- E. exact (proj2 (proj2 (@trim_ends _ _ _ E))).
Qed.

(** A text with no backtick has no fence to lose. *)
Lemma unwrap_plain b : ~ In c_backtick b -> unwrap b = trim b.
Proof.
  intros H. unfold unwrap.
  assert (H' : ~ In c_backtick (trim b)).
  { intros I. apply H. apply trim_incl. exact I. }
  unfold strip_fence_open.
  destruct (startsWith_ci (trim b) (str "```json")) eqn:S.
  { destruct (@fence_head _ S) as [f' E]. exfalso. apply H'.
    rewrite E. left. reflexivity. }
  unfold strip_fence_close.
  destruct (endsWith (trim b) (str "```")) eqn:S'.
  { exfalso. apply H'. unfold endsWith in S'.
    change (rev (str "```")) with (c_backtick :: str "``") in S'.
    destruct (rev (trim b)) as [|y r] eqn:R; [discriminate|].
    cbn [startsWith] in S'. apply andb_true_iff in S' as [S' _].
    apply N.eqb_eq in S'. subst y. apply in_rev. rewrite R.
    left. reflexivity. }
  apply trim_idem.
Qed.

Lemma gs_clean_no_newline text y :
  In y (GeminiService.cleanJsonString text) -> y <> c_lf /\ y <> c_cr.
Proof.
  unfold GeminiService.cleanJsonString.
  assert (E : forall y, In y empty_object -> y <> c_lf /\ y <> c_cr).
  { intros z [<-|[<-|[]]]; split; discriminate. }
  destruct text as [[|a t]|]; [apply E|idtac|apply E].
  cbv zeta.
  destruct (indexOf (unwrap (a :: t)) c_lbrace =? -1)%Z; [apply E|].
  apply postprocess_no_newline.
Qed.

Lemma v31_clean_no_newline text y :
  In y (GeminiServiceV31.cleanJsonString text) -> y <> c_lf /\ y <> c_cr.
Proof.
  unfold GeminiServiceV31.cleanJsonString.
  assert (E : forall y, In y empty_object -> y <> c_lf /\ y <> c_cr).
  { intros z [<-|[<-|[]]]; split; discriminate. }
  destruct text as [[|a t]|]; [apply E|idtac|apply E].
  cbv zeta.
  destruct (GeminiServiceV31.find_start (unwrap (a :: t)) =? -1)%Z;
    [apply E|].
  apply postprocess_no_newline.
Qed.

(** A call that hands back what it parsed had a key, raised no event and
    read its value off the first answer. *)
Lemma gs_json_call_ok syntaxError w task ev v :
  GeminiServiceCalls.json_call syntaxError w task = (ev, Ok v) ->
  ev = [] /\ has_key w = true
  /\ exists text, generateContent w 0 = Text text
       /\ JSON.parse (GeminiService.cleanJsonString text) = Some v.
Proof.
  unfold GeminiServiceCalls.json_call.
  destruct (has_key w); cbn [negb]; [|discriminate].
  destruct (generateContent w 0) as [text|m].
  - destruct (JSON.parse (GeminiService.cleanJsonString text)) as [x|] eqn:P.
    + intros H. injection H as <- <-. split; [reflexivity|].
      split; [reflexivity|]. exists text. split; [reflexivity|exact P].
    + destruct (GeminiService.handleApiError _ task) as [e1 e2].
      discriminate.
  - destruct (GeminiService.handleApiError m task) as [e1 e2]. discriminate.
Qed.

Lemma v31_json_call_ok syntaxError w task v :
  GeminiServiceV31Calls.json_call syntaxError w task = Ok v ->
  has_key w = true
  /\ exists text, generateContent w 0 = Text text
       /\ JSON.parse (GeminiServiceV31.cleanJsonString text) = Some v.
Proof.
  unfold GeminiServiceV31Calls.json_call.
  destruct (has_key w); cbn [negb]; [|discriminate].
  destruct (generateContent w 0) as [text|m]; [|discriminate].
  destruct (JSON.parse (GeminiServiceV31.cleanJsonString text)) as [x|] eqn:P;
    [|discriminate].
  intros H. injection H as <-. split; [reflexivity|].
  exists text. split; [reflexivity|exact P].
Qed.


End ReplyFacts.

(* ================================================================== *)
(** ** Facts about the image calls *)
(* ================================================================== *)

Module ImageFacts.

Import JS JSON Repair Runtime Image.
Local Open Scope N_scope.

Lemma before_app c a r :
  ~ In c a -> before c (a ++ c :: r) = a.
Proof.
  induction a as [|x a IH]; intros H; cbn [app before].
  - rewrite N.eqb_refl. reflexivity.
  - destruct (N.eqb_spec x c) as [->|_]; [exfalso; apply H; left; reflexivity|].
    f_equal. apply IH. intros I. apply H. right. exact I.
Qed.

Lemma before_none c a : ~ In c a -> before c a = a.
Proof.
  induction a as [|x a IH]; intros H; cbn [before]; [reflexivity|].
  destruct (N.eqb_spec x c) as [->|_]; [exfalso; apply H; left; reflexivity|].
  f_equal. apply IH. intros I. apply H. right. exact I.
Qed.

Lemma after_app c a r :
  ~ In c a -> after c (a ++ c :: r) = Some r.
Proof.
  induction a as [|x a IH]; intros H; cbn [app after].
  - rewrite N.eqb_refl. reflexivity.
  - destruct (N.eqb_spec x c) as [->|_]; [exfalso; apply H; left; reflexivity|].
    apply IH. intros I. apply H. right. exact I.
Qed.

Lemma after_none c a : ~ In c a -> after c a = None.
Proof.
  induction a as [|x a IH]; intros H; cbn [after]; [reflexivity|].
  destruct (N.eqb_spec x c) as [->|_]; [exfalso; apply H; left; reflexivity|].
  apply IH. intros I. apply H. right. exact I.
Qed.

(** The capture runs to the first semicolon when no line terminator comes
    before it. *)
Lemma upto_semicolon_app m r :
  ~ In c_semicolon m ->
  Forall (fun c => isLineTerminator c = false) m ->
  upto_semicolon (m ++ c_semicolon :: r) = Some m.
Proof.
  intros H F. induction F as [|x m Hx F IH]; cbn [app upto_semicolon].
  - rewrite N.eqb_refl. reflexivity.
  - destruct (N.eqb_spec x c_semicolon) as [->|_];
      [exfalso; apply H; left; reflexivity|].
    rewrite Hx. rewrite IH; [reflexivity|].
    intros I. apply H. right. exact I.
Qed.

Lemma match_mime_none s : ~ In c_colon s -> match_mime s = None.
Proof.
  induction s as [|x s IH]; intros H; cbn [match_mime]; [reflexivity|].
  destruct (N.eqb_spec x c_colon) as [->|_]; [exfalso; apply H; left; reflexivity|].
  apply IH. intros I. apply H. right. exact I.
Qed.

(** The reference part made from a data URL with a clean type and clean
    data is the pair the URL was made of. *)
Lemma split_image_url (mime dat : jsstring) :
  ~ In c_comma mime ->
  split_header_data (image_url (mkInline (Some dat) (Some mime)))
  = ((str "data:" ++ mime ++ str ";base64")%list, Some (before c_comma dat)).
Proof.
  intros Hm. unfold split_header_data, image_url. cbn [interpolate mimeType data].
  assert (E : (str "data:" ++ mime ++ str ";base64," ++ dat)%list
              = ((str "data:" ++ mime ++ str ";base64") ++ c_comma :: dat)%list).
  { rewrite <- !app_assoc. reflexivity. }
  rewrite E.
  assert (N : ~ In c_comma (str "data:" ++ mime ++ str ";base64")).
  { intros I. apply in_app_or in I as [I|I];
      [vm_compute in I; intuition discriminate|].
    apply in_app_or in I as [I|I]; [exact (Hm I)|].
    vm_compute in I; intuition discriminate. }
  rewrite (@before_app c_comma _ dat N), (@after_app c_comma _ dat N). reflexivity.
Qed.

Lemma mimeType_of_header (mime : jsstring) :
  mime <> [] -> ~ In c_semicolon mime ->
  Forall (fun c => isLineTerminator c = false) mime ->
  mimeType_of (str "data:" ++ mime ++ str ";base64") = mime.
Proof.
  intros Hne Hs F. unfold mimeType_of.
  change (str "data:" ++ mime ++ str ";base64")%list
    with (100 :: 97 :: 116 :: 97 :: c_colon
            :: (mime ++ c_semicolon :: str "base64"))%list.
  cbn [match_mime]. change (100 =? c_colon) with false.
  change (97 =? c_colon) with false. change (116 =? c_colon) with false.
  cbv iota. rewrite N.eqb_refl.
  rewrite (@upto_semicolon_app mime (str "base64") Hs F).
  destruct mime; [contradiction|reflexivity].
Qed.

End ImageFacts.

Module ImageRetryFacts.

Import JS JSON Repair Runtime Image.

Lemma v31_image_fuel_requests fuel : forall w w' prompt ar model ref rc,
  IMAGE_API_KEY w = IMAGE_API_KEY w' ->
  (forall req n, (rc <= n <= 3)%nat ->
     generateImageContent w req n = generateImageContent w' req n) ->
  (rc <= 3)%nat ->
  GeminiServiceV31Image.generateImage_fuel fuel w prompt ar model ref rc
  = GeminiServiceV31Image.generateImage_fuel fuel w' prompt ar model ref rc.
Proof.
  induction fuel as [|f IH]; intros w w' prompt ar model ref rc K G Hrc;
    [reflexivity|].
  cbn [GeminiServiceV31Image.generateImage_fuel].
  assert (HK : image_has_key w = image_has_key w')
    by (unfold image_has_key; rewrite K; reflexivity).
  rewrite HK. destruct (image_has_key w'); cbn [negb]; [|reflexivity].
  rewrite (G _ rc) by lia.
  assert (R : (rc < 3)%nat ->
              GeminiServiceV31Image.generateImage_fuel f w prompt ar model ref
                (S rc)
              = GeminiServiceV31Image.generateImage_fuel f w' prompt ar model
                  ref (S rc)).
  { intros H. apply IH; [exact K| |lia]. intros req n Hn. apply G. lia. }
  destruct (generateImageContent w' _ rc) as [parts|m].
  - destruct (first_image parts); [reflexivity|].
    destruct (GeminiServiceV31.is_quota _); cbn [andb]; [|reflexivity].
    destruct (Nat.ltb_spec rc 3); [apply R; assumption|reflexivity].
  - destruct (GeminiServiceV31.is_quota m); cbn [andb]; [|reflexivity].
    destruct (Nat.ltb_spec rc 3); [apply R; assumption|reflexivity].
Qed.

Lemma v31_image_fuel_total fuel : forall w prompt ar model ref rc,
  (1 <= fuel)%nat -> (4 <= fuel + rc)%nat ->
  GeminiServiceV31Image.generateImage_fuel fuel w prompt ar model ref rc
  <> None.
Proof.
  induction fuel as [|f IH]; intros w prompt ar model ref rc H1 H4; [lia|].
  cbn [GeminiServiceV31Image.generateImage_fuel].
  destruct (image_has_key w); cbn [negb]; [|discriminate].
  assert (R : (rc < 3)%nat ->
              GeminiServiceV31Image.generateImage_fuel f w prompt ar model ref
                (S rc) <> None).
  { intros H. apply IH; lia. }
  destruct (generateImageContent w _ rc) as [parts|m].
  - destruct (first_image parts); [discriminate|].
    destruct (GeminiServiceV31.is_quota _); cbn [andb]; [|discriminate].
    destruct (Nat.ltb_spec rc 3); [apply R; assumption|discriminate].
  - destruct (GeminiServiceV31.is_quota m); cbn [andb]; [|discriminate].
    destruct (Nat.ltb_spec rc 3); [apply R; assumption|discriminate].
Qed.

Lemma first_image_url parts url :
  first_image parts = Some url ->
  exists d, In (Some d) parts /\ url = image_url d.
Proof.
  induction parts as [|[d|] parts IH]; [discriminate| |].
  - intros H. injection H as <-. exists d. split; [left|]; reflexivity.
  - intros H. destruct (IH H) as (d & I & E). exists d.
    split; [right; exact I|exact E].
Qed.

(** What [generateImage] of part_008 returns is the URL of a part of one of
    the answers. *)
Lemma v31_image_fuel_url fuel : forall w prompt ar model ref rc url,
  GeminiServiceV31Image.generateImage_fuel fuel w prompt ar model ref rc
  = Some (Ok url) ->
  exists n parts d,
    generateImageContent w (request_of prompt ar model ref) n = Parts parts
    /\ In (Some d) parts /\ url = image_url d.
Proof.
  induction fuel as [|f IH]; intros w prompt ar model ref rc url; [discriminate|].
  cbn [GeminiServiceV31Image.generateImage_fuel].
  destruct (image_has_key w); cbn [negb]; [|discriminate].
  destruct (generateImageContent w _ rc) as [parts|m] eqn:G.
  - destruct (first_image parts) as [u|] eqn:F.
    + intros H. injection H as <-.
      destruct (@first_image_url parts u F) as (d & I & E).
      exists rc, parts, d. repeat split; assumption.
    + destruct (GeminiServiceV31.is_quota _ && _); [apply IH|discriminate].
  - destruct (GeminiServiceV31.is_quota _ && _); [apply IH|discriminate].
Qed.

End ImageRetryFacts.

(* ================================================================== *)
(** ** Facts about the WAV header and its reader *)
(* ================================================================== *)

Module WavFacts.

Import JS Runtime Wav.
Local Open Scope Z_scope.

Lemma le_bytes_length n : forall v, List.length (le_bytes n v) = n.
Proof.
  induction n as [|n IH]; intros v; [reflexivity|].
  cbn [le_bytes List.length]. rewrite IH. reflexivity.
Qed.

(** Reading back what a setter stored gives the argument, reduced. *)
Lemma le_value_le_bytes n : forall v,
  le_value (le_bytes n v) = v mod 256 ^ Z.of_nat n.
Proof.
  induction n as [|n IH]; intros v.
  - cbn [le_bytes le_value]. rewrite Z.mod_1_r. reflexivity.
  - cbn [le_bytes le_value]. rewrite IH.
    rewrite Nat2Z.inj_succ, Z.pow_succ_r by lia.
    rewrite Z.rem_mul_r by lia. reflexivity.
Qed.

Lemma le_bytes_range n : forall v x,
  In x (le_bytes n v) -> 0 <= x < 256.
Proof.
  induction n as [|n IH]; intros v x; [intros []|].
  cbn [le_bytes]. intros [<-|H]; [apply Z.mod_pos_bound; lia|].
  exact (IH _ _ H).
Qed.

Ltac hide_bytes :=
  repeat match goal with
         | |- context [?a mod 256] =>
             lazymatch a with
             | context [charCode] => fail
             | _ => let x := fresh "x" in generalize (a mod 256); intro x
             end
         end.

(** The header, byte by byte. *)
Lemma createWavHeader_bytes dataLength sampleRate numChannels bitsPerSample :
  createWavHeader dataLength sampleRate numChannels bitsPerSample
  = Some (tag "RIFF" ++ le_bytes 4 (36 + dataLength)
          ++ tag "WAVE" ++ tag "fmt "
          ++ le_bytes 4 16 ++ le_bytes 2 1 ++ le_bytes 2 numChannels
          ++ le_bytes 4 sampleRate
          ++ le_bytes 4 (Z.quot (sampleRate * numChannels * bitsPerSample) 8)
          ++ le_bytes 2 (Z.quot (numChannels * bitsPerSample) 8)
          ++ le_bytes 2 bitsPerSample
          ++ tag "data" ++ le_bytes 4 dataLength)%list.
Proof.
  unfold createWavHeader, setUint8, setUint16, setUint32.
  cbn [le_bytes]. hide_bytes. vm_compute. reflexivity.
Qed.

Lemma in_bounds_app_l (a b : buffer) off n :
  off + n <= Z.of_nat (List.length a) ->
  in_bounds (a ++ b) off n = in_bounds a off n.
Proof.
  intros H. unfold in_bounds. rewrite length_app, Nat2Z.inj_add.
  destruct (0 <=? off); cbn [andb]; [|reflexivity].
  destruct (Z.leb_spec (off + n) (Z.of_nat (List.length a)));
    destruct (Z.leb_spec (off + n)
                (Z.of_nat (List.length a) + Z.of_nat (List.length b)));
    try reflexivity; lia.
Qed.

(** A read that ends inside the first part of a buffer does not see the
    rest. *)
Lemma read_app_l (a b : buffer) off n :
  0 <= off -> off + Z.of_nat n <= Z.of_nat (List.length a) ->
  read (a ++ b) off n = read a off n.
Proof.
  intros H0 H. unfold read. rewrite in_bounds_app_l by exact H.
  destruct (in_bounds a off (Z.of_nat n)); [|reflexivity]. f_equal.
  rewrite skipn_app.
  replace (Z.to_nat off - List.length a)%nat with 0%nat by lia.
  cbn [skipn]. rewrite firstn_app.
  rewrite length_skipn.
  replace (n - (List.length a - Z.to_nat off))%nat with 0%nat by lia.
  cbn [firstn]. apply app_nil_r.
Qed.

(** Reading one segment of a buffer made of segments. *)
Lemma read_concat (pre : list (list Z)) seg post off n :
  off = Z.of_nat (List.length (List.concat pre)) -> n = List.length seg ->
  read (List.concat (pre ++ seg :: post)) off n = Some seg.
Proof.
  intros -> ->. unfold read, in_bounds.
  rewrite concat_app. cbn [List.concat]. rewrite !length_app.
  destruct (Z.leb_spec 0 (Z.of_nat (List.length (List.concat pre)))); [|lia].
  cbn [andb].
  match goal with |- context [?a <=? ?b] => destruct (Z.leb_spec a b) end;
    [|rewrite !Nat2Z.inj_add in *; lia].
  f_equal. rewrite Nat2Z.id. rewrite skipn_app, skipn_all, Nat.sub_diag.
  cbn [skipn app]. rewrite firstn_app, firstn_all, Nat.sub_diag.
  cbn [firstn]. apply app_nil_r.
Qed.

End WavFacts.

Module WavHeaderFacts.

Import JS Runtime Wav WavFacts.
Local Open Scope Z_scope.

Lemma createWavHeader_segments dataLength sampleRate numChannels bitsPerSample :
  createWavHeader dataLength sampleRate numChannels bitsPerSample
  = Some (List.concat (segments dataLength sampleRate numChannels bitsPerSample)).
Proof.
  rewrite createWavHeader_bytes. unfold segments. cbn [List.concat].
  rewrite app_nil_r. reflexivity.
Qed.

Lemma segments_length dataLength sampleRate numChannels bitsPerSample :
  List.length
    (List.concat (segments dataLength sampleRate numChannels bitsPerSample))
  = 44%nat.
Proof. reflexivity. Qed.

Section Fields.

Variables dataLength sampleRate numChannels bitsPerSample : Z.

Let h := List.concat (segments dataLength sampleRate numChannels bitsPerSample).

Lemma field_riff : read h 0 4 = Some (tag "RIFF").
Proof. apply (@read_concat [] (tag "RIFF")); reflexivity. Qed.

Lemma field_riff_size : getUint32 h 4 = Some ((36 + dataLength) mod 2 ^ 32).
Proof.
  unfold getUint32.
  match goal with |- option_map _ (read h ?o ?n) = _ =>
    assert (E : read h o n = Some (le_bytes 4 (36 + dataLength)))
      by (apply (@read_concat [tag "RIFF"] (le_bytes 4 (36 + dataLength))); reflexivity)
  end.
  rewrite E.
  cbn [option_map]. rewrite le_value_le_bytes. reflexivity.
Qed.

Lemma field_wave : read h 8 4 = Some (tag "WAVE").
Proof.
  apply (@read_concat [tag "RIFF"; le_bytes 4 (36 + dataLength)] (tag "WAVE"));
    reflexivity.
Qed.

Lemma field_fmt : read h 12 4 = Some (tag "fmt ").
Proof.
  apply (@read_concat [tag "RIFF"; le_bytes 4 (36 + dataLength); tag "WAVE"]
           (tag "fmt ")); reflexivity.
Qed.

Lemma field_fmt_size : getUint32 h 16 = Some 16.
Proof.
  unfold getUint32.
  match goal with |- option_map _ (read h ?o ?n) = _ =>
    assert (E : read h o n = Some (le_bytes 4 16))
      by (apply (@read_concat [tag "RIFF"; le_bytes 4 (36 + dataLength); tag "WAVE";
                         tag "fmt "] (le_bytes 4 16)); reflexivity)
  end.
  rewrite E.
  reflexivity.
Qed.

Lemma field_format : getUint16 h 20 = Some 1.
Proof.
  unfold getUint16.
  match goal with |- option_map _ (read h ?o ?n) = _ =>
    assert (E : read h o n = Some (le_bytes 2 1))
      by (apply (@read_concat [tag "RIFF"; le_bytes 4 (36 + dataLength); tag "WAVE";
                         tag "fmt "; le_bytes 4 16] (le_bytes 2 1)); reflexivity)
  end.
  rewrite E.
  reflexivity.
Qed.

Lemma field_channels : getUint16 h 22 = Some (numChannels mod 2 ^ 16).
Proof.
  unfold getUint16.
  match goal with |- option_map _ (read h ?o ?n) = _ =>
    assert (E : read h o n = Some (le_bytes 2 numChannels))
      by (apply (@read_concat [tag "RIFF"; le_bytes 4 (36 + dataLength); tag "WAVE";
                         tag "fmt "; le_bytes 4 16; le_bytes 2 1]
                        (le_bytes 2 numChannels)); reflexivity)
  end.
  rewrite E.
  cbn [option_map]. rewrite le_value_le_bytes. reflexivity.
Qed.

Lemma field_rate : getUint32 h 24 = Some (sampleRate mod 2 ^ 32).
Proof.
  unfold getUint32.
  match goal with |- option_map _ (read h ?o ?n) = _ =>
    assert (E : read h o n = Some (le_bytes 4 sampleRate))
      by (apply (@read_concat [tag "RIFF"; le_bytes 4 (36 + dataLength); tag "WAVE";
                         tag "fmt "; le_bytes 4 16; le_bytes 2 1;
                         le_bytes 2 numChannels]
                        (le_bytes 4 sampleRate)); reflexivity)
  end.
  rewrite E.
  cbn [option_map]. rewrite le_value_le_bytes. reflexivity.
Qed.

Lemma field_byte_rate :
  getUint32 h 28
  = Some (Z.quot (sampleRate * numChannels * bitsPerSample) 8 mod 2 ^ 32).
Proof.
  unfold getUint32.
  match goal with |- option_map _ (read h ?o ?n) = _ =>
    assert (E : read h o n = Some (le_bytes 4 (Z.quot (sampleRate * numChannels * bitsPerSample) 8)))
      by (apply (@read_concat [tag "RIFF"; le_bytes 4 (36 + dataLength); tag "WAVE";
                         tag "fmt "; le_bytes 4 16; le_bytes 2 1;
                         le_bytes 2 numChannels; le_bytes 4 sampleRate]
             (le_bytes 4 (Z.quot (sampleRate * numChannels * bitsPerSample) 8))); reflexivity)
  end.
  rewrite E.
  cbn [option_map]. rewrite le_value_le_bytes. reflexivity.
Qed.

Lemma field_block_align :
  getUint16 h 32 = Some (Z.quot (numChannels * bitsPerSample) 8 mod 2 ^ 16).
Proof.
  unfold getUint16.
  match goal with |- option_map _ (read h ?o ?n) = _ =>
    assert (E : read h o n = Some (le_bytes 2 (Z.quot (numChannels * bitsPerSample) 8)))
      by (apply (@read_concat [tag "RIFF"; le_bytes 4 (36 + dataLength); tag "WAVE";
                         tag "fmt "; le_bytes 4 16; le_bytes 2 1;
                         le_bytes 2 numChannels; le_bytes 4 sampleRate;
                         le_bytes 4 (Z.quot (sampleRate * numChannels
                                             * bitsPerSample) 8)]
             (le_bytes 2 (Z.quot (numChannels * bitsPerSample) 8))); reflexivity)
  end.
  rewrite E.
  cbn [option_map]. rewrite le_value_le_bytes. reflexivity.
Qed.

Lemma field_bits : getUint16 h 34 = Some (bitsPerSample mod 2 ^ 16).
Proof.
  unfold getUint16.
  match goal with |- option_map _ (read h ?o ?n) = _ =>
    assert (E : read h o n = Some (le_bytes 2 bitsPerSample))
      by (apply (@read_concat [tag "RIFF"; le_bytes 4 (36 + dataLength); tag "WAVE";
                         tag "fmt "; le_bytes 4 16; le_bytes 2 1;
                         le_bytes 2 numChannels; le_bytes 4 sampleRate;
                         le_bytes 4 (Z.quot (sampleRate * numChannels
                                             * bitsPerSample) 8);
                         le_bytes 2 (Z.quot (numChannels * bitsPerSample) 8)]
             (le_bytes 2 bitsPerSample)); reflexivity)
  end.
  rewrite E.
  cbn [option_map]. rewrite le_value_le_bytes. reflexivity.
Qed.

Lemma field_data : read h 36 4 = Some (tag "data").
Proof.
  apply (@read_concat [tag "RIFF"; le_bytes 4 (36 + dataLength); tag "WAVE";
                       tag "fmt "; le_bytes 4 16; le_bytes 2 1;
                       le_bytes 2 numChannels; le_bytes 4 sampleRate;
                       le_bytes 4 (Z.quot (sampleRate * numChannels
                                           * bitsPerSample) 8);
                       le_bytes 2 (Z.quot (numChannels * bitsPerSample) 8);
                       le_bytes 2 bitsPerSample] (tag "data")); reflexivity.
Qed.

Lemma field_data_size : getUint32 h 40 = Some (dataLength mod 2 ^ 32).
Proof.
  unfold getUint32.
  match goal with |- option_map _ (read h ?o ?n) = _ =>
    assert (E : read h o n = Some (le_bytes 4 dataLength))
      by (apply (@read_concat [tag "RIFF"; le_bytes 4 (36 + dataLength); tag "WAVE";
                         tag "fmt "; le_bytes 4 16; le_bytes 2 1;
                         le_bytes 2 numChannels; le_bytes 4 sampleRate;
                         le_bytes 4 (Z.quot (sampleRate * numChannels
                                             * bitsPerSample) 8);
                         le_bytes 2 (Z.quot (numChannels * bitsPerSample) 8);
                         le_bytes 2 bitsPerSample; tag "data"]
             (le_bytes 4 dataLength)); reflexivity)
  end.
  rewrite E.
  cbn [option_map]. rewrite le_value_le_bytes. reflexivity.
Qed.

Lemma header_bytes_range : Forall (fun x => 0 <= x < 256) h.
Proof.
  unfold h, segments. cbn [List.concat]. rewrite app_nil_r.
  repeat (apply Forall_app; split);
    try (apply Forall_forall; intros x Hx; eapply le_bytes_range; exact Hx);
    repeat constructor; vm_compute; intuition discriminate.
Qed.

End Fields.

End WavHeaderFacts.

Module WavReaderFacts.

Import JS Runtime Wav WavFacts WavHeaderFacts.
Local Open Scope Z_scope.

Lemma firstn_incl {A} n (l : list A) x : In x (firstn n l) -> In x l.
Proof.
  intros H. rewrite <- (firstn_skipn n l). apply in_or_app. left. exact H.
Qed.

Lemma skipn_incl {A} n (l : list A) x : In x (skipn n l) -> In x l.
Proof.
  intros H. rewrite <- (firstn_skipn n l). apply in_or_app. right. exact H.
Qed.

Lemma le_value_nonneg bytes : Forall is_byte bytes -> 0 <= le_value bytes.
Proof.
  induction 1 as [|x r Hx _ IH]; cbn [le_value]; [lia|].
  unfold is_byte in Hx. lia.
Qed.

Lemma read_bytes file off n bytes :
  Forall is_byte file -> read file off n = Some bytes -> Forall is_byte bytes.
Proof.
  intros F. unfold read. destruct (in_bounds file off (Z.of_nat n)); [|discriminate].
  intros H. injection H as <-.
  apply Forall_forall. intros x Hx. rewrite Forall_forall in F. apply F.
  apply firstn_incl in Hx. apply skipn_incl in Hx. exact Hx.
Qed.

(** The search ends: each round moves on by eight bytes at least. *)
Lemma find_data_total file : Forall is_byte file ->
  forall fuel pos,
    0 <= pos -> (1 <= fuel)%nat ->
    Z.of_nat (List.length file) - pos < Z.of_nat fuel ->
    find_data fuel file pos <> None.
Proof.
  intros F. induction fuel as [|f IH]; intros pos H0 H1 H; [lia|].
  cbn [find_data].
  destruct (Z.ltb_spec pos (Z.of_nat (List.length file))); [|discriminate].
  destruct (read file pos 4) as [id|]; [|discriminate].
  unfold getUint32.
  destruct (read file (pos + 4) 4) as [sz|] eqn:R; cbn [option_map];
    [|discriminate].
  destruct (list_eq_dec Z.eq_dec id (tag "data")); [discriminate|].
  pose proof (le_value_nonneg (read_bytes _ _ F R)).
  apply IH; lia.
Qed.

(** Where the search says the data start, the eight bytes before are the
    tag [data] and a size. *)
Lemma find_data_found file : Forall is_byte file ->
  forall fuel pos p,
    0 <= pos ->
    find_data fuel file pos = Some (Some p) ->
    pos <= p
    /\ (p < Z.of_nat (List.length file) ->
        pos + 8 <= p /\ read file (p - 8) 4 = Some (tag "data")).
Proof.
  intros F. induction fuel as [|f IH]; intros pos p H0; [discriminate|].
  cbn [find_data].
  destruct (Z.ltb_spec pos (Z.of_nat (List.length file))).
  - destruct (read file pos 4) as [id|] eqn:Rid; [|discriminate].
    unfold getUint32.
    destruct (read file (pos + 4) 4) as [sz|] eqn:R; cbn [option_map];
      [|discriminate].
    destruct (list_eq_dec Z.eq_dec id (tag "data")) as [->|N].
    + intros E. injection E as <-. split; [lia|]. intros _.
      split; [lia|]. replace (pos + 8 - 8) with pos by lia. exact Rid.
    + pose proof (le_value_nonneg (read_bytes _ _ F R)).
      intros E. apply IH in E; [|lia].
      destruct E as [E1 E2]. split; [lia|]. intros Hp.
      destruct (E2 Hp) as [E3 E4]. split; [lia|exact E4].
  - intros E. injection E as <-. split; [lia|]. intros; lia.
Qed.

End WavReaderFacts.

Module WavFileFacts.

Import JS Runtime Wav WavFacts WavHeaderFacts WavReaderFacts.
Local Open Scope Z_scope.

Section File.

Variable pcm : list Z.

Let n := Z.of_nat (List.length pcm).
Let h := List.concat (segments n 24000 1 16).
Let file := (h ++ pcm)%list.

Lemma file_length : List.length file = (44 + List.length pcm)%nat.
Proof. unfold file. rewrite length_app. reflexivity. Qed.

Lemma file_read off k :
  0 <= off -> off + Z.of_nat k <= 44 -> read file off k = read h off k.
Proof. intros H0 H. apply read_app_l; [exact H0|exact H]. Qed.

Lemma file_search :
  find_data (S (List.length file)) file 12 = Some (Some 44).
Proof.
  rewrite file_length. cbn [Nat.add find_data].
  assert (L : Z.of_nat (List.length file) = 44 + n)
    by (rewrite file_length; unfold n; lia).
  rewrite L.
  destruct (Z.ltb_spec 12 (44 + n)); [|unfold n in *; lia].
  unfold getUint32.
  rewrite !file_read by lia.
  change (read h 12 4) with (read (List.concat (segments n 24000 1 16)) 12 4).
  rewrite field_fmt.
  change (12 + 4) with 16.
  pose proof (field_fmt_size n 24000 1 16) as E. unfold getUint32 in E.
  fold h in E. rewrite E.
  destruct (list_eq_dec Z.eq_dec (tag "fmt ") (tag "data")) as [D|_];
    [vm_compute in D; discriminate|].
  change (12 + 8 + 16) with 36.
  destruct (Z.ltb_spec 36 (44 + n)); [|unfold n in *; lia].
  rewrite !file_read by lia.
  change (read h 36 4) with (read (List.concat (segments n 24000 1 16)) 36 4).
  rewrite field_data.
  change (36 + 4) with 40.
  pose proof (field_data_size n 24000 1 16) as E2. unfold getUint32 in E2.
  fold h in E2. destruct (read h 40 4) as [sz|]; [|discriminate].
  cbn [option_map].
  destruct (list_eq_dec Z.eq_dec (tag "data") (tag "data")) as [_|D];
    [reflexivity|contradiction].
Qed.

Lemma file_checks :
  getUint16 file 20 = Some 1 /\ getUint16 file 22 = Some 1
  /\ getUint32 file 24 = Some 24000 /\ getUint16 file 34 = Some 16.
Proof.
  unfold getUint16, getUint32. rewrite !file_read by lia.
  pose proof (field_format n 24000 1 16) as A.
  pose proof (field_channels n 24000 1 16) as B.
  pose proof (field_rate n 24000 1 16) as C.
  pose proof (field_bits n 24000 1 16) as D.
  repeat split; assumption.
Qed.

Lemma file_parsed :
  convertWavToMp3_header file
  = Some (if 44 >=? 44 + n then Failure (js "WAV 'data' chunk not found.")
          else if negb ((44 + n) mod 2 =? 0) then RangeError
          else Pcm 1 24000 44 ((44 + n - 44) / 2)).
Proof.
  unfold convertWavToMp3_header.
  destruct file_checks as (A & B & C & D). rewrite A, B, C, D.
  cbn [Z.eqb negb Pos.eqb]. rewrite file_search.
  assert (L : Z.of_nat (List.length file) = 44 + n)
    by (rewrite file_length; unfold n; lia).
  rewrite L. change (44 mod 2 =? 0) with true. cbn [negb orb].
  destruct (44 >=? 44 + n); [reflexivity|].
  destruct (negb ((44 + n) mod 2 =? 0)); reflexivity.
Qed.

End File.

End WavFileFacts.

(* ================================================================== *)
(** ** Further properties of the two service files and their callers *)
(* ================================================================== *)

Import Keyframes Reports HeadFacts FenceFacts RequestFacts CallFacts ReplyFacts.
Local Open Scope Z_scope.

(** X1.  What [cleanJsonString] returns, for any reply or none, begins with
    an opening brace in src/services/geminiService.ts and with an opening
    brace or bracket in part_008.  So whenever the returned text parses (in
    src/services/geminiService.ts as it is, or with the closing brace that
    the caller appends on its second attempt), the value is an object, in
    part_008 an object or an array, and never a number, a string, a boolean
    or [null]. *)
Theorem recovered_text_never_parses_to_a_scalar :
  (forall text v,
      JSON.parse (GeminiService.cleanJsonString text) = Some v ->
      is_object v = true)
  /\ (forall text v,
         JSON.parse (GeminiService.cleanJsonString text ++ [c_rbrace])
         = Some v ->
         is_object v = true)
  /\ (forall text v,
         JSON.parse (GeminiServiceV31.cleanJsonString text) = Some v ->
         is_container v = true)
  /\ (forall text, exists t,
         GeminiService.cleanJsonString text = c_lbrace :: t)
  /\ (forall text, exists c t,
         GeminiServiceV31.cleanJsonString text = c :: t
         /\ (c = c_lbrace \/ c = c_lbracket)).
Proof.
  split; [intros text v P; apply (@gs_parse_object text v); left; exact P|].
  split; [intros text v P; apply (@gs_parse_object text v); right; exact P|].
  split; [exact v31_parse_container|].
  split; [exact gs_cleaned_head|exact v31_cleaned_head].
Qed.

Lemma recovered_text_never_parses_to_a_scalar_witness :
  is_object (JObj [(str "a", JNum (mkNumber false 1 0))]) = true
  /\ is_object (JObj [(str "a", JStr (str "}"))]) = true
  /\ is_container (JArr [JNum (mkNumber false 1 0)]) = true.
Proof.
  destruct recovered_text_never_parses_to_a_scalar as (A & B & C & _).
  split; [|split].
  - apply (A (Some (js "noise {'a':1}"))). vm_compute. reflexivity.
  - apply (B (Some (js "{'a':'}',"))). vm_compute. reflexivity.
  - apply (C (Some (js "[1]"))). vm_compute. reflexivity.
Defined.

(** X2.  A reply wrapped in a json fence.  In both files, when the reply
    is white space, the opening fence in any letter case, white space, a
    body that holds no backtick, white space, the closing fence and white
    space, the unwrapping leaves the trimmed body and [cleanJsonString]
    returns what it returns for the body alone. *)
Theorem fenced_reply_is_cleaned_as_its_body :
  forall ws1 f ws2 b ws3 ws4 : jsstring,
    forallb isWhiteSpace ws1 = true -> forallb isWhiteSpace ws2 = true ->
    forallb isWhiteSpace ws3 = true -> forallb isWhiteSpace ws4 = true ->
    List.length f = 7%nat -> startsWith_ci f (str "```json") = true ->
    ~ In c_backtick b ->
    let reply := (ws1 ++ f ++ ws2 ++ b ++ ws3 ++ str "```" ++ ws4)%list in
    unwrap reply = trim b
    /\ GeminiService.cleanJsonString (Some reply)
       = GeminiService.cleanJsonString (Some b)
    /\ GeminiServiceV31.cleanJsonString (Some reply)
       = GeminiServiceV31.cleanJsonString (Some b).
Proof.
  intros ws1 f ws2 b ws3 ws4 W1 W2 W3 W4 Lf Hf Nb reply.
  assert (U : unwrap reply = trim b).
  { exact (@unwrap_fenced ws1 f ws2 b ws3 ws4 W1 W2 W3 W4 Lf Hf). }
  split; [exact U|]. apply clean_unwrap.
  rewrite U. symmetry. apply unwrap_plain. exact Nb.
Qed.

Lemma fenced_reply_is_cleaned_as_its_body_witness :
  let reply := (str " " ++ str "```JSON" ++ js "
" ++ js "{'a': 1}" ++ js "
" ++ str "```" ++ str " ")%list in
  unwrap reply = trim (js "{'a': 1}")
  /\ GeminiService.cleanJsonString (Some reply)
     = GeminiService.cleanJsonString (Some (js "{'a': 1}"))
  /\ GeminiServiceV31.cleanJsonString (Some reply)
     = GeminiServiceV31.cleanJsonString (Some (js "{'a': 1}")).
Proof.
  apply (@fenced_reply_is_cleaned_as_its_body
           (str " ") (str "```JSON") (js "
") (js "{'a': 1}") (js "
") (str " ")); try reflexivity.
  vm_compute. intros H.
  repeat (destruct H as [H|H]; [discriminate H|]). exact H.
Defined.

(** X3.  In both files the text that [cleanJsonString] returns holds no
    line feed and no carriage return, whatever the reply. *)
Theorem cleaned_text_is_one_line :
  forall (text : option jsstring) (y : char),
    (In y (GeminiService.cleanJsonString text) -> y <> c_lf /\ y <> c_cr)
    /\ (In y (GeminiServiceV31.cleanJsonString text) ->
        y <> c_lf /\ y <> c_cr).
Proof.
  intros text y. split;
    [apply gs_clean_no_newline|apply v31_clean_no_newline].
Qed.

Lemma cleaned_text_is_one_line_witness :
  let text := Some (js "{'a':
 1}") in
  c_lbrace <> c_lf /\ c_lbrace <> c_cr.
Proof.
  intros text.
  apply (proj1 (cleaned_text_is_one_line text c_lbrace)).
  vm_compute. left. reflexivity.
Defined.

(** X4.  [generateMoviePackage] of src/services/geminiService.ts, with a
    key and an answer of the service, ends in one of two ways and raises no
    event.  When the cleaned text parses, as it is or with one closing
    brace appended, the call returns the package that the normalizer makes
    of the parsed object; no [TypeError] is possible, the value being an
    object.  When both attempts fail it throws the engine failure that
    carries the structural-failure message in lower case. *)
Theorem gs_answer_gives_a_package_or_the_structural_failure :
  forall w input text,
    has_key w = true ->
    generateContent w 0 = Text text ->
    let rawJson := GeminiService.cleanJsonString text in
    (exists l,
        (JSON.parse rawJson = Some (JObj l)
         \/ (JSON.parse rawJson = None
             /\ JSON.parse (rawJson ++ [c_rbrace]) = Some (JObj l)))
        /\ GeminiService.generateMoviePackage w input
           = ([], Ok (gs_package l input (resolveStyle (visualStyle input)))))
    \/ (JSON.parse rawJson = None
        /\ JSON.parse (rawJson ++ [c_rbrace]) = None
        /\ GeminiService.generateMoviePackage w input
           = ([], Throw (GeminiService.failure_message "GENERATE_PACKAGE"
                           (toLowerCase GeminiService.structural_failure)))).
Proof.
  intros w input text K G rawJson.
  unfold GeminiService.generateMoviePackage. rewrite K, G. cbn [negb].
  fold rawJson. unfold GeminiService.parse_with_retry.
  destruct (JSON.parse rawJson) as [v|] eqn:P1.
  - left. pose proof (@gs_parse_object text v (or_introl P1)) as O.
    destruct v as [| | | | |l]; try discriminate.
    exists l. split; [left; reflexivity|]. reflexivity.
  - destruct (JSON.parse (rawJson ++ [c_rbrace])) as [v|] eqn:P2.
    + left. pose proof (@gs_parse_object text v (or_intror P2)) as O.
      destruct v as [| | | | |l]; try discriminate.
      exists l. split; [right; split; reflexivity|]. reflexivity.
    + right. split; [reflexivity|]. split; [reflexivity|].
      vm_compute. reflexivity.
Qed.

Lemma gs_answer_gives_a_package_or_the_structural_failure_witness :
  let text := js "```json {'story':'s','visualPrompts':[{'label':'A'},null]} ```" in
  let w := constant_world text in
  let rawJson := GeminiService.cleanJsonString (Some text) in
  has_key w = true
  /\ generateContent w 0 = Text (Some text)
  /\ ((exists l,
          (JSON.parse rawJson = Some (JObj l)
           \/ (JSON.parse rawJson = None
               /\ JSON.parse (rawJson ++ [c_rbrace]) = Some (JObj l)))
          /\ GeminiService.generateMoviePackage w sample_input
             = ([], Ok (gs_package l sample_input
                          (resolveStyle (visualStyle sample_input)))))
      \/ (JSON.parse rawJson = None
          /\ JSON.parse (rawJson ++ [c_rbrace]) = None
          /\ GeminiService.generateMoviePackage w sample_input
             = ([], Throw (GeminiService.failure_message "GENERATE_PACKAGE"
                             (toLowerCase GeminiService.structural_failure))))).
Proof.
  intros text w rawJson.
  split; [reflexivity|]. split; [reflexivity|].
  exact (@gs_answer_gives_a_package_or_the_structural_failure
           w sample_input (Some text) eq_refl eq_refl).
Defined.

(** X5.  [generateMoviePackage] of part_008, started with [retryCount] at
    most 5, returns or throws, and looks at the answers to the requests
    [retryCount] to 5 and at no other: two surroundings with the same key
    that agree on these answers give the same outcome.  From 0 that is at
    most six requests. *)
Theorem v31_package_takes_at_most_six_requests :
  forall w w' input rc,
    API_KEY w = API_KEY w' ->
    (rc <= 5)%nat ->
    (forall n, (rc <= n <= 5)%nat ->
               generateContent w n = generateContent w' n) ->
    GeminiServiceV31.generateMoviePackage w input rc
    = GeminiServiceV31.generateMoviePackage w' input rc
    /\ GeminiServiceV31.generateMoviePackage w input rc <> None.
Proof.
  intros w w' input rc K Hrc G. split.
  - unfold GeminiServiceV31.generateMoviePackage.
    apply v31_fuel_requests; assumption.
  - apply Package.v31_generate_total.
Qed.

(** X6.  Quota errors in part_008.  A message that the retry test takes
    for a quota error (it holds 429, QUOTA or RESOURCE_EXHAUSTED, in upper
    case) and that does not begin with a brace is reported by
    [handleApiError] as the quota error.  So when the service rejects the
    six requests 0 to 5 with such messages, [generateMoviePackage] ends by
    throwing the quota error.  The two tests differ all the same: the
    message 'Quota exceeded' is reported as a quota error and is not
    retried, and a message that is a JSON text with code 429 and the inner
    message 'boom' is retried and reported as an engine failure. *)
Theorem v31_quota_retries_end_in_the_quota_error :
  (forall m task,
      startsWith m [c_lbrace] = false ->
      GeminiServiceV31.is_quota m = true ->
      GeminiServiceV31.handleApiError m task = quota_message)
  /\ (forall w input,
         has_key w = true ->
         (forall n, (n <= 5)%nat ->
            exists m, generateContent w n = Rejected m
                      /\ GeminiServiceV31.is_quota m = true
                      /\ startsWith m [c_lbrace] = false) ->
         GeminiServiceV31.generateMoviePackage w input 0
         = Some (Throw quota_message))
  /\ GeminiServiceV31.is_quota (str "Quota exceeded") = false
  /\ GeminiServiceV31.handleApiError (str "Quota exceeded") "GENERATE_PACKAGE"
     = quota_message
  /\ GeminiServiceV31.is_quota (js "{'error':{'message':'boom'},'code':429}")
     = true
  /\ GeminiServiceV31.handleApiError
       (js "{'error':{'message':'boom'},'code':429}") "GENERATE_PACKAGE"
     = str "Engine Failure [GENERATE_PACKAGE]: boom".
Proof.
  split; [exact v31_quota_report|]. split.
  - intros w input K H. unfold GeminiServiceV31.generateMoviePackage.
    cbn [Nat.sub].
    destruct (H 0%nat ltac:(lia)) as (m0 & G0 & Q0 & _).
    destruct (H 1%nat ltac:(lia)) as (m1 & G1 & Q1 & _).
    destruct (H 2%nat ltac:(lia)) as (m2 & G2 & Q2 & _).
    destruct (H 3%nat ltac:(lia)) as (m3 & G3 & Q3 & _).
    destruct (H 4%nat ltac:(lia)) as (m4 & G4 & Q4 & _).
    destruct (H 5%nat ltac:(lia)) as (m5 & G5 & Q5 & S5).
    rewrite (@v31_quota_step _ w input 0%nat m0 K G0 Q0) by lia.
    rewrite (@v31_quota_step _ w input 1%nat m1 K G1 Q1) by lia.
    rewrite (@v31_quota_step _ w input 2%nat m2 K G2 Q2) by lia.
    rewrite (@v31_quota_step _ w input 3%nat m3 K G3 Q3) by lia.
    rewrite (@v31_quota_step _ w input 4%nat m4 K G4 Q4) by lia.
    rewrite (@v31_quota_last _ w input 5%nat m5 K G5) by lia.
    rewrite (@v31_quota_report m5 _ S5 Q5). reflexivity.
  - repeat split; vm_compute; reflexivity.
Qed.

Lemma v31_quota_retries_end_in_the_quota_error_witness :
  let w := mkWorld (Some (str "key"))
                   (fun _ => Rejected (str "429 RESOURCE_EXHAUSTED")) in
  GeminiServiceV31.generateMoviePackage w sample_input 0
  = Some (Throw quota_message).
Proof.
  intros w.
  apply (proj1 (proj2 v31_quota_retries_end_in_the_quota_error) w sample_input
               eq_refl).
  intros n _. exists (str "429 RESOURCE_EXHAUSTED").
  split; [reflexivity|]. split; vm_compute; reflexivity.
Defined.

Lemma v31_package_takes_at_most_six_requests_witness :
  let answers (late : jsstring) (n : nat) :=
    if (n <=? 5)%nat then Rejected (str "429") else Text (Some late) in
  GeminiServiceV31.generateMoviePackage
    (mkWorld (Some (str "key")) (answers (js "{}"))) sample_input 0
  = GeminiServiceV31.generateMoviePackage
      (mkWorld (Some (str "key")) (answers (js "[]"))) sample_input 0.
Proof.
  intros answers.
  refine (proj1 (@v31_package_takes_at_most_six_requests
                   _ _ sample_input 0%nat eq_refl _ _)); [lia|].
  intros n Hn. cbn [generateContent]. unfold answers.
  destruct (Nat.leb_spec n 5); [reflexivity|lia].
Defined.

(** X7.  [handleApiError] in the two files.  Both read the same lower-case
    message off the error.  When it holds a key marker (401, 403, 'api key
    not valid', 'invalid api key'), src/services/geminiService.ts raises
    the event PRISMA_API_KEY_INVALID and throws the key error, whatever
    else the message holds; part_008 raises nothing, tests the quota
    markers (429, 'quota', 'limit', 'resource_exhausted') first and throws
    the quota error when one is there, its own key error otherwise.  On a
    message with no key marker the two files throw the same error. *)
Theorem key_and_quota_markers_are_ranked_differently :
  forall m task,
    let msg := GeminiService.error_msg m in
    let key := GeminiService.any_includes msg
                 ["401"; "403"; "api key not valid"; "invalid api key"]%string in
    let quota := GeminiService.any_includes msg
                   ["429"; "quota"; "limit"; "resource_exhausted"]%string in
    GeminiServiceV31.error_msg m = msg
    /\ (key = true ->
        GeminiService.handleApiError m task
        = ([str "PRISMA_API_KEY_INVALID"],
           str "API Key not valid. Please check your Engine Settings."))
    /\ (quota = true ->
        GeminiServiceV31.handleApiError m task = quota_message)
    /\ (key = false ->
        GeminiService.handleApiError m task
        = ([], GeminiServiceV31.handleApiError m task))
    /\ (quota = false -> key = true ->
        GeminiServiceV31.handleApiError m task
        = str "API Key not valid. Please check your configuration.").
Proof.
  intros m task msg key quota.
  unfold GeminiService.handleApiError, GeminiServiceV31.handleApiError.
  change (GeminiServiceV31.error_msg m) with msg.
  change (GeminiService.error_msg m) with msg.
  change (GeminiServiceV31.any_includes msg
            ["429"; "quota"; "limit"; "resource_exhausted"]%string) with quota.
  change (GeminiServiceV31.any_includes msg
            ["401"; "403"; "api key not valid"; "invalid api key"]%string)
    with key.
  change (GeminiService.any_includes msg
            ["429"; "quota"; "limit"; "resource_exhausted"]%string) with quota.
  change (GeminiService.any_includes msg
            ["401"; "403"; "api key not valid"; "invalid api key"]%string)
    with key.
  cbv zeta. split; [reflexivity|].
  destruct key, quota; repeat split; intros; try discriminate; reflexivity.
Qed.

Lemma key_and_quota_markers_are_ranked_differently_witness :
  GeminiService.handleApiError (str "403 Forbidden: rate LIMIT") "GENERATE_IMAGE"
  = ([str "PRISMA_API_KEY_INVALID"],
     str "API Key not valid. Please check your Engine Settings.")
  /\ GeminiServiceV31.handleApiError (str "403 Forbidden: rate LIMIT")
       "GENERATE_IMAGE" = quota_message.
Proof.
  pose proof (key_and_quota_markers_are_ranked_differently
                (str "403 Forbidden: rate LIMIT") "GENERATE_IMAGE") as H.
  cbv zeta in H. destruct H as (_ & A & B & _).
  split; [apply A|apply B]; vm_compute; reflexivity.
Defined.

Local Close Scope Z_scope.

Import InputForm.

(** X8.  The options of the input form and the tables of the two service
    files.  Every style the form offers has a preset of its own, so the
    fall-back preset is not used for it; for every duration and density the
    form offers, src/services/geminiService.ts finds the row and the
    column as they are written, part_008 returns the same count, and the
    count lies between 4 and 40. *)
Theorem form_options_are_rows_of_the_tables :
  (forall style, In style styleOptions ->
     lookup style VISUAL_STYLE_PRESETS = Some (resolveStyle style))
  /\ (forall duration density,
        In duration durations -> In density densities ->
        GeminiService.getRequiredKeyframeCount duration density
        = GeminiServiceV31.getRequiredKeyframeCount duration density
        /\ (exists row,
              lookup duration GeminiService.table = Some row
              /\ lookup density row
                 = Some (GeminiService.getRequiredKeyframeCount
                           duration density))
        /\ (4 <= GeminiService.getRequiredKeyframeCount duration density
            <= 40)%Z).
Proof.
  split.
  - intros style H. vm_compute in H.
    repeat (destruct H as [<-|H]; [vm_compute; reflexivity|]).
    destruct H.
  - intros duration density Hd Hs. vm_compute in Hd. vm_compute in Hs.
    repeat (destruct Hd as [<-|Hd];
            [repeat (destruct Hs as [<-|Hs];
                     [split; [vm_compute; reflexivity|];
                      split; [eexists; split; vm_compute; reflexivity|];
                      vm_compute; split; discriminate|]);
             destruct Hs|]).
    destruct Hd.
Qed.

Lemma form_options_are_rows_of_the_tables_witness :
  GeminiService.getRequiredKeyframeCount (str "5 Minutes") (str "Detailed")
  = GeminiServiceV31.getRequiredKeyframeCount
      (str "5 Minutes") (str "Detailed").
Proof.
  apply (proj2 form_options_are_rows_of_the_tables
           (str "5 Minutes") (str "Detailed")).
  - vm_compute. tauto.
  - vm_compute. tauto.
Defined.

Import Calls CallFacts ValuesFacts ReplyFacts.



(** X10.  [generateSfxCues] with a key never throws.  What it returns in
    src/services/geminiService.ts is an object, in part_008 an object or
    an array; it is the default pair of cues of the file or the value that
    the cleaned reply parses to.  An absent reply, and a reply with no
    brace (part_008: and no bracket), give the empty object, not the
    default. *)
Theorem sfx_cues_never_fail_with_a_key :
  forall w mood title,
    has_key w = true ->
    exists v v',
      GeminiServiceCalls.generateSfxCues w mood title = Ok v
      /\ GeminiServiceV31Calls.generateSfxCues w mood title = Ok v'
      /\ is_object v = true /\ is_container v' = true
      /\ (v = GeminiServiceCalls.default_cues
          \/ exists text, generateContent w 0 = Text text
               /\ JSON.parse (GeminiService.cleanJsonString text) = Some v)
      /\ (v' = GeminiServiceV31Calls.default_cues
          \/ exists text, generateContent w 0 = Text text
               /\ JSON.parse (GeminiServiceV31.cleanJsonString text)
                  = Some v')
      /\ (generateContent w 0 = Text None -> v = JObj [] /\ v' = JObj [])
      /\ (forall t, generateContent w 0 = Text (Some t) ->
            ~ In c_lbrace t ->
            v = JObj [] /\ (~ In c_lbracket t -> v' = JObj [])).
Proof.
  intros w mood title K.
  unfold GeminiServiceCalls.generateSfxCues,
    GeminiServiceV31Calls.generateSfxCues. rewrite K. cbn [negb].
  destruct (generateContent w 0) as [text|m].
  - destruct (JSON.parse (GeminiService.cleanJsonString text)) as [v|] eqn:P;
      destruct (JSON.parse (GeminiServiceV31.cleanJsonString text))
        as [v'|] eqn:P'.
    all: eexists; eexists; split; [reflexivity|]; split; [reflexivity|].
    all: split;
      [first [exact (@gs_parse_object text _ (or_introl P))
             |reflexivity]|].
    all: split;
      [first [exact (@v31_parse_container text _ P')
             |reflexivity]|].
    all: split;
      [first [left; reflexivity
             |right; exists text; split; [reflexivity|exact P]]|].
    all: split;
      [first [left; reflexivity
             |right; exists text; split; [reflexivity|exact P']]|].
    all: split;
      [intros H; injection H as ->;
       vm_compute in P; vm_compute in P';
       split; congruence|].
    all: intros t H Nb; injection H as ->;
      pose proof (eq_trans (eq_sym P)
                    (f_equal JSON.parse (@gs_clean_no_brace t Nb))) as Q;
      vm_compute in Q; split; [congruence|];
      intros Nk;
      pose proof (eq_trans (eq_sym P')
                    (f_equal JSON.parse (@v31_clean_no_root t Nb Nk))) as Q';
      vm_compute in Q'; congruence.
  - eexists; eexists. split; [reflexivity|]. split; [reflexivity|].
    split; [reflexivity|]. split; [reflexivity|].
    split; [left; reflexivity|]. split; [left; reflexivity|].
    split; [intros H; discriminate|intros t H; discriminate].
Qed.

Lemma sfx_cues_never_fail_with_a_key_witness :
  exists v v',
    GeminiServiceCalls.generateSfxCues
      (mkWorld (Some (str "key")) (fun _ => Text (Some (str "no cues"))))
      (str "Calm") (str "Dawn") = Ok v
    /\ GeminiServiceV31Calls.generateSfxCues
         (mkWorld (Some (str "key")) (fun _ => Text (Some (str "no cues"))))
         (str "Calm") (str "Dawn") = Ok v'.
Proof.
  destruct (@sfx_cues_never_fail_with_a_key
              (mkWorld (Some (str "key"))
                       (fun _ => Text (Some (str "no cues"))))
              (str "Calm") (str "Dawn") eq_refl)
    as (v & v' & E & E' & _).
  exists v, v'. split; [exact E|exact E'].
Defined.

(** X11.  The calls that return [JSON.parse(cleanJsonString(response.text))].
    Whatever [extractContinuityTokensFromImage], [refinePackagePrompts] and
    [generateViralScript] of src/services/geminiService.ts return is an
    object and comes with no event, so [refinePackagePrompts] there never
    returns an array; in part_008 the first and the last return an object
    or an array.  With a key and a reply whose text is absent each of them
    returns the empty object, and [refinePackagePrompts] of part_008 the
    empty array. *)
Theorem json_calls_return_what_the_root_allows :
  forall syntaxError w,
    (forall base64Data mimeType prompt ev v,
        GeminiServiceCalls.extractContinuityTokensFromImage
          syntaxError w base64Data mimeType prompt = (ev, Ok v) ->
        is_object v = true /\ ev = [])
    /\ (forall pkg tokens ev v,
          GeminiServiceCalls.refinePackagePrompts syntaxError w pkg tokens
          = (ev, Ok v) ->
          is_object v = true /\ is_array v = false /\ ev = [])
    /\ (forall ev v,
          GeminiServiceCalls.generateViralScript syntaxError w = (ev, Ok v) ->
          is_object v = true /\ ev = [])
    /\ (forall base64Data mimeType prompt v,
          GeminiServiceV31Calls.extractContinuityTokensFromImage
            syntaxError w base64Data mimeType prompt = Ok v ->
          is_container v = true)
    /\ (forall v,
          GeminiServiceV31Calls.generateViralScript syntaxError w = Ok v ->
          is_container v = true)
    /\ (has_key w = true -> generateContent w 0 = Text None ->
        (forall base64Data mimeType prompt,
            GeminiServiceCalls.extractContinuityTokensFromImage
              syntaxError w base64Data mimeType prompt = ([], Ok (JObj []))
            /\ GeminiServiceV31Calls.extractContinuityTokensFromImage
                 syntaxError w base64Data mimeType prompt = Ok (JObj []))
        /\ (forall pkg tokens,
              GeminiServiceCalls.refinePackagePrompts syntaxError w pkg tokens
              = ([], Ok (JObj []))
              /\ GeminiServiceV31Calls.refinePackagePrompts
                   syntaxError w pkg tokens = Ok (JArr []))
        /\ GeminiServiceCalls.generateViralScript syntaxError w
           = ([], Ok (JObj []))
        /\ GeminiServiceV31Calls.generateViralScript syntaxError w
           = Ok (JObj [])).
Proof.
  intros syntaxError w.
  assert (G : forall task ev v,
             GeminiServiceCalls.json_call syntaxError w task = (ev, Ok v) ->
             is_object v = true /\ ev = []).
  { intros task ev v H.
    destruct (@gs_json_call_ok _ _ _ _ _ H) as (E & _ & text & _ & P).
    split; [exact (@gs_parse_object text v (or_introl P))|exact E]. }
  assert (V : forall task v,
             GeminiServiceV31Calls.json_call syntaxError w task = Ok v ->
             is_container v = true).
  { intros task v H.
    destruct (@v31_json_call_ok _ _ _ _ H) as (_ & text & _ & P).
    exact (@v31_parse_container text v P). }
  split; [intros b m p ev v H; exact (G _ _ _ H)|].
  split.
  { intros pkg tokens ev v H. destruct (G _ _ _ H) as [O E].
    split; [exact O|]. split; [|exact E].
    destruct v; try discriminate O; reflexivity. }
  split; [intros ev v H; exact (G _ _ _ H)|].
  split; [intros b m p v H; exact (V _ _ H)|].
  split; [intros v H; exact (V _ _ H)|].
  intros K T.
  unfold GeminiServiceCalls.extractContinuityTokensFromImage,
    GeminiServiceCalls.refinePackagePrompts,
    GeminiServiceCalls.generateViralScript,
    GeminiServiceV31Calls.extractContinuityTokensFromImage,
    GeminiServiceV31Calls.refinePackagePrompts,
    GeminiServiceV31Calls.generateViralScript,
    GeminiServiceCalls.json_call, GeminiServiceV31Calls.json_call.
  rewrite K, T. cbn [negb].
  repeat split; vm_compute; reflexivity.
Qed.

Lemma json_calls_return_what_the_root_allows_witness :
  GeminiServiceCalls.generateViralScript
    (fun s => s) (mkWorld (Some (str "key")) (fun _ => Text None))
  = ([], Ok (JObj []))
  /\ GeminiServiceV31Calls.generateViralScript
       (fun s => s) (mkWorld (Some (str "key")) (fun _ => Text None))
     = Ok (JObj []).
Proof.
  exact (proj2 (proj2 (proj2 (proj2 (proj2 (proj2 (proj2
           (json_calls_return_what_the_root_allows
              (fun s => s)
              (mkWorld (Some (str "key")) (fun _ => Text None)))))))
           eq_refl eq_refl))).
Defined.



Import Image.

(** X13.  The data URL that [generateImage] returns and the two places that
    split one (the reference part of [generateImage] in both files, and
    [handleExtract] of part_005).  For a mime type that is not empty and
    holds no comma, semicolon or line terminator, and data that are not
    empty and hold no comma, splitting the URL made of them gives back the
    same data and mime type, also inside the next request.  A reference
    that is not empty and holds no comma and no colon is sent whole as
    'image/png', and [handleExtract] then passes [undefined] as the
    data. *)
Theorem image_url_is_read_back :
  (forall mime dat : jsstring,
      mime <> [] -> dat <> [] ->
      ~ In c_comma mime -> ~ In c_semicolon mime ->
      Forall (fun c => isLineTerminator c = false) mime ->
      ~ In c_comma dat ->
      let d := mkInline (Some dat) (Some mime) in
      ref_part (image_url d) = d
      /\ handleExtract_args (image_url d) = (Some dat, mime)
      /\ forall prompt ar model,
           req_ref (request_of prompt ar model (Some (image_url d))) = Some d)
  /\ (forall s : jsstring,
         s <> [] -> ~ In c_comma s -> ~ In c_colon s ->
         ref_part s = mkInline (Some s) (Some (str "image/png"))
         /\ handleExtract_args s = (None, str "image/png")).
Proof.
  split.
  - intros mime dat Hm Hd Cm Sm Lm Cd d.
    assert (A : ref_part (image_url d) = d).
    { pose proof (@ImageFacts.split_image_url mime dat Cm) as S.
      unfold ref_part. unfold d. rewrite S.
      rewrite (@ImageFacts.mimeType_of_header mime Hm Sm Lm).
      rewrite (@ImageFacts.before_none c_comma dat Cd).
      destruct dat; [contradiction|reflexivity]. }
    split; [exact A|]. split.
    + pose proof (@ImageFacts.split_image_url mime dat Cm) as S.
      unfold handleExtract_args. unfold d. rewrite S.
      rewrite (@ImageFacts.mimeType_of_header mime Hm Sm Lm).
      rewrite (@ImageFacts.before_none c_comma dat Cd). reflexivity.
    + intros prompt ar model.
      assert (E : exists x r, image_url d = x :: r)
        by (eexists; eexists; reflexivity).
      destruct E as (x & r & E). unfold request_of. rewrite E.
      cbn [req_ref]. rewrite <- E, A. reflexivity.
  - intros s Hs Cs Ks.
    unfold ref_part, handleExtract_args, split_header_data.
    rewrite (@ImageFacts.before_none c_comma s Cs), (@ImageFacts.after_none c_comma s Cs).
    cbn [option_map or_string]. unfold mimeType_of.
    rewrite (@ImageFacts.match_mime_none s Ks). split; reflexivity.
Qed.

Lemma image_url_is_read_back_witness :
  ref_part (str "data:image/jpeg;base64,/9j/4AAQSkZJRg==")
  = mkInline (Some (str "/9j/4AAQSkZJRg==")) (Some (str "image/jpeg"))
  /\ ref_part (str "iVBORw0KGgo=")
     = mkInline (Some (str "iVBORw0KGgo=")) (Some (str "image/png")).
Proof.
  split.
  - apply (proj1 (proj1 image_url_is_read_back
                    (str "image/jpeg") (str "/9j/4AAQSkZJRg==")
                    ltac:(discriminate) ltac:(discriminate)
                    ltac:(vm_compute; intuition discriminate)
                    ltac:(vm_compute; intuition discriminate)
                    ltac:(repeat constructor)
                    ltac:(vm_compute; intuition discriminate))).
  - apply (proj1 (proj2 image_url_is_read_back (str "iVBORw0KGgo=")
                    ltac:(discriminate)
                    ltac:(vm_compute; intuition discriminate)
                    ltac:(vm_compute; intuition discriminate))).
Defined.

(** X14.  [generateImage] of part_008, started with [retryCount] at most 3,
    looks at the answers to the requests [retryCount] to 3 and at no
    other; it always returns or throws; and a URL it returns is the data
    URL of a part that one of the answers carries. *)
Theorem v31_image_takes_at_most_four_requests :
  (forall w w' prompt ar model ref rc,
      IMAGE_API_KEY w = IMAGE_API_KEY w' ->
      (rc <= 3)%nat ->
      (forall req n, (rc <= n <= 3)%nat ->
         generateImageContent w req n = generateImageContent w' req n) ->
      GeminiServiceV31Image.generateImage w prompt ar model ref rc
      = GeminiServiceV31Image.generateImage w' prompt ar model ref rc)
  /\ (forall w prompt ar model ref rc,
         GeminiServiceV31Image.generateImage w prompt ar model ref rc <> None)
  /\ (forall w prompt ar model ref rc url,
         GeminiServiceV31Image.generateImage w prompt ar model ref rc
         = Some (Ok url) ->
         exists n parts d,
           generateImageContent w (request_of prompt ar model ref) n
           = Parts parts
           /\ In (Some d) parts /\ url = image_url d).
Proof.
  split; [|split].
  - intros w w' prompt ar model ref rc K Hrc G.
    unfold GeminiServiceV31Image.generateImage.
    apply ImageRetryFacts.v31_image_fuel_requests; assumption.
  - intros w prompt ar model ref rc.
    unfold GeminiServiceV31Image.generateImage.
    apply ImageRetryFacts.v31_image_fuel_total; lia.
  - intros w prompt ar model ref rc url.
    unfold GeminiServiceV31Image.generateImage.
    apply ImageRetryFacts.v31_image_fuel_url.
Qed.

Lemma v31_image_takes_at_most_four_requests_witness :
  let answers (late : image_response) (_ : image_request) (n : nat) :=
    if (n <=? 2)%nat then ImageRejected (str "429 Too Many Requests")
    else if (n <=? 3)%nat
         then Parts [None; Some (mkInline (Some (str "QUJD")) (Some (str "image/png")))]
         else late in
  let w1 := mkImageWorld (Some (str "key")) (answers (Parts [])) in
  let w2 := mkImageWorld (Some (str "key"))
                         (answers (ImageRejected (str "boom"))) in
  GeminiServiceV31Image.generateImage w1 (str "a cat") (str "3:4") None None 0
  = GeminiServiceV31Image.generateImage w2 (str "a cat") (str "3:4") None None 0
  /\ GeminiServiceV31Image.generateImage w1 (str "a cat") (str "3:4") None None 0
     = Some (Ok (str "data:image/png;base64,QUJD")).
Proof.
  intros answers w1 w2. split.
  - apply (proj1 v31_image_takes_at_most_four_requests);
      [reflexivity|lia|].
    intros req n Hn. unfold w1, w2, answers. cbn [generateImageContent].
    destruct (Nat.leb_spec n 2); [reflexivity|].
    destruct (Nat.leb_spec n 3); [reflexivity|lia].
  - vm_compute. reflexivity.
Defined.

Import Wav.
Local Open Scope Z_scope.

(** X15.  [createWavHeader], for integer arguments in the range where
    the sums and products of the function are exact in doubles
    ([exact_arguments]): the call returns a buffer of 44 bytes, and reading
    it the way [convertWavToMp3] does gives back the tags RIFF, WAVE, fmt
    and data, the PCM format 1, the chunk size 16, and each argument and
    derived rate reduced modulo the width of its field. *)
Theorem wav_header_fields_read_back :
  forall dataLength sampleRate numChannels bitsPerSample,
  exact_arguments dataLength sampleRate numChannels bitsPerSample = true ->
  exists h,
    createWavHeader dataLength sampleRate numChannels bitsPerSample = Some h
    /\ List.length h = 44%nat
    /\ Forall is_byte h
    /\ read h 0 4 = Some (tag "RIFF")
    /\ getUint32 h 4 = Some ((36 + dataLength) mod 2 ^ 32)
    /\ read h 8 4 = Some (tag "WAVE")
    /\ read h 12 4 = Some (tag "fmt ")
    /\ getUint32 h 16 = Some 16
    /\ getUint16 h 20 = Some 1
    /\ getUint16 h 22 = Some (numChannels mod 2 ^ 16)
    /\ getUint32 h 24 = Some (sampleRate mod 2 ^ 32)
    /\ getUint32 h 28
       = Some (Z.quot (sampleRate * numChannels * bitsPerSample) 8 mod 2 ^ 32)
    /\ getUint16 h 32
       = Some (Z.quot (numChannels * bitsPerSample) 8 mod 2 ^ 16)
    /\ getUint16 h 34 = Some (bitsPerSample mod 2 ^ 16)
    /\ read h 36 4 = Some (tag "data")
    /\ getUint32 h 40 = Some (dataLength mod 2 ^ 32).
Proof.
  intros dataLength sampleRate numChannels bitsPerSample _.
  eexists. split; [apply WavHeaderFacts.createWavHeader_segments|].
  split; [reflexivity|].
  split; [apply WavHeaderFacts.header_bytes_range|].
  split; [apply WavHeaderFacts.field_riff|].
  split; [apply WavHeaderFacts.field_riff_size|].
  split; [apply WavHeaderFacts.field_wave|].
  split; [apply WavHeaderFacts.field_fmt|].
  split; [apply WavHeaderFacts.field_fmt_size|].
  split; [apply WavHeaderFacts.field_format|].
  split; [apply WavHeaderFacts.field_channels|].
  split; [apply WavHeaderFacts.field_rate|].
  split; [apply WavHeaderFacts.field_byte_rate|].
  split; [apply WavHeaderFacts.field_block_align|].
  split; [apply WavHeaderFacts.field_bits|].
  split; [apply WavHeaderFacts.field_data|].
  apply WavHeaderFacts.field_data_size.
Qed.

Lemma wav_header_fields_read_back_witness :
  exact_arguments 96000 24000 1 16 = true
  /\ exists h,
       createWavHeader 96000 24000 1 16 = Some h
       /\ getUint32 h 4 = Some 96036
       /\ getUint32 h 28 = Some 48000
       /\ getUint16 h 32 = Some 2
       /\ getUint32 h 40 = Some 96000.
Proof.
  split; [reflexivity|].
  destruct (@wav_header_fields_read_back 96000 24000 1 16 eq_refl)
    as (h & E & _ & _ & _ & S4 & _ & _ & _ & _ & _ & _ & S28 & S32 & _ & _
        & S40).
  exists h. split; [exact E|]. split; [exact S4|]. split; [exact S28|].
  split; [exact S32|exact S40].
Defined.

(** X16.  The file that [generateSpeech] builds (the header for one
    channel, 24000 Hz and 16 bits, then the PCM bytes) under the reader of
    [convertWavToMp3].  With an even, positive number of PCM bytes the
    reader accepts it: one channel, 24000 Hz, data from byte 44, half as
    many samples as bytes.  With no PCM byte it fails with the message that
    the data chunk was not found, and with an odd number of them the
    [Int16Array] cannot be made. *)
Theorem speech_wav_passes_the_exporter_checks :
  forall pcmData,
    let n := Z.of_nat (List.length pcmData) in
    exists file,
      wavFile pcmData = Some file
      /\ List.length file = (44 + List.length pcmData)%nat
      /\ (0 < n -> n mod 2 = 0 ->
          convertWavToMp3_header file = Some (Pcm 1 24000 44 (n / 2)))
      /\ (n = 0 ->
          convertWavToMp3_header file
          = Some (Failure (js "WAV 'data' chunk not found.")))
      /\ (n mod 2 = 1 -> convertWavToMp3_header file = Some RangeError).
Proof.
  intros pcmData n. unfold wavFile.
  rewrite WavHeaderFacts.createWavHeader_segments. cbn [option_map].
  eexists. split; [reflexivity|].
  split; [apply WavFileFacts.file_length|].
  rewrite WavFileFacts.file_parsed. fold n.
  split; [|split].
  - intros H0 H2. destruct (Z.geb_spec 44 (44 + n)); [lia|].
    replace ((44 + n) mod 2) with 0
      by (rewrite Z.add_mod, H2 by lia; reflexivity).
    cbn [Z.eqb negb]. do 2 f_equal. f_equal. lia.
  - intros ->. reflexivity.
  - intros H1. destruct (Z.geb_spec 44 (44 + n)); [|].
    + exfalso. assert (Hn : 0 <= n) by (unfold n; lia).
      assert (Z : n = 0) by lia. rewrite Z in H1. discriminate.
    + replace ((44 + n) mod 2) with 1
        by (rewrite Z.add_mod, H1 by lia; reflexivity).
      reflexivity.
Qed.

Lemma speech_wav_passes_the_exporter_checks_witness :
  exists file,
    wavFile [1; 2; 3; 4] = Some file
    /\ convertWavToMp3_header file = Some (Pcm 1 24000 44 2)
    /\ (exists file1, wavFile [7] = Some file1
          /\ convertWavToMp3_header file1 = Some RangeError)
    /\ (exists file0, wavFile [] = Some file0
          /\ convertWavToMp3_header file0
             = Some (Failure (js "WAV 'data' chunk not found."))).
Proof.
  destruct (speech_wav_passes_the_exporter_checks [1; 2; 3; 4])
    as (file & E & _ & A & _).
  exists file. split; [exact E|].
  split; [apply A; [reflexivity|reflexivity]|].
  split.
  - destruct (speech_wav_passes_the_exporter_checks [7])
      as (file1 & E1 & _ & _ & _ & C).
    exists file1. split; [exact E1|apply C; reflexivity].
  - destruct (speech_wav_passes_the_exporter_checks [])
      as (file0 & E0 & _ & _ & B & _).
    exists file0. split; [exact E0|apply B; reflexivity].
Defined.

(** X17.  The reader of [convertWavToMp3] on any buffer of bytes: the
    search for the data chunk ends.  When the reader accepts the buffer,
    the format is 1, the sample width 16, the channels and rate are the
    fields at 22 and 24, the samples start at an even offset inside the
    buffer right after a chunk header tagged data, and they fill the rest
    of the buffer, two bytes each. *)
Theorem exporter_reader_ends_and_finds_a_data_chunk :
  forall file,
    Forall is_byte file ->
    convertWavToMp3_header file <> None
    /\ forall numChannels sampleRate dataStart samples,
         convertWavToMp3_header file
         = Some (Pcm numChannels sampleRate dataStart samples) ->
         getUint16 file 20 = Some 1
         /\ getUint16 file 22 = Some numChannels
         /\ getUint32 file 24 = Some sampleRate
         /\ getUint16 file 34 = Some 16
         /\ 20 <= dataStart < Z.of_nat (List.length file)
         /\ dataStart mod 2 = 0
         /\ read file (dataStart - 8) 4 = Some (tag "data")
         /\ 2 * samples = Z.of_nat (List.length file) - dataStart.
Proof.
  intros file F. unfold convertWavToMp3_header.
  destruct (getUint16 file 20) as [format|]; [|split; [discriminate|discriminate]].
  destruct (Z.eqb_spec format 1) as [->|N]; cbn [negb];
    [|split; [discriminate|discriminate]].
  destruct (getUint16 file 22) as [ch|]; [|split; [discriminate|discriminate]].
  destruct (getUint32 file 24) as [sr|]; [|split; [discriminate|discriminate]].
  destruct (getUint16 file 34) as [bits|]; [|split; [discriminate|discriminate]].
  destruct (Z.eqb_spec bits 16) as [->|N]; cbn [negb];
    [|split; [discriminate|discriminate]].
  pose proof (@WavReaderFacts.find_data_total file F
                (S (List.length file)) 12 ltac:(lia) ltac:(lia) ltac:(lia)) as T.
  destruct (find_data (S (List.length file)) file 12) as [[pos|]|] eqn:E;
    [|split; [discriminate|discriminate]|contradiction].
  apply (WavReaderFacts.find_data_found F) in E; [|lia].
  destruct E as [E1 E2].
  destruct (Z.geb_spec pos (Z.of_nat (List.length file)));
    [split; [discriminate|discriminate]|].
  destruct (Z.eqb_spec (pos mod 2) 0) as [P2|P2]; cbn [negb orb];
    [|split; [discriminate|discriminate]].
  destruct (Z.eqb_spec (Z.of_nat (List.length file) mod 2) 0) as [L2|L2];
    cbn [negb]; [|split; [discriminate|discriminate]].
  split; [discriminate|].
  intros numChannels sampleRate dataStart samples HP.
  injection HP as <- <- <- <-.
  destruct (E2 ltac:(lia)) as [E3 E4].
  repeat split; try reflexivity; try lia; try assumption.
  assert (M : (Z.of_nat (List.length file) - pos) mod 2 = 0).
  { rewrite Zminus_mod, L2, P2. reflexivity. }
  apply Z.div_exact in M; lia.
Qed.

Lemma exporter_reader_ends_and_finds_a_data_chunk_witness :
  let file := (map Z.of_N (str "RIFF....WAVEfmt ")
                 ++ [16; 0; 0; 0; 1; 0; 2; 0; 68; 172; 0; 0; 16; 177; 2; 0;
                     4; 0; 16; 0]
                 ++ map Z.of_N (str "LIST") ++ [2; 0; 0; 0; 9; 9]
                 ++ map Z.of_N (str "data") ++ [4; 0; 0; 0; 1; 0; 255; 255])%list in
  convertWavToMp3_header file = Some (Pcm 2 44100 54 2)
  /\ read file 46 4 = Some (tag "data").
Proof.
  intros file.
  assert (F : Forall is_byte file)
    by (repeat constructor; vm_compute; intuition discriminate).
  assert (E : convertWavToMp3_header file = Some (Pcm 2 44100 54 2))
    by (vm_compute; reflexivity).
  split; [exact E|].
  exact (proj1 (proj2 (proj2 (proj2 (proj2 (proj2 (proj2
           (proj2 (exporter_reader_ends_and_finds_a_data_chunk F)
                  2 44100 54 2 E)))))))).
Defined.

Local Close Scope Z_scope.
